(** * libglvnd: generated entrypoints (src/util/glvnd_genentry.c)

    A shallow embedding of the runtime entrypoint generator and the proofs of
    its specification.  The module keeps a static table of
    [GENERATED_ENTRYPOINT_MAX] records, two aliased views of one slab of
    stub code, and a counter; the three public functions are
    [glvndGenerateEntrypoint], [glvndUpdateEntrypoints] and
    [glvndFreeEntrypoints].

    Conventions of the embedding:
    - a pointer is an address in [Z], [NULL] is [0]; pointer arithmetic
      inside the slab is exact (the slab is one object of
      [STUB_ENTRY_SIZE * GENERATED_ENTRYPOINT_MAX] bytes), casts of a pointer
      to [intptr_t] or [uint32_t] wrap and are written out;
    - [char *procName] is [option string]: [None] is the null pointer,
      [Some s] a buffer holding the bytes of [s] followed by the NUL;
    - the write view of the slab is a byte memory [Z -> Z];
    - [int entrypointCount] and the indices into the table are [nat]: they
      lie between 0 and [GENERATED_ENTRYPOINT_MAX], and
      [index * STUB_ENTRY_SIZE] stays below 65536, far from the range of
      [int];
    - the module is compiled for one instruction set, the parameter [arch];
      the build without an instruction set (three empty functions) is not
      modelled;
    - what the code cannot decide itself comes in as an argument of the call:
      what [AllocExecPages] answers, whether [strdup] finds memory, the
      callback of the update;
    - every call to the outside (allocator, [strdup], [free], the callback,
      the cache flush) is appended to the [trace] of the state;
    - a computation that would dereference a null pointer, index the table
      out of bounds or fail an [assert] ends in [Stuck]. *)

From Stdlib Require Import ZArith Lia Ascii String.
From stdpp Require Import base list strings.

Local Open Scope Z_scope.

(** ** Build configuration *)

Inductive Arch := USE_X86_ASM | USE_X86_64_ASM | USE_ARMV7_ASM.

#[global] Instance Arch_eq_dec : EqDecision Arch.
Proof. solve_decision. Defined.

(** The maximum number of entrypoints that we can generate. *)
Definition GENERATED_ENTRYPOINT_MAX : nat := 4096.
Arguments GENERATED_ENTRYPOINT_MAX : simpl never.

(** The size of each generated entrypoint. *)
Definition STUB_ENTRY_SIZE : Z := 16.

Definition NULL : Z := 0.

(** Width in bits of a pointer, of [intptr_t] and of [uintptr_t]. *)
Definition ptr_bits (arch : Arch) : Z :=
  match arch with
  | USE_X86_ASM => 32
  | USE_X86_64_ASM => 64
  | USE_ARMV7_ASM => 32
  end.

(** [sizeof(intptr_t)], in bytes. *)
Definition sizeof_ptr (arch : Arch) : nat :=
  match arch with
  | USE_X86_ASM => 4
  | USE_X86_64_ASM => 8
  | USE_ARMV7_ASM => 4
  end.

(** ** Machine integers and bytes *)

(** The value of a [bits]-wide two's complement integer holding [z]. *)
Definition wrap_signed (bits z : Z) : Z :=
  (z + 2 ^ (bits - 1)) mod 2 ^ bits - 2 ^ (bits - 1).

(** The value of a [bits]-wide unsigned integer holding [z]. *)
Definition wrap_unsigned (bits z : Z) : Z := z mod 2 ^ bits.

(** The [n] bytes of the object representation of [v], least significant
    byte first.  [Z.land] and [Z.shiftr] read a negative [v] in two's
    complement. *)
Fixpoint le_bytes (n : nat) (v : Z) : list Z :=
  match n with
  | O => []
  | S n' => Z.land v 255 :: le_bytes n' (Z.shiftr v 8)
  end.

(** The unsigned number a little-endian byte sequence stands for. *)
Fixpoint le_value (bs : list Z) : Z :=
  match bs with
  | [] => 0
  | b :: bs' => b + 256 * le_value bs'
  end.

(** Byte memory: the write view of the slab. *)
Definition Mem := Z -> Z.

Definition store_byte (m : Mem) (a v : Z) : Mem :=
  fun x => if x =? a then v else m x.

(** [memcpy(a, bs, length bs)] *)
Fixpoint store_bytes (m : Mem) (a : Z) (bs : list Z) : Mem :=
  match bs with
  | [] => m
  | b :: bs' => store_bytes (store_byte m a b) (a + 1) bs'
  end.

(** The [n] bytes at [a]. *)
Fixpoint load_bytes (m : Mem) (a : Z) (n : nat) : list Z :=
  match n with
  | O => []
  | S n' => m a :: load_bytes m (a + 1) n'
  end.

(** ** C strings *)

(** A character read as [unsigned char]. *)
Definition uchar (c : ascii) : Z := Z.of_N (N_of_ascii c).

(** [strcmp] on the buffers [s1 ++ NUL] and [s2 ++ NUL]: the difference of
    the first pair of bytes that differ, [0] when both strings end (their
    first NUL) without a difference. *)
Fixpoint strcmp (s1 s2 : string) : Z :=
  match s1, s2 with
  | EmptyString, EmptyString => 0
  | EmptyString, String c2 _ => 0 - uchar c2
  | String c1 _, EmptyString => uchar c1 - 0
  | String c1 r1, String c2 r2 =>
      if uchar c1 =? uchar c2
      then if uchar c1 =? 0 then 0 else strcmp r1 r2
      else uchar c1 - uchar c2
  end.

(** The C string a buffer holds: its bytes before the first NUL. *)
Fixpoint c_str (s : string) : string :=
  match s with
  | EmptyString => EmptyString
  | String c r => if uchar c =? 0 then EmptyString else String c (c_str r)
  end.

(** ** Stub templates *)

(** jmp 0x12345678 *)
Definition STUB_TEMPLATE_X86 : list Z := [0xe9; 0x78; 0x56; 0x34; 0x12].

(** movabs 0x12345678abcdacbd,%rax ; jmp *%rax *)
Definition STUB_TEMPLATE_X86_64 : list Z :=
  [0x48; 0xb8; 0xbd; 0xac; 0xcd; 0xab; 0x78; 0x56; 0x34; 0x12; 0xff; 0xe0].

(** Thumb bytecode, as the [uint16_t] array of the source:
    ldr ip, 1f ; bx ip ; nop ; 1: the offset that needs to be patched. *)
Definition STUB_TEMPLATE_ARMV7 : list Z :=
  [0xf8df; 0xc004; 0x4760; 0xbf00; 0x0000; 0x0000].

(** The bytes [memcpy] reads from the template ([sizeof(STUB_TEMPLATE)] of
    them); the half-words of the ARMv7 template lie in memory least
    significant byte first. *)
Definition STUB_TEMPLATE (arch : Arch) : list Z :=
  match arch with
  | USE_X86_ASM => STUB_TEMPLATE_X86
  | USE_X86_64_ASM => STUB_TEMPLATE_X86_64
  | USE_ARMV7_ASM => flat_map (le_bytes 2) STUB_TEMPLATE_ARMV7
  end.

Definition sizeof_STUB_TEMPLATE (arch : Arch) : Z :=
  Z.of_nat (length (STUB_TEMPLATE arch)).

Definition DISPATCH_FUNC_OFFSET (arch : Arch) : Z :=
  match arch with
  | USE_X86_ASM => 1
  | USE_X86_64_ASM => 2
  | USE_ARMV7_ASM => 8
  end.

Definition DISPATCH_FUNC_OFFSET_REL : Z := 5.

(** ** The state of the module *)

Record GLVNDGenEntrypoint := mkEntrypoint {
  (** The name of the function. *)
  procName : option string;
  (** The generated entrypoint function, mapped as read/write. *)
  entrypointWrite : Z;
  (** The generated entrypoint function, mapped as read/exec. *)
  entrypointExec : Z;
  (** Set to 1 if we've assigned a dispatch function to this entrypoint. *)
  assigned : Z
}.

(** A record of the zero-initialised static table. *)
Definition zero_entrypoint : GLVNDGenEntrypoint :=
  mkEntrypoint None NULL NULL 0.

Definition set_procName (v : option string) (e : GLVNDGenEntrypoint) :=
  mkEntrypoint v (entrypointWrite e) (entrypointExec e) (assigned e).
Definition set_entrypointWrite (v : Z) (e : GLVNDGenEntrypoint) :=
  mkEntrypoint (procName e) v (entrypointExec e) (assigned e).
Definition set_entrypointExec (v : Z) (e : GLVNDGenEntrypoint) :=
  mkEntrypoint (procName e) (entrypointWrite e) v (assigned e).
Definition set_assigned (v : Z) (e : GLVNDGenEntrypoint) :=
  mkEntrypoint (procName e) (entrypointWrite e) (entrypointExec e) v.

(** Calls that leave the module. *)
Inductive Event :=
  | EvAllocExecPages (size : Z) (res : option (Z * Z))
  | EvFreeExecPages (size : Z) (writeBuf execBuf : Z)
  | EvStrdup (s : string) (ok : bool)
  | EvFree (p : option string)
  | EvCallback (name : option string) (param : Z)
  | EvClearCache (first last : Z).

Record State := mkState {
  entrypoints : list GLVNDGenEntrypoint;
  entrypointBufferWrite : Z;
  entrypointBufferExec : Z;
  entrypointCount : nat;
  mem : Mem;
  trace : list Event
}.

(** The static initialisers of the source, over any memory content. *)
Definition init_state (m : Mem) : State :=
  mkState (replicate GENERATED_ENTRYPOINT_MAX zero_entrypoint) NULL NULL 0 m [].

Definition set_entrypoints (v : list GLVNDGenEntrypoint) (s : State) :=
  mkState v (entrypointBufferWrite s) (entrypointBufferExec s)
    (entrypointCount s) (mem s) (trace s).
Definition set_buffers (w e : Z) (s : State) :=
  mkState (entrypoints s) w e (entrypointCount s) (mem s) (trace s).
Definition set_entrypointCount (v : nat) (s : State) :=
  mkState (entrypoints s) (entrypointBufferWrite s) (entrypointBufferExec s)
    v (mem s) (trace s).
Definition set_mem (v : Mem) (s : State) :=
  mkState (entrypoints s) (entrypointBufferWrite s) (entrypointBufferExec s)
    (entrypointCount s) v (trace s).
Definition log (ev : Event) (s : State) :=
  mkState (entrypoints s) (entrypointBufferWrite s) (entrypointBufferExec s)
    (entrypointCount s) (mem s) (trace s ++ [ev]).

(** ** Computations over the state *)

Inductive Fault := NullDeref | OutOfBounds | AssertFail.

Inductive Outcome (A : Type) :=
  | Done (a : A) (s : State)
  | Stuck (f : Fault).
Arguments Done {A} a s.
Arguments Stuck {A} f.

Definition M (A : Type) : Type := State -> Outcome A.

Definition ret {A} (a : A) : M A := fun s => Done a s.

Definition bind {A B} (m : M A) (k : A -> M B) : M B :=
  fun s => match m s with
           | Done a s' => k a s'
           | Stuck f => Stuck f
           end.

Notation "'let!' x ':=' m 'in' k" := (bind m (fun x => k))
  (at level 10, x name, m at level 100, k at level 200).

Definition fault {A} (f : Fault) : M A := fun _ => Stuck f.
Definition gets {A} (f : State -> A) : M A := fun s => Done (f s) s.
Definition modify (f : State -> State) : M unit := fun s => Done tt (f s).
Definition emit (ev : Event) : M unit := modify (log ev).

(** [assert(b)] of a build without NDEBUG. *)
Definition assert_ (b : bool) : M unit :=
  if b then ret tt else fault AssertFail.

(** Reading [entrypoints[i]]. *)
Definition get_entry (i : nat) : M GLVNDGenEntrypoint :=
  fun s => match entrypoints s !! i with
           | Some e => Done e s
           | None => Stuck OutOfBounds
           end.

(** Writing a field of [entrypoints[i]]. *)
Definition modify_entry (i : nat) (f : GLVNDGenEntrypoint -> GLVNDGenEntrypoint)
  : M unit :=
  let! e := get_entry i in
  modify (fun s => set_entrypoints (<[i := f e]> (entrypoints s)) s).

(** [memcpy] and the stores through a pointer into the write view. *)
Definition write_bytes (a : Z) (bs : list Z) : M unit :=
  modify (fun s => set_mem (store_bytes (mem s) a bs) s).

(** [strcmp(a, b)] where [b] is a field of a record. *)
Definition strcmp_ptr (a : string) (b : option string) : M Z :=
  match b with
  | Some s => ret (strcmp a s)
  | None => fault NullDeref
  end.

(** [for (i = first; i < first + n; i++) body(i)] *)
Fixpoint for_loop (n : nat) (i : nat) (body : nat -> M unit) : M unit :=
  match n with
  | O => ret tt
  | S n' => let! _ := body i in for_loop n' (S i) body
  end.

(** ** The functions of the module *)

Section Build.

(** The instruction set the module is compiled for. *)
Variable arch : Arch.

(** The address of [DefaultDispatchFunc]. *)
Variable DefaultDispatchFunc : Z.

(** [(intptr_t) p] *)
Definition to_intptr (p : Z) : Z := wrap_signed (ptr_bits arch) p.

(** [a - b] on [intptr_t] *)
Definition intptr_sub (a b : Z) : Z := wrap_signed (ptr_bits arch) (a - b).

(** Patches an entrypoint to assign a dispatch function to it. *)
Definition SetDispatchFuncPointer (entry : nat) (dispatch : Z) : M unit :=
  let! e := get_entry entry in
  let code := entrypointWrite e in
  match arch with
  | USE_X86_ASM =>
      (* For x86, we use a JMP instruction with a PC-relative offset. *)
      let offset :=
        intptr_sub
          (intptr_sub (to_intptr dispatch) (to_intptr (entrypointExec e)))
          DISPATCH_FUNC_OFFSET_REL in
      write_bytes (code + DISPATCH_FUNC_OFFSET arch)
        (le_bytes (sizeof_ptr arch) offset)
  | USE_X86_64_ASM =>
      (* For x86_64, we have to use a movabs instruction, which needs the
         absolute address of the dispatch function. *)
      write_bytes (code + DISPATCH_FUNC_OFFSET arch)
        (le_bytes (sizeof_ptr arch) dispatch)
  | USE_ARMV7_ASM =>
      let! _ := write_bytes (code + DISPATCH_FUNC_OFFSET arch)
                  (le_bytes 4 (wrap_unsigned 32 dispatch)) in
      (* Make sure the base address has the Thumb mode bit *)
      let! _ := assert_
                  (negb (Z.land (wrap_unsigned (ptr_bits arch) (entrypointExec e)) 1
                         =? 0)) in
      emit (EvClearCache (entrypointExec e - 1)
              (entrypointExec e - 1 + sizeof_STUB_TEMPLATE arch))
  end.

(** Generates a new entrypoint: fills in [entrypoints[entry]] for the
    dispatch function of index [index]. *)
Definition GenerateEntrypointFunc (entry : nat) (index : nat) : M unit :=
  let! bufWrite := gets entrypointBufferWrite in
  let! _ := modify_entry entry
              (set_entrypointWrite (bufWrite + Z.of_nat index * STUB_ENTRY_SIZE)) in
  let! bufExec := gets entrypointBufferExec in
  let! _ := modify_entry entry
              (set_entrypointExec (bufExec + Z.of_nat index * STUB_ENTRY_SIZE)) in
  let! _ := assert_ (sizeof_STUB_TEMPLATE arch <=? STUB_ENTRY_SIZE) in
  (* Copy the template into our buffer. *)
  let! e := get_entry entry in
  let! _ := write_bytes (entrypointWrite e) (STUB_TEMPLATE arch) in
  let! _ := match arch with
            | USE_ARMV7_ASM =>
                (* Add 1 to the base address to force Thumb mode when
                   jumping to the stub *)
                modify_entry entry
                  (fun e => set_entrypointExec (entrypointExec e + 1) e)
            | _ => ret tt
            end in
  (* Assign DefaultDispatchFunc as the dispatch function. *)
  SetDispatchFuncPointer entry DefaultDispatchFunc.

(** Allocates memory for all of the entrypoint functions.  Returns zero on
    success, non-zero on failure.  [os_alloc] is what [AllocExecPages]
    answers when it is called: [None] for a non-zero status,
    [Some (writeBuf, execBuf)] for the two views. *)
Definition InitEntrypoints (os_alloc : option (Z * Z)) : M Z :=
  let! bufExec := gets entrypointBufferExec in
  if bufExec =? NULL then
    let! _ := emit (EvAllocExecPages
                      (STUB_ENTRY_SIZE * Z.of_nat GENERATED_ENTRYPOINT_MAX)
                      os_alloc) in
    match os_alloc with
    | None => ret (-1)
    | Some (writeBuf, execBuf) =>
        let! _ := modify (set_buffers writeBuf execBuf) in
        ret 0
    end
  else ret 0.

(** The scan of [glvndGenerateEntrypoint] over the records [i], [i+1],
    ..., [i+n-1]: the stub of the first one that has the name.  [n] counts
    the turns that are left, [entrypointCount - i]. *)
Fixpoint find_entrypoint (n : nat) (i : nat) (name : string) : M (option Z) :=
  match n with
  | O => ret None
  | S n' =>
      let! e := get_entry i in
      let! c := strcmp_ptr name (procName e) in
      if c =? 0 then
        (* We already generated this function, so return it. *)
        ret (Some (entrypointExec e))
      else find_entrypoint n' (S i) name
  end.

(** [os_strdup] tells whether [strdup] finds memory when it is called. *)
Definition glvndGenerateEntrypoint (os_alloc : option (Z * Z))
    (os_strdup : bool) (name : string) : M Z :=
  let! rc := InitEntrypoints os_alloc in
  if negb (rc =? 0) then ret NULL
  else
    let! count := gets entrypointCount in
    let! found := find_entrypoint count 0 name in
    match found with
    | Some stub => ret stub
    | None =>
        let! count := gets entrypointCount in
        if (count <? GENERATED_ENTRYPOINT_MAX)%nat then
          let entry := count in
          let! _ := emit (EvStrdup name os_strdup) in
          let! _ := modify_entry entry
                      (set_procName
                         (if os_strdup then Some (c_str name) else None)) in
          let! e := get_entry entry in
          match procName e with
          | None => ret NULL
          | Some _ =>
              let! _ := modify_entry entry (set_assigned 0) in
              let! count := gets entrypointCount in
              let! _ := GenerateEntrypointFunc entry count in
              let! _ := modify (fun s =>
                          set_entrypointCount (S (entrypointCount s)) s) in
              let! e := get_entry entry in
              ret (entrypointExec e)
          end
        else ret NULL
    end.

(** The body of the loop of [glvndUpdateEntrypoints]. *)
Definition update_entrypoint (callback : option string -> Z -> Z) (param : Z)
    (i : nat) : M unit :=
  let! e := get_entry i in
  if assigned e =? 0 then
    let! _ := emit (EvCallback (procName e) param) in
    let addr := callback (procName e) param in
    if negb (addr =? NULL) then
      let! _ := SetDispatchFuncPointer i addr in
      modify_entry i (set_assigned 1)
    else ret tt
  else ret tt.

(** The callback is a function of the name and of [param] that does not
    call back into the module, so [entrypointCount], which the loop of the
    source reads at every turn, is the same at every turn. *)
Definition glvndUpdateEntrypoints (callback : option string -> Z -> Z)
    (param : Z) : M unit :=
  let! count := gets entrypointCount in
  for_loop count 0 (update_entrypoint callback param).

(** The body of the loop of [glvndFreeEntrypoints]. *)
Definition free_entrypoint (i : nat) : M unit :=
  let! e := get_entry i in
  let! _ := emit (EvFree (procName e)) in
  let! _ := modify_entry i (set_procName None) in
  let! _ := modify_entry i (set_entrypointWrite NULL) in
  let! _ := modify_entry i (set_entrypointExec NULL) in
  modify_entry i (set_assigned 0).

Definition glvndFreeEntrypoints : M unit :=
  let! count := gets entrypointCount in
  let! _ := for_loop count 0 free_entrypoint in
  let! _ := modify (set_entrypointCount 0) in
  let! bufExec := gets entrypointBufferExec in
  if negb (bufExec =? NULL) then
    let! bufWrite := gets entrypointBufferWrite in
    let! _ := emit (EvFreeExecPages
                      (STUB_ENTRY_SIZE * Z.of_nat GENERATED_ENTRYPOINT_MAX)
                      bufWrite bufExec) in
    modify (set_buffers NULL NULL)
  else ret tt.

End Build.

(** ** Sequences of calls *)

(** A call of the public interface, with what the outside answers during
    the call. *)
Inductive Call :=
  | CallGenerate (os_alloc : option (Z * Z)) (os_strdup : bool) (name : string)
  | CallUpdate (callback : option string -> Z -> Z) (param : Z)
  | CallFree.

(** The call, with its return value ([NULL] for the two [void] functions). *)
Definition do_call (arch : Arch) (DefaultDispatchFunc : Z) (c : Call) : M Z :=
  match c with
  | CallGenerate os_alloc os_strdup name =>
      glvndGenerateEntrypoint arch DefaultDispatchFunc os_alloc os_strdup name
  | CallUpdate callback param =>
      let! _ := glvndUpdateEntrypoints arch callback param in ret NULL
  | CallFree =>
      let! _ := glvndFreeEntrypoints in ret NULL
  end.

(** The calls one after the other; the return values, in order. *)
Fixpoint do_calls (arch : Arch) (DefaultDispatchFunc : Z) (cs : list Call)
  : M (list Z) :=
  match cs with
  | [] => ret []
  | c :: cs' =>
      let! r := do_call arch DefaultDispatchFunc c in
      let! rs := do_calls arch DefaultDispatchFunc cs' in
      ret (r :: rs)
  end.

(** Modelled from the spec: [AllocExecPages] is not part of this file of the
    repository.  Its contract (sections 3, 4.1 and 6 of the specification):
    a non-zero status on failure, otherwise two views of the slab, neither
    of them null, with slots aligned to [STUB_ENTRY_SIZE] bytes. *)
Definition pages_ok (writeBuf execBuf : Z) : Prop :=
  0 < writeBuf ∧ 0 < execBuf ∧
  writeBuf mod STUB_ENTRY_SIZE = 0 ∧ execBuf mod STUB_ENTRY_SIZE = 0.

Definition AllocExecPages_ok (r : option (Z * Z)) : Prop :=
  match r with
  | None => True
  | Some (writeBuf, execBuf) => pages_ok writeBuf execBuf
  end.

(** The allocator keeps its contract in the call. *)
Definition call_ok (c : Call) : Prop :=
  match c with
  | CallGenerate os_alloc _ _ => AllocExecPages_ok os_alloc
  | _ => True
  end.

(** The states of the module in a run of the program: from the static
    initialisers, through calls that return. *)
Inductive reachable (arch : Arch) (DefaultDispatchFunc : Z) : State -> Prop :=
  | reachable_init m : reachable arch DefaultDispatchFunc (init_state m)
  | reachable_call s c r s' :
      reachable arch DefaultDispatchFunc s ->
      call_ok c ->
      do_call arch DefaultDispatchFunc c s = Done r s' ->
      reachable arch DefaultDispatchFunc s'.

(** The Thumb bit of the pointers handed out. *)
Definition thumb_bit (arch : Arch) : Z :=
  match arch with
  | USE_ARMV7_ASM => 1
  | _ => 0
  end.

(** The live records: those of index below [entrypointCount]. *)
Definition live (s : State) : list GLVNDGenEntrypoint :=
  take (entrypointCount s) (entrypoints s).

(** The invariant of the module. *)
Record state_inv (arch : Arch) (s : State) : Prop := {
  inv_length : length (entrypoints s) = GENERATED_ENTRYPOINT_MAX;
  inv_count : (entrypointCount s <= GENERATED_ENTRYPOINT_MAX)%nat;
  inv_live : forall i e,
    (i < entrypointCount s)%nat -> entrypoints s !! i = Some e ->
    procName e <> None /\
    entrypointWrite e = entrypointBufferWrite s + Z.of_nat i * STUB_ENTRY_SIZE /\
    entrypointExec e =
      entrypointBufferExec s + Z.of_nat i * STUB_ENTRY_SIZE + thumb_bit arch;
  inv_unused : forall i,
    (entrypointCount s <= i < GENERATED_ENTRYPOINT_MAX)%nat ->
    entrypoints s !! i = Some zero_entrypoint;
  inv_slab :
    (entrypointBufferWrite s = NULL /\ entrypointBufferExec s = NULL /\
     entrypointCount s = 0%nat) \/
    pages_ok (entrypointBufferWrite s) (entrypointBufferExec s)
}.

(** The stub of the first record of [l] that has the name [name]
    ([strcmp] says 0), if there is one. *)
Fixpoint first_match (name : string) (l : list GLVNDGenEntrypoint) : option Z :=
  match l with
  | [] => None
  | e :: l' =>
      match procName e with
      | Some n => if strcmp name n =? 0 then Some (entrypointExec e)
                  else first_match name l'
      | None => first_match name l'
      end
  end.

(** The bytes [SetDispatchFuncPointer] stores for the dispatch function
    [dispatch] in the stub of the record [e]. *)
Definition dispatch_bytes (arch : Arch) (e : GLVNDGenEntrypoint) (dispatch : Z)
  : list Z :=
  match arch with
  | USE_X86_ASM =>
      le_bytes 4
        (wrap_signed 32
           (wrap_signed 32 (wrap_signed 32 dispatch - wrap_signed 32 (entrypointExec e))
            - 5))
  | USE_X86_64_ASM => le_bytes 8 dispatch
  | USE_ARMV7_ASM => le_bytes 4 (dispatch mod 2 ^ 32)
  end.

(** The cache flush of a patch. *)
Definition flush_events (arch : Arch) (e : GLVNDGenEntrypoint) : list Event :=
  match arch with
  | USE_ARMV7_ASM =>
      [EvClearCache (entrypointExec e - 1)
         (entrypointExec e - 1 + sizeof_STUB_TEMPLATE arch)]
  | _ => []
  end.

(** The state after the stub of [e] was patched for [dispatch]. *)
Definition patched (arch : Arch) (e : GLVNDGenEntrypoint) (dispatch : Z)
    (s : State) : State :=
  mkState (entrypoints s) (entrypointBufferWrite s) (entrypointBufferExec s)
    (entrypointCount s)
    (store_bytes (mem s) (entrypointWrite e + DISPATCH_FUNC_OFFSET arch)
       (dispatch_bytes arch e dispatch))
    (trace s ++ flush_events arch e).

(** The addresses of the slot of the stub of [e]. *)
Definition in_slot (e : GLVNDGenEntrypoint) (a : Z) : Prop :=
  entrypointWrite e <= a < entrypointWrite e + STUB_ENTRY_SIZE.

(** The callback invocations of a trace, in order. *)
Definition callback_calls (t : list Event) : list (option string * Z) :=
  flat_map (fun ev => match ev with
                      | EvCallback name param => [(name, param)]
                      | _ => []
                      end) t.

(** The record [GenerateEntrypointFunc] leaves at the place of [e] for the
    dispatch function of index [index]. *)
Definition generated_entry (arch : Arch) (s : State) (index : nat)
    (e : GLVNDGenEntrypoint) : GLVNDGenEntrypoint :=
  mkEntrypoint (procName e)
    (entrypointBufferWrite s + Z.of_nat index * STUB_ENTRY_SIZE)
    (entrypointBufferExec s + Z.of_nat index * STUB_ENTRY_SIZE + thumb_bit arch)
    (assigned e).

(** The state of [GenerateEntrypointFunc] before it patches the stub: the
    record filled in, the template copied. *)
Definition templated (arch : Arch) (entry index : nat)
    (e : GLVNDGenEntrypoint) (s : State) : State :=
  mkState (<[entry := generated_entry arch s index e]> (entrypoints s))
    (entrypointBufferWrite s) (entrypointBufferExec s) (entrypointCount s)
    (store_bytes (mem s)
       (entrypointBufferWrite s + Z.of_nat index * STUB_ENTRY_SIZE)
       (STUB_TEMPLATE arch))
    (trace s).

(** The state [GenerateEntrypointFunc] leaves: the stub patched for
    [DefaultDispatchFunc]. *)
Definition generated (arch : Arch) (DefaultDispatchFunc : Z) (entry index : nat)
    (e : GLVNDGenEntrypoint) (s : State) : State :=
  patched arch (generated_entry arch s index e) DefaultDispatchFunc
    (templated arch entry index e s).

(** The call to [AllocExecPages] of [InitEntrypoints]. *)
Definition alloc_event (os_alloc : option (Z * Z)) : Event :=
  EvAllocExecPages (STUB_ENTRY_SIZE * Z.of_nat GENERATED_ENTRYPOINT_MAX) os_alloc.

(** The record of a fresh entrypoint of index [index] for [name]. *)
Definition new_entry (arch : Arch) (s : State) (index : nat) (name : string)
  : GLVNDGenEntrypoint :=
  mkEntrypoint (Some (c_str name))
    (entrypointBufferWrite s + Z.of_nat index * STUB_ENTRY_SIZE)
    (entrypointBufferExec s + Z.of_nat index * STUB_ENTRY_SIZE + thumb_bit arch)
    0.

(** The state [glvndGenerateEntrypoint] leaves when it adds a record for
    [name]. *)
Definition inserted (arch : Arch) (DefaultDispatchFunc : Z) (name : string)
    (s : State) : State :=
  let c := entrypointCount s in
  let e := new_entry arch s c name in
  mkState (<[c := e]> (entrypoints s))
    (entrypointBufferWrite s) (entrypointBufferExec s) (S c)
    (store_bytes
       (store_bytes (mem s) (entrypointWrite e) (STUB_TEMPLATE arch))
       (entrypointWrite e + DISPATCH_FUNC_OFFSET arch)
       (dispatch_bytes arch e DefaultDispatchFunc))
    ((trace s ++ [EvStrdup name true]) ++ flush_events arch e).

(** The record [e] carries the C string of [name]: the same bytes, the same
    length. *)
Definition same_name (name : string) (e : GLVNDGenEntrypoint) : Prop :=
  exists n, procName e = Some n /\ c_str name = c_str n.

(** The state [InitEntrypoints] leaves. *)
Definition after_init (os_alloc : option (Z * Z)) (s : State) : State :=
  if entrypointBufferExec s =? NULL then
    match os_alloc with
    | Some (writeBuf, execBuf) =>
        set_buffers writeBuf execBuf (log (alloc_event os_alloc) s)
    | None => log (alloc_event os_alloc) s
    end
  else s.

(** The closed form of [glvndGenerateEntrypoint] on the states of the
    invariant ([generate_closed_form] below): its return value and the state
    it leaves. *)
Definition generate_result (arch : Arch) (DefaultDispatchFunc : Z)
    (os_alloc : option (Z * Z)) (os_strdup : bool) (name : string) (s : State)
  : Z * State :=
  let s1 := after_init os_alloc s in
  if entrypointBufferExec s1 =? NULL then (NULL, s1)
  else
    match first_match name (live s1) with
    | Some stub => (stub, s1)
    | None =>
        if (entrypointCount s1 <? GENERATED_ENTRYPOINT_MAX)%nat then
          if os_strdup then
            (entrypointExec (new_entry arch s1 (entrypointCount s1) name),
             inserted arch DefaultDispatchFunc name s1)
          else (NULL, log (EvStrdup name false) s1)
        else (NULL, s1)
    end.

(** The call to [FreeExecPages] of [glvndFreeEntrypoints]. *)
Definition free_pages_event (s : State) : Event :=
  EvFreeExecPages (STUB_ENTRY_SIZE * Z.of_nat GENERATED_ENTRYPOINT_MAX)
    (entrypointBufferWrite s) (entrypointBufferExec s).

(** The closed form of the state [glvndFreeEntrypoints] leaves
    ([free_closed_form] below). *)
Definition freed (s : State) : State :=
  let s1 :=
    mkState
      (replicate (entrypointCount s) zero_entrypoint ++
       drop (entrypointCount s) (entrypoints s))
      (entrypointBufferWrite s) (entrypointBufferExec s) 0 (mem s)
      (trace s ++ ((fun e => EvFree (procName e)) <$> live s)) in
  if entrypointBufferExec s =? NULL then s1
  else set_buffers NULL NULL (log (free_pages_event s) s1).

(** The callback resolves the record [e] in an update. *)
Definition resolved (callback : option string -> Z -> Z) (param : Z)
    (e : GLVNDGenEntrypoint) : bool :=
  (assigned e =? 0) && negb (callback (procName e) param =? NULL).

(** What an update makes of the record [e]. *)
Definition update_record (callback : option string -> Z -> Z) (param : Z)
    (e : GLVNDGenEntrypoint) : GLVNDGenEntrypoint :=
  if resolved callback param e then set_assigned 1 e else e.

(** What the update of the record [e] does to the rest of the state. *)
Definition update_step (arch : Arch) (callback : option string -> Z -> Z)
    (param : Z) (e : GLVNDGenEntrypoint) (s : State) : State :=
  if assigned e =? 0 then
    let s1 := log (EvCallback (procName e) param) s in
    if negb (callback (procName e) param =? NULL)
    then patched arch e (callback (procName e) param) s1
    else s1
  else s.

(** The closed form of the state [glvndUpdateEntrypoints] leaves
    ([update_closed_form] below). *)
Definition updated (arch : Arch) (callback : option string -> Z -> Z)
    (param : Z) (s : State) : State :=
  set_entrypoints
    ((update_record callback param <$> live s) ++
     drop (entrypointCount s) (entrypoints s))
    (foldl (fun s e => update_step arch callback param e s) s (live s)).

(** The call is not the teardown. *)
Definition not_free (c : Call) : Prop :=
  match c with
  | CallFree => False
  | _ => True
  end.

(** Number of bytes of the dispatch field of a stub. *)
Definition dispatch_size (arch : Arch) : nat :=
  match arch with
  | USE_X86_ASM => 4
  | USE_X86_64_ASM => 8
  | USE_ARMV7_ASM => 4
  end.

(** The addresses of the dispatch field of the stub of [e]. *)
Definition in_dispatch_field (arch : Arch) (e : GLVNDGenEntrypoint) (a : Z)
  : Prop :=
  entrypointWrite e + DISPATCH_FUNC_OFFSET arch <= a <
  entrypointWrite e + DISPATCH_FUNC_OFFSET arch + Z.of_nat (dispatch_size arch).

(** The calls that leave the module while an update handles the record
    [e]. *)
Definition update_events (arch : Arch) (callback : option string -> Z -> Z)
    (param : Z) (e : GLVNDGenEntrypoint) : list Event :=
  if assigned e =? 0 then
    EvCallback (procName e) param ::
    (if negb (callback (procName e) param =? NULL) then flush_events arch e else [])
  else [].

(** The live records of [s] are live in [s'], with their names and their
    two pointers. *)
Definition keeps_live (s s' : State) : Prop :=
  (entrypointCount s <= entrypointCount s')%nat /\
  forall i e,
    (i < entrypointCount s)%nat -> entrypoints s !! i = Some e ->
    exists e',
      entrypoints s' !! i = Some e' /\
      procName e' = procName e /\
      entrypointWrite e' = entrypointWrite e /\
      entrypointExec e' = entrypointExec e.

(** The state a run of calls leaves (the state it starts from if a call
    does not return). *)
Definition state_after (arch : Arch) (DefaultDispatchFunc : Z) (cs : list Call)
    (s : State) : State :=
  match do_calls arch DefaultDispatchFunc cs s with
  | Done _ s' => s'
  | Stuck _ => s
  end.

(** ** A small scenario *)

Module Demo.

(** A zeroed memory. *)
Definition memory : Mem := fun _ => 0.

(** The two views [AllocExecPages] hands out. *)
Definition pages : option (Z * Z) := Some (0x10000, 0x20000).

(** The address of [DefaultDispatchFunc]. *)
Definition default_dispatch : Z := 0x8000.

(** A vendor callback that knows one function. *)
Definition vendor (name : option string) (param : Z) : Z :=
  match name with
  | Some n => if String.eqb n "glFoo" then 0x30000 else NULL
  | None => NULL
  end.

Definition generate (name : string) : Call := CallGenerate pages true name.

(** The module after two entrypoints were generated. *)
Definition two_stubs (arch : Arch) : State :=
  state_after arch default_dispatch [generate "glFoo"; generate "glBar"]
    (init_state memory).

Definition two_stubs_x86 : State := two_stubs USE_X86_ASM.
Definition two_stubs_x86_64 : State := two_stubs USE_X86_64_ASM.
Definition two_stubs_thumb : State := two_stubs USE_ARMV7_ASM.

(** The module before its first call. *)
Definition fresh : State := init_state memory.

(** The record of "glFoo" on x86 and the record of "glBar" on ARMv7. *)
Definition foo_entry : GLVNDGenEntrypoint :=
  mkEntrypoint (Some "glFoo"%string) 0x10000 0x20000 0.
Definition bar_entry_thumb : GLVNDGenEntrypoint :=
  mkEntrypoint (Some "glBar"%string) 0x10010 0x20011 0.

(** The record a third entrypoint, for "glBaz", gets. *)
Definition third_entry : GLVNDGenEntrypoint :=
  new_entry USE_X86_64_ASM (after_init pages two_stubs_x86_64)
    (entrypointCount two_stubs_x86_64) "glBaz".

(** The x86 module after "glFoo" and "glBar" were generated and the
    vendor was asked once. *)
Definition resolved_x86 : State :=
  state_after USE_X86_ASM default_dispatch
    [generate "glFoo"; generate "glBar"; CallUpdate vendor 0]
    (init_state memory).

(** The x86 module after "glFoo" was generated. *)
Definition one_stub_x86 : State :=
  state_after USE_X86_ASM default_dispatch [generate "glFoo"]
    (init_state memory).

(** The string of [k] letters a. *)
Fixpoint letters (k : nat) : string :=
  match k with
  | O => EmptyString
  | S k' => String "a" (letters k')
  end.

(** As many names as the table has records, and one more. *)
Definition names : list string := letters <$> seq 0 GENERATED_ENTRYPOINT_MAX.
Definition one_more : string := letters GENERATED_ENTRYPOINT_MAX.

End Demo.

(** The state a loop over the records [i], ..., [i+n-1] leaves when its body
    rewrites the record of its index with [f] and the rest of the state
    with [g]. *)
Definition loop_result (f : GLVNDGenEntrypoint -> GLVNDGenEntrypoint)
    (g : GLVNDGenEntrypoint -> State -> State) (n i : nat) (s : State) : State :=
  set_entrypoints
    (take i (entrypoints s) ++
     (f <$> take n (drop i (entrypoints s))) ++
     drop (i + n) (entrypoints s))
    (foldl (fun s e => g e s) s (take n (drop i (entrypoints s)))).

(** The part of the invariant that does not depend on the slab: the table
    has its size, the count fits, the live records have names. *)
Definition names_inv (s : State) : Prop :=
  length (entrypoints s) = GENERATED_ENTRYPOINT_MAX /\
  (entrypointCount s <= GENERATED_ENTRYPOINT_MAX)%nat /\
  forall e, e ∈ live s -> procName e <> None.

(** ** Contents of a stub, owned resources *)




(** The addresses of the write view of the slab. *)
Definition in_slab (s : State) (a : Z) : Prop :=
  entrypointBufferWrite s <= a <
  entrypointBufferWrite s + STUB_ENTRY_SIZE * Z.of_nat GENERATED_ENTRYPOINT_MAX.

(** The names of the live records, in the order of the table. *)
Definition live_names (s : State) : list string := omap procName (live s).

(** What the module holds of the outside: the two views of the slab, if it
    has them, and the copies of names that [strdup] made, oldest first. *)
Definition Owned : Type := option (Z * Z) * list string.

(** The slab the state holds. *)
Definition slab_of (s : State) : option (Z * Z) :=
  if entrypointBufferExec s =? NULL then None
  else Some (entrypointBufferWrite s, entrypointBufferExec s).

(** One call to the outside, checked against what is owned: the slab is
    asked for only when none is held, with the size of the table of stubs;
    it is given back only when held, with the pointers and the size it came
    with; a name is copied only while the slab is held; [free] gets the
    oldest copy that is still owned, never a null pointer.  [None] when a
    call breaks this. *)
Definition owned_step (o : Owned) (ev : Event) : option Owned :=
  match ev with
  | EvAllocExecPages size res =>
      match o.1 with
      | None => if size =? 65536 then Some (res, o.2) else None
      | Some _ => None
      end
  | EvFreeExecPages size writeBuf execBuf =>
      match o.1, o.2 with
      | Some (w, e), [] =>
          if (size =? 65536) && (writeBuf =? w) && (execBuf =? e)
          then Some (None, []) else None
      | _, _ => None
      end
  | EvStrdup name ok =>
      match o.1 with
      | Some _ => Some (o.1, if ok then o.2 ++ [c_str name] else o.2)
      | None => None
      end
  | EvFree p =>
      match p, o.2 with
      | Some n, n' :: rest => if String.eqb n n' then Some (o.1, rest) else None
      | _, _ => None
      end
  | EvCallback _ _ => Some o
  | EvClearCache _ _ => Some o
  end.

(** The calls of a trace, one after the other. *)
Fixpoint owned_run (o : Owned) (t : list Event) : option Owned :=
  match t with
  | [] => Some o
  | ev :: t' =>
      match owned_step o ev with
      | Some o' => owned_run o' t'
      | None => None
      end
  end.

(** No two live records have the same name, and the names are the bytes
    of C strings. *)
Definition unique_names (s : State) : Prop :=
  NoDup (procName <$> live s) /\
  forall e, e ∈ live s -> exists n, procName e = Some n /\ c_str n = n.

(** * Proofs *)

(** ** Bytes and memory *)

Lemma length_le_bytes n v : length (le_bytes n v) = n.
Proof. revert v; induction n as [|n IH]; intros v; simpl; [done | by rewrite IH]. Qed.

Lemma le_bytes_range n v b : b ∈ le_bytes n v -> 0 <= b < 256.
Proof.
  revert v; induction n as [|n IH]; intros v; simpl.
  - by intros ?%elem_of_nil.
  - intros [-> | Hb]%elem_of_cons; [| by eapply IH].
    change 255 with (Z.ones 8). rewrite Z.land_ones by lia.
    apply Z.mod_pos_bound. lia.
Qed.

Lemma le_value_le_bytes n v : le_value (le_bytes n v) = v mod 256 ^ Z.of_nat n.
Proof.
  revert v; induction n as [|n IH]; intros v.
  - simpl. by rewrite Z.mod_1_r.
  - cbn [le_bytes le_value]. rewrite IH.
    change 255 with (Z.ones 8). rewrite Z.land_ones by lia.
    rewrite Z.shiftr_div_pow2 by lia.
    rewrite Nat2Z.inj_succ, Z.pow_succ_r by lia.
    change (2 ^ 8) with 256.
    rewrite (Z.rem_mul_r v 256 (256 ^ Z.of_nat n)) by lia. done.
Qed.

Lemma store_bytes_outside m a bs x :
  x < a \/ a + Z.of_nat (length bs) <= x -> store_bytes m a bs x = m x.
Proof.
  revert m a; induction bs as [|b bs IH]; intros m a Hx; simpl; [done |].
  rewrite IH by (simpl in Hx; lia).
  unfold store_byte. destruct (Z.eqb_spec x a); [simpl in Hx; lia | done].
Qed.

Lemma store_bytes_inside m a bs (k : nat) b :
  bs !! k = Some b -> store_bytes m a bs (a + Z.of_nat k) = b.
Proof.
  revert m a k; induction bs as [|b0 bs IH]; intros m a k Hk; [done |].
  destruct k as [|k]; cbn [store_bytes].
  - injection Hk as ->. rewrite store_bytes_outside by lia.
    unfold store_byte. change (Z.of_nat 0) with 0. by rewrite Z.add_0_r, Z.eqb_refl.
  - replace (a + Z.of_nat (S k)) with (a + 1 + Z.of_nat k) by lia.
    by apply IH.
Qed.

Lemma load_store_bytes m a bs :
  load_bytes (store_bytes m a bs) a (length bs) = bs.
Proof.
  revert m a; induction bs as [|b bs IH]; intros m a; simpl; [done |].
  rewrite IH. f_equal.
  rewrite store_bytes_outside by lia.
  unfold store_byte. by rewrite Z.eqb_refl.
Qed.

Lemma load_bytes_ext m m' a n :
  (forall x, a <= x < a + Z.of_nat n -> m' x = m x) ->
  load_bytes m' a n = load_bytes m a n.
Proof.
  revert a; induction n as [|n IH]; intros a H; simpl; [done |].
  rewrite H by lia. f_equal. apply IH. intros x Hx. apply H. lia.
Qed.

Lemma wrap_signed_range bits z :
  0 < bits -> - 2 ^ (bits - 1) <= wrap_signed bits z < 2 ^ (bits - 1).
Proof.
  intros Hb. unfold wrap_signed.
  assert (2 ^ bits = 2 * 2 ^ (bits - 1)) as E.
  { rewrite <- Z.pow_succ_r by lia. f_equal. lia. }
  pose proof (Z.mod_pos_bound (z + 2 ^ (bits - 1)) (2 ^ bits)) as B.
  assert (0 < 2 ^ (bits - 1)) by (apply Z.pow_pos_nonneg; lia).
  lia.
Qed.

Lemma wrap_signed_mod bits z :
  0 < bits -> wrap_signed bits z mod 2 ^ bits = z mod 2 ^ bits.
Proof.
  intros Hb. unfold wrap_signed.
  assert (0 < 2 ^ bits) by (apply Z.pow_pos_nonneg; lia).
  rewrite Zminus_mod, Zmod_mod, <- Zminus_mod. f_equal. lia.
Qed.

(** ** C strings *)

Lemma uchar_inj c1 c2 : uchar c1 = uchar c2 -> c1 = c2.
Proof.
  unfold uchar. intros H%(inj Z.of_N).
  rewrite <- (ascii_N_embedding c1), <- (ascii_N_embedding c2). by rewrite H.
Qed.

Lemma uchar_nonneg c : 0 <= uchar c.
Proof. unfold uchar. lia. Qed.

(** [strcmp] says 0 exactly when the two C strings have the same bytes and
    the same length. *)
Lemma strcmp_0_iff s1 s2 : strcmp s1 s2 = 0 <-> c_str s1 = c_str s2.
Proof.
  revert s2; induction s1 as [|c1 r1 IH]; intros [|c2 r2]; simpl.
  - done.
  - pose proof (uchar_nonneg c2). destruct (Z.eqb_spec (uchar c2) 0); split; (done || lia).
  - pose proof (uchar_nonneg c1). destruct (Z.eqb_spec (uchar c1) 0); split; (done || lia).
  - destruct (Z.eqb_spec (uchar c1) (uchar c2)) as [E|NE].
    + rewrite <- E. destruct (Z.eqb_spec (uchar c1) 0); [done |].
      apply uchar_inj in E as ->. rewrite IH. split; [by intros -> | congruence].
    + destruct (Z.eqb_spec (uchar c1) 0), (Z.eqb_spec (uchar c2) 0);
        split; try done; try lia.
      intros [= -> ?]. done.
Qed.

Lemma c_str_idemp s : c_str (c_str s) = c_str s.
Proof.
  induction s as [|c r IH]; simpl; [done |].
  destruct (Z.eqb_spec (uchar c) 0) as [E|NE]; simpl; [done |].
  destruct (Z.eqb_spec (uchar c) 0); [done | by rewrite IH].
Qed.

Lemma strcmp_c_str_refl s : strcmp s (c_str s) = 0.
Proof. apply strcmp_0_iff. by rewrite c_str_idemp. Qed.

(** ** The primitive computations *)

Lemma bind_Done {A B} (m : M A) (k : A -> M B) s a s' :
  m s = Done a s' -> bind m k s = k a s'.
Proof. unfold bind. by intros ->. Qed.

Lemma bind_Stuck {A B} (m : M A) (k : A -> M B) s f :
  m s = Stuck f -> bind m k s = Stuck f.
Proof. unfold bind. by intros ->. Qed.

Lemma bind_ret {A B} (a : A) (k : A -> M B) s : bind (ret a) k s = k a s.
Proof. done. Qed.

Lemma bind_gets {A B} (f : State -> A) (k : A -> M B) s :
  bind (gets f) k s = k (f s) s.
Proof. done. Qed.

Lemma bind_modify {B} (f : State -> State) (k : unit -> M B) s :
  bind (modify f) k s = k tt (f s).
Proof. done. Qed.

Lemma bind_emit {B} (ev : Event) (k : unit -> M B) s :
  bind (emit ev) k s = k tt (log ev s).
Proof. done. Qed.

Lemma get_entry_Done s i e :
  entrypoints s !! i = Some e -> get_entry i s = Done e s.
Proof. unfold get_entry. by intros ->. Qed.

Lemma modify_entry_Done s i e f :
  entrypoints s !! i = Some e ->
  modify_entry i f s = Done tt (set_entrypoints (<[i := f e]> (entrypoints s)) s).
Proof. unfold modify_entry, bind, get_entry, modify. by intros ->. Qed.

Lemma lookup_set_entrypoints s i e :
  (i < length (entrypoints s))%nat ->
  entrypoints (set_entrypoints (<[i := e]> (entrypoints s)) s) !! i = Some e.
Proof. intros H. simpl. by apply list_lookup_insert_eq. Qed.

Lemma land_1_odd bits x :
  0 < bits -> Z.land (wrap_unsigned bits x) 1 = if Z.odd x then 1 else 0.
Proof.
  intros Hb. unfold wrap_unsigned.
  change 1 with (Z.ones 1) at 1. rewrite Z.land_ones by lia.
  change (2 ^ 1) with 2.
  rewrite Z.mod_mod_divide; [apply Zmod_odd |].
  exists (2 ^ (bits - 1)). rewrite Z.mul_comm, <- Z.pow_succ_r by lia. f_equal. lia.
Qed.

Lemma ptr_bits_pos arch : 0 < ptr_bits arch.
Proof. by destruct arch. Qed.

Lemma SetDispatchFuncPointer_Done arch s entry e dispatch :
  entrypoints s !! entry = Some e ->
  (arch = USE_ARMV7_ASM -> Z.odd (entrypointExec e) = true) ->
  SetDispatchFuncPointer arch entry dispatch s = Done tt (patched arch e dispatch s).
Proof.
  intros He Hodd. unfold SetDispatchFuncPointer, bind.
  rewrite (get_entry_Done _ _ _ He).
  unfold patched, flush_events, dispatch_bytes, write_bytes, modify, set_mem.
  destruct arch; simpl.
  - by rewrite app_nil_r.
  - by rewrite app_nil_r.
  - unfold assert_. change 32 with (ptr_bits USE_ARMV7_ASM) at 2.
    rewrite land_1_odd by done. rewrite Hodd by done. simpl. done.
Qed.

Lemma SetDispatchFuncPointer_armv7_assert s entry e dispatch :
  entrypoints s !! entry = Some e ->
  Z.odd (entrypointExec e) = false ->
  SetDispatchFuncPointer USE_ARMV7_ASM entry dispatch s = Stuck AssertFail.
Proof.
  intros He Hodd. unfold SetDispatchFuncPointer.
  rewrite (bind_Done _ _ _ _ _ (get_entry_Done _ _ _ He)).
  unfold write_bytes. rewrite bind_modify.
  apply bind_Stuck. rewrite land_1_odd by done. by rewrite Hodd.
Qed.

Lemma SetDispatchFuncPointer_cases arch s entry e dispatch :
  entrypoints s !! entry = Some e ->
  SetDispatchFuncPointer arch entry dispatch s = Done tt (patched arch e dispatch s) \/
  SetDispatchFuncPointer arch entry dispatch s = Stuck AssertFail.
Proof.
  intros He. destruct (Z.odd (entrypointExec e)) eqn:Hodd.
  - left. by apply SetDispatchFuncPointer_Done.
  - destruct (decide (arch = USE_ARMV7_ASM)) as [-> | Hne].
    + right. by apply (SetDispatchFuncPointer_armv7_assert s entry e).
    + left. by apply SetDispatchFuncPointer_Done.
Qed.

(** [GenerateEntrypointFunc] up to its last statement. *)
Lemma GenerateEntrypointFunc_unfold arch DefaultDispatchFunc s entry index e :
  entrypoints s !! entry = Some e ->
  GenerateEntrypointFunc arch DefaultDispatchFunc entry index s =
    SetDispatchFuncPointer arch entry DefaultDispatchFunc
      (templated arch entry index e s).
Proof.
  intros He.
  assert (entry < length (entrypoints s))%nat as Hlt by by eapply lookup_lt_Some.
  unfold GenerateEntrypointFunc. rewrite bind_gets.
  erewrite bind_Done by (by apply modify_entry_Done).
  rewrite bind_gets.
  erewrite bind_Done
    by (apply modify_entry_Done; by apply lookup_set_entrypoints).
  replace (assert_ (sizeof_STUB_TEMPLATE arch <=? STUB_ENTRY_SIZE))
    with (ret (A:=unit) tt) by (by destruct arch).
  rewrite bind_ret.
  erewrite bind_Done; cycle 1.
  { apply get_entry_Done. simpl. rewrite list_insert_insert_eq.
    by apply list_lookup_insert_eq. }
  unfold write_bytes. rewrite bind_modify.
  simpl. rewrite list_insert_insert_eq.
  unfold templated, generated_entry.
  destruct arch; simpl.
  - rewrite bind_ret. by rewrite !Z.add_0_r.
  - rewrite bind_ret. by rewrite !Z.add_0_r.
  - erewrite bind_Done; cycle 1.
    { apply modify_entry_Done. simpl. by apply list_lookup_insert_eq. }
    simpl. by rewrite list_insert_insert_eq.
Qed.

Lemma lookup_templated arch s entry index e :
  entrypoints s !! entry = Some e ->
  entrypoints (templated arch entry index e s) !! entry =
    Some (generated_entry arch s index e).
Proof.
  intros He. unfold templated. cbn [entrypoints].
  apply list_lookup_insert_eq. by eapply lookup_lt_Some.
Qed.

Lemma GenerateEntrypointFunc_Done arch DefaultDispatchFunc s entry index e :
  entrypoints s !! entry = Some e ->
  (arch = USE_ARMV7_ASM ->
   Z.even (entrypointBufferExec s + Z.of_nat index * STUB_ENTRY_SIZE) = true) ->
  GenerateEntrypointFunc arch DefaultDispatchFunc entry index s =
    Done tt (generated arch DefaultDispatchFunc entry index e s).
Proof.
  intros He Heven. rewrite (GenerateEntrypointFunc_unfold _ _ _ _ _ _ He).
  apply SetDispatchFuncPointer_Done; [by apply lookup_templated |].
  intros ->. unfold generated_entry. cbn [entrypointExec thumb_bit].
  rewrite Z.odd_add, <- Z.negb_even, Heven; done.
Qed.

Lemma GenerateEntrypointFunc_cases arch DefaultDispatchFunc s entry index e :
  entrypoints s !! entry = Some e ->
  GenerateEntrypointFunc arch DefaultDispatchFunc entry index s =
    Done tt (generated arch DefaultDispatchFunc entry index e s) \/
  GenerateEntrypointFunc arch DefaultDispatchFunc entry index s =
    Stuck AssertFail.
Proof.
  intros He. rewrite (GenerateEntrypointFunc_unfold _ _ _ _ _ _ He).
  apply SetDispatchFuncPointer_cases. by apply lookup_templated.
Qed.

(** ** The scan for a name *)

Lemma find_entrypoint_Done n i name s :
  (i + n <= length (entrypoints s))%nat ->
  (forall e, e ∈ take n (drop i (entrypoints s)) -> procName e <> None) ->
  find_entrypoint n i name s =
    Done (first_match name (take n (drop i (entrypoints s)))) s.
Proof.
  revert i; induction n as [|n IH]; intros i Hlen Hnames; [done |].
  destruct (lookup_lt_is_Some_2 (entrypoints s) i) as [e He]; [lia |].
  rewrite (drop_S _ _ _ He) in Hnames |- *.
  cbn [find_entrypoint take first_match]. unfold bind.
  rewrite (get_entry_Done _ _ _ He).
  destruct (procName e) as [n0|] eqn:En.
  - cbn [strcmp_ptr]. unfold ret at 1.
    destruct (strcmp name n0 =? 0); [done |].
    apply IH; [lia |]. intros e' He'. apply Hnames. by right.
  - exfalso. apply (Hnames e); [by left | done].
Qed.

Lemma first_match_app_Some name l1 l2 p :
  first_match name l1 = Some p -> first_match name (l1 ++ l2) = Some p.
Proof.
  induction l1 as [|e l1 IH]; [done |]. simpl.
  destruct (procName e) as [n|]; [| done].
  by destruct (strcmp name n =? 0).
Qed.

Lemma first_match_app_None name l1 l2 :
  first_match name l1 = None ->
  first_match name (l1 ++ l2) = first_match name l2.
Proof.
  induction l1 as [|e l1 IH]; [done |]. simpl.
  destruct (procName e) as [n|]; [| done].
  by destruct (strcmp name n =? 0).
Qed.

(** What [first_match] finds: the first record whose name has exactly the
    bytes of [name], and no record before it has them. *)
Lemma first_match_Some name l p :
  first_match name l = Some p <->
  exists i e, l !! i = Some e /\ same_name name e /\ entrypointExec e = p /\
    forall j e', (j < i)%nat -> l !! j = Some e' -> ~ same_name name e'.
Proof.
  revert p; induction l as [|e l IH]; intros p; simpl.
  - split; [done | by intros (i & e & ? & _)].
  - assert (forall q, first_match name l = Some q ->
              ~ same_name name e ->
              exists i e0, (e :: l) !! i = Some e0 /\ same_name name e0 /\
                entrypointExec e0 = q /\
                forall j e', (j < i)%nat -> (e :: l) !! j = Some e' ->
                  ~ same_name name e') as Hshift.
    { intros q (i & e0 & Hi & Hn & Hp & Hmin)%IH Hne.
      exists (S i), e0. repeat split; try done.
      intros [|j] e' Hj; simpl; [by intros [= <-] |].
      apply Hmin. lia. }
    assert (~ same_name name e ->
            (exists i e0, (e :: l) !! i = Some e0 /\ same_name name e0 /\
               entrypointExec e0 = p /\
               forall j e', (j < i)%nat -> (e :: l) !! j = Some e' ->
                 ~ same_name name e') ->
            first_match name l = Some p) as Hunshift.
    { intros Hne (i & e0 & Hi & Hn & Hp & Hmin).
      destruct i as [|i]; [simpl in Hi; by injection Hi as <- |].
      apply IH. exists i, e0. repeat split; try done.
      intros j e' Hj Hl. apply (Hmin (S j)); [lia | done]. }
    destruct (procName e) as [n|] eqn:En.
    + destruct (Z.eqb_spec (strcmp name n) 0) as [E0|NE0].
      * apply strcmp_0_iff in E0.
        assert (same_name name e) as Hsame by (by exists n).
        split.
        -- intros [= <-]. exists 0%nat, e. repeat split; try done. lia.
        -- intros (i & e0 & Hi & Hn & Hp & Hmin).
           destruct i as [|i]; [simpl in Hi; congruence |].
           destruct (Hmin 0%nat e); [lia | done | done].
      * assert (~ same_name name e) as Hne.
        { intros (n' & Hn' & Hc). rewrite En in Hn'. injection Hn' as <-.
          apply NE0, strcmp_0_iff. done. }
        split; [intros H; by apply Hshift | by apply Hunshift].
    + assert (~ same_name name e) as Hne.
      { intros (n' & Hn' & _). by rewrite En in Hn'. }
      split; [intros H; by apply Hshift | by apply Hunshift].
Qed.

Lemma first_match_None name l :
  first_match name l = None <-> forall e, e ∈ l -> ~ same_name name e.
Proof.
  induction l as [|e l IH]; simpl.
  - split; [by intros _ e ?%elem_of_nil | done].
  - destruct (procName e) as [n|] eqn:En.
    + destruct (Z.eqb_spec (strcmp name n) 0) as [E0|NE0].
      * split; [done |]. intros H. exfalso. apply (H e); [by left |].
        exists n. split; [done |]. by apply strcmp_0_iff.
      * rewrite IH. split.
        -- intros H e' [-> | He']%elem_of_cons; [| by apply H].
           intros (n' & Hn' & Hc). rewrite En in Hn'. injection Hn' as <-.
           apply NE0, strcmp_0_iff. done.
        -- intros H e' He'. apply H. by right.
    + rewrite IH. split.
      * intros H e' [-> | He']%elem_of_cons; [| by apply H].
        intros (n' & Hn' & _). by rewrite En in Hn'.
      * intros H e' He'. apply H. by right.
Qed.

(** ** The cases of [glvndGenerateEntrypoint] *)

Lemma live_names_take s :
  (forall e, e ∈ live s -> procName e <> None) ->
  forall e, e ∈ take (entrypointCount s) (drop 0 (entrypoints s)) ->
            procName e <> None.
Proof. done. Qed.

Lemma InitEntrypoints_initialised os_alloc s :
  entrypointBufferExec s <> NULL ->
  InitEntrypoints os_alloc s = Done 0 s.
Proof.
  intros H. unfold InitEntrypoints, bind, gets.
  by destruct (Z.eqb_spec (entrypointBufferExec s) NULL).
Qed.

Lemma InitEntrypoints_fail s :
  entrypointBufferExec s = NULL ->
  InitEntrypoints None s = Done (-1) (log (alloc_event None) s).
Proof. intros H. unfold InitEntrypoints, bind, gets. by rewrite H. Qed.

Lemma InitEntrypoints_alloc writeBuf execBuf s :
  entrypointBufferExec s = NULL ->
  InitEntrypoints (Some (writeBuf, execBuf)) s =
    Done 0 (set_buffers writeBuf execBuf
              (log (alloc_event (Some (writeBuf, execBuf))) s)).
Proof. intros H. unfold InitEntrypoints, bind, gets. by rewrite H. Qed.

Lemma generate_alloc_fail arch ddf os_strdup name s :
  entrypointBufferExec s = NULL ->
  glvndGenerateEntrypoint arch ddf None os_strdup name s =
    Done NULL (log (alloc_event None) s).
Proof.
  intros H. unfold glvndGenerateEntrypoint, bind.
  by rewrite InitEntrypoints_fail.
Qed.

Lemma generate_alloc arch ddf writeBuf execBuf os_strdup name s :
  entrypointBufferExec s = NULL -> execBuf <> NULL ->
  glvndGenerateEntrypoint arch ddf (Some (writeBuf, execBuf)) os_strdup name s =
  glvndGenerateEntrypoint arch ddf (Some (writeBuf, execBuf)) os_strdup name
    (set_buffers writeBuf execBuf
       (log (alloc_event (Some (writeBuf, execBuf))) s)).
Proof.
  intros H Hne. unfold glvndGenerateEntrypoint.
  rewrite (bind_Done _ _ s _ _ (InitEntrypoints_alloc writeBuf execBuf s H)).
  by erewrite (bind_Done _ _ (set_buffers _ _ _)) by by apply InitEntrypoints_initialised.
Qed.

Section GenerateCases.

Context (arch : Arch) (ddf : Z) (os_alloc : option (Z * Z)) (name : string).

(** [s0] is the state of the call, [s] the one [InitEntrypoints] leaves. *)
Context (s0 s : State).
Hypothesis Hinit : InitEntrypoints os_alloc s0 = Done 0 s.
Hypothesis Hcount : (entrypointCount s <= length (entrypoints s))%nat.
Hypothesis Hnames : forall e, e ∈ live s -> procName e <> None.

Lemma generate_scan_from os_strdup :
  glvndGenerateEntrypoint arch ddf os_alloc os_strdup name s0 =
  match first_match name (live s) with
  | Some stub => Done stub s
  | None =>
      if (entrypointCount s <? GENERATED_ENTRYPOINT_MAX)%nat then
        (let! _ := emit (EvStrdup name os_strdup) in
         let! _ := modify_entry (entrypointCount s)
                     (set_procName
                        (if os_strdup then Some (c_str name) else None)) in
         let! e := get_entry (entrypointCount s) in
         match procName e with
         | None => ret NULL
         | Some _ =>
             let! _ := modify_entry (entrypointCount s) (set_assigned 0) in
             let! count := gets entrypointCount in
             let! _ := GenerateEntrypointFunc arch ddf (entrypointCount s) count in
             let! _ := modify (fun s =>
                         set_entrypointCount (S (entrypointCount s)) s) in
             let! e := get_entry (entrypointCount s) in
             ret (entrypointExec e)
         end) s
      else Done NULL s
  end.
Proof.
  unfold glvndGenerateEntrypoint. rewrite (bind_Done _ _ _ _ _ Hinit).
  cbn [Z.eqb negb]. rewrite bind_gets.
  erewrite bind_Done;
    [| apply find_entrypoint_Done; [lia | by apply live_names_take]].
  rewrite drop_0. fold (live s).
  destruct (first_match name (live s)); [done |].
  rewrite bind_gets.
  by destruct (entrypointCount s <? GENERATED_ENTRYPOINT_MAX)%nat.
Qed.

Lemma generate_found_from os_strdup stub :
  first_match name (live s) = Some stub ->
  glvndGenerateEntrypoint arch ddf os_alloc os_strdup name s0 = Done stub s.
Proof. intros H. by rewrite generate_scan_from, H. Qed.

Lemma generate_full_from os_strdup :
  first_match name (live s) = None ->
  (GENERATED_ENTRYPOINT_MAX <= entrypointCount s)%nat ->
  glvndGenerateEntrypoint arch ddf os_alloc os_strdup name s0 = Done NULL s.
Proof.
  intros H Hfull. rewrite generate_scan_from, H.
  by destruct (Nat.ltb_spec (entrypointCount s) GENERATED_ENTRYPOINT_MAX); [lia |].
Qed.

Lemma generate_strdup_fail_from e :
  first_match name (live s) = None ->
  (entrypointCount s < GENERATED_ENTRYPOINT_MAX)%nat ->
  entrypoints s !! entrypointCount s = Some e ->
  glvndGenerateEntrypoint arch ddf os_alloc false name s0 =
    Done NULL
      (set_entrypoints (<[entrypointCount s := set_procName None e]> (entrypoints s))
         (log (EvStrdup name false) s)).
Proof.
  intros H Hlt He. rewrite generate_scan_from, H.
  destruct (Nat.ltb_spec (entrypointCount s) GENERATED_ENTRYPOINT_MAX); [| lia].
  assert (entrypointCount s < length (entrypoints s))%nat
    by by eapply lookup_lt_Some.
  rewrite bind_emit.
  erewrite bind_Done by (apply modify_entry_Done; simpl; done).
  erewrite bind_Done; cycle 1.
  { apply get_entry_Done. simpl. by apply list_lookup_insert_eq. }
  done.
Qed.

(** The insert path up to the call of [GenerateEntrypointFunc]. *)
Lemma generate_insert_unfold e :
  first_match name (live s) = None ->
  (entrypointCount s < GENERATED_ENTRYPOINT_MAX)%nat ->
  entrypoints s !! entrypointCount s = Some e ->
  glvndGenerateEntrypoint arch ddf os_alloc true name s0 =
    (let! _ := GenerateEntrypointFunc arch ddf (entrypointCount s)
                 (entrypointCount s) in
     let! _ := modify (fun s => set_entrypointCount (S (entrypointCount s)) s) in
     let! e := get_entry (entrypointCount s) in
     ret (entrypointExec e))
      (set_entrypoints
         (<[entrypointCount s :=
              set_assigned 0 (set_procName (Some (c_str name)) e)]>
            (entrypoints s))
         (log (EvStrdup name true) s)).
Proof.
  intros H Hlt He. rewrite generate_scan_from, H.
  destruct (Nat.ltb_spec (entrypointCount s) GENERATED_ENTRYPOINT_MAX); [| lia].
  assert (entrypointCount s < length (entrypoints s))%nat
    by by eapply lookup_lt_Some.
  rewrite bind_emit.
  erewrite bind_Done by (apply modify_entry_Done; simpl; done).
  erewrite bind_Done; cycle 1.
  { apply get_entry_Done. simpl. by apply list_lookup_insert_eq. }
  cbn [procName set_procName].
  erewrite bind_Done; cycle 1.
  { apply modify_entry_Done. simpl. by apply list_lookup_insert_eq. }
  rewrite bind_gets. simpl. by rewrite list_insert_insert_eq.
Qed.

(** The insert path after [GenerateEntrypointFunc] has returned. *)
Lemma generate_insert_tail e :
  entrypoints s !! entrypointCount s = Some e ->
  let e_pre := set_assigned 0 (set_procName (Some (c_str name)) e) in
  let s_pre :=
    set_entrypoints (<[entrypointCount s := e_pre]> (entrypoints s))
      (log (EvStrdup name true) s) in
  (let! _ := modify (fun s => set_entrypointCount (S (entrypointCount s)) s) in
   let! e := get_entry (entrypointCount s) in
   ret (entrypointExec e))
    (generated arch ddf (entrypointCount s) (entrypointCount s) e_pre s_pre) =
  Done (entrypointExec (new_entry arch s (entrypointCount s) name))
       (inserted arch ddf name s).
Proof.
  intros He e_pre s_pre.
  assert (entrypointCount s < length (entrypoints s))%nat
    by by eapply lookup_lt_Some.
  rewrite bind_modify.
  erewrite bind_Done; cycle 1.
  { apply get_entry_Done. simpl. rewrite list_insert_insert_eq.
    by apply list_lookup_insert_eq. }
  unfold ret. f_equal.
  unfold inserted, generated, templated, patched, generated_entry, new_entry; simpl.
  by rewrite !list_insert_insert_eq.
Qed.

Lemma generate_insert_from e :
  first_match name (live s) = None ->
  (entrypointCount s < GENERATED_ENTRYPOINT_MAX)%nat ->
  entrypoints s !! entrypointCount s = Some e ->
  (arch = USE_ARMV7_ASM ->
   Z.even (entrypointBufferExec s) = true) ->
  glvndGenerateEntrypoint arch ddf os_alloc true name s0 =
    Done (entrypointExec (new_entry arch s (entrypointCount s) name))
         (inserted arch ddf name s).
Proof.
  intros H Hlt He Heven. rewrite (generate_insert_unfold e) by done.
  assert (entrypointCount s < length (entrypoints s))%nat
    by by eapply lookup_lt_Some.
  erewrite bind_Done; cycle 1.
  { apply GenerateEntrypointFunc_Done.
    - simpl. by apply list_lookup_insert_eq.
    - intros Ha. simpl. rewrite Z.even_add, Heven by done.
      unfold STUB_ENTRY_SIZE. rewrite Z.even_mul. simpl. by rewrite orb_true_r. }
  by apply generate_insert_tail.
Qed.

Lemma generate_insert_cases e :
  first_match name (live s) = None ->
  (entrypointCount s < GENERATED_ENTRYPOINT_MAX)%nat ->
  entrypoints s !! entrypointCount s = Some e ->
  glvndGenerateEntrypoint arch ddf os_alloc true name s0 =
    Done (entrypointExec (new_entry arch s (entrypointCount s) name))
         (inserted arch ddf name s) \/
  glvndGenerateEntrypoint arch ddf os_alloc true name s0 = Stuck AssertFail.
Proof.
  intros H Hlt He. rewrite (generate_insert_unfold e) by done.
  assert (entrypointCount s < length (entrypoints s))%nat
    by by eapply lookup_lt_Some.
  edestruct GenerateEntrypointFunc_cases as [Hd | Hs]; cycle 1.
  - left. rewrite (bind_Done _ _ _ _ _ Hd). by apply generate_insert_tail.
  - right. by rewrite (bind_Stuck _ _ _ _ Hs).
  - simpl. by apply list_lookup_insert_eq.
Qed.

End GenerateCases.

Section GenerateInitialised.

Context (arch : Arch) (ddf : Z) (os_alloc : option (Z * Z)) (name : string).
Context (s : State).
Hypothesis Hinit : entrypointBufferExec s <> NULL.
Hypothesis Hcount : (entrypointCount s <= length (entrypoints s))%nat.
Hypothesis Hnames : forall e, e ∈ live s -> procName e <> None.

Lemma generate_found os_strdup stub :
  first_match name (live s) = Some stub ->
  glvndGenerateEntrypoint arch ddf os_alloc os_strdup name s = Done stub s.
Proof.
  apply generate_found_from; try done. by apply InitEntrypoints_initialised.
Qed.

Lemma generate_full os_strdup :
  first_match name (live s) = None ->
  (GENERATED_ENTRYPOINT_MAX <= entrypointCount s)%nat ->
  glvndGenerateEntrypoint arch ddf os_alloc os_strdup name s = Done NULL s.
Proof.
  apply generate_full_from; try done. by apply InitEntrypoints_initialised.
Qed.

Lemma generate_strdup_fail e :
  first_match name (live s) = None ->
  (entrypointCount s < GENERATED_ENTRYPOINT_MAX)%nat ->
  entrypoints s !! entrypointCount s = Some e ->
  glvndGenerateEntrypoint arch ddf os_alloc false name s =
    Done NULL
      (set_entrypoints (<[entrypointCount s := set_procName None e]> (entrypoints s))
         (log (EvStrdup name false) s)).
Proof.
  apply generate_strdup_fail_from; try done.
  by apply InitEntrypoints_initialised.
Qed.

Lemma generate_insert e :
  first_match name (live s) = None ->
  (entrypointCount s < GENERATED_ENTRYPOINT_MAX)%nat ->
  entrypoints s !! entrypointCount s = Some e ->
  (arch = USE_ARMV7_ASM ->
   Z.even (entrypointBufferExec s) = true) ->
  glvndGenerateEntrypoint arch ddf os_alloc true name s =
    Done (entrypointExec (new_entry arch s (entrypointCount s) name))
         (inserted arch ddf name s).
Proof.
  apply generate_insert_from; try done. by apply InitEntrypoints_initialised.
Qed.

End GenerateInitialised.

(** ** The invariant *)

Lemma pages_ok_even writeBuf execBuf :
  pages_ok writeBuf execBuf -> Z.even execBuf = true.
Proof.
  intros (_ & _ & _ & H). unfold STUB_ENTRY_SIZE in H.
  apply Z.even_spec. exists (8 * (execBuf / 16)).
  pose proof (Z.div_mod execBuf 16). lia.
Qed.

Lemma pages_ok_nonnull writeBuf execBuf :
  pages_ok writeBuf execBuf -> writeBuf <> NULL /\ execBuf <> NULL.
Proof. unfold pages_ok, NULL. lia. Qed.

Lemma init_state_inv arch m : state_inv arch (init_state m).
Proof.
  split; unfold init_state;
    cbn [entrypoints entrypointCount entrypointBufferWrite entrypointBufferExec].
  - apply length_replicate.
  - lia.
  - intros i e Hi. lia.
  - intros i Hi. apply lookup_replicate_2. lia.
  - by left.
Qed.

Lemma inv_live_names arch s :
  state_inv arch s -> forall e, e ∈ live s -> procName e <> None.
Proof.
  intros Hinv e (i & Hi)%list_elem_of_lookup.
  unfold live in Hi. apply lookup_take_Some in Hi as [Hi Hlt].
  by apply (inv_live _ _ Hinv i e).
Qed.

Lemma inv_initialised arch s :
  state_inv arch s -> entrypointBufferExec s <> NULL ->
  pages_ok (entrypointBufferWrite s) (entrypointBufferExec s).
Proof. intros Hinv Hne. by destruct (inv_slab _ _ Hinv) as [(_ & ? & _) | ?]. Qed.

Lemma after_init_inv arch os_alloc s :
  state_inv arch s -> AllocExecPages_ok os_alloc ->
  state_inv arch (after_init os_alloc s).
Proof.
  intros Hinv Hok. unfold after_init.
  destruct (Z.eqb_spec (entrypointBufferExec s) NULL) as [E|NE]; [| done].
  destruct (inv_slab _ _ Hinv) as [(Hw & _ & Hc) | Hp];
    [| apply pages_ok_nonnull in Hp; tauto].
  destruct os_alloc as [[w e]|]; simpl in Hok.
  - split; simpl; try apply Hinv.
    + intros i e0 Hi. lia.
    + by right.
  - split; simpl; apply Hinv.
Qed.

Lemma after_init_count os_alloc s :
  entrypointCount (after_init os_alloc s) = entrypointCount s.
Proof.
  unfold after_init. destruct (_ =? _); [| done]. by destruct os_alloc as [[??]|].
Qed.

Lemma after_init_entrypoints os_alloc s :
  entrypoints (after_init os_alloc s) = entrypoints s.
Proof.
  unfold after_init. destruct (_ =? _); [| done]. by destruct os_alloc as [[??]|].
Qed.

Lemma after_init_live os_alloc s : live (after_init os_alloc s) = live s.
Proof. unfold live. by rewrite after_init_count, after_init_entrypoints. Qed.

Lemma generate_closed_form arch ddf os_alloc os_strdup name s :
  state_inv arch s -> AllocExecPages_ok os_alloc ->
  glvndGenerateEntrypoint arch ddf os_alloc os_strdup name s =
    Done (generate_result arch ddf os_alloc os_strdup name s).1
         (generate_result arch ddf os_alloc os_strdup name s).2.
Proof.
  intros Hinv Hok.
  pose proof (after_init_inv _ _ _ Hinv Hok) as Hinv1.
  assert (glvndGenerateEntrypoint arch ddf os_alloc os_strdup name s =
          if entrypointBufferExec (after_init os_alloc s) =? NULL
          then Done NULL (after_init os_alloc s)
          else glvndGenerateEntrypoint arch ddf os_alloc os_strdup name
                 (after_init os_alloc s)) as ->.
  { unfold after_init.
    destruct (Z.eqb_spec (entrypointBufferExec s) NULL) as [E|NE].
    - destruct os_alloc as [[w e]|]; simpl in Hok.
      + apply pages_ok_nonnull in Hok as [_ He]. simpl.
        destruct (Z.eqb_spec e NULL); [done |]. by apply generate_alloc.
      + simpl. rewrite E. simpl. by apply generate_alloc_fail.
    - by destruct (Z.eqb_spec (entrypointBufferExec s) NULL). }
  unfold generate_result.
  set (s1 := after_init os_alloc s) in *.
  destruct (Z.eqb_spec (entrypointBufferExec s1) NULL) as [E|NE]; [done |].
  assert (entrypointCount s1 <= length (entrypoints s1))%nat as Hlen.
  { rewrite (inv_length _ _ Hinv1). apply Hinv1. }
  pose proof (inv_live_names _ _ Hinv1) as Hnames.
  destruct (first_match name (live s1)) as [stub|] eqn:Ef.
  { by apply generate_found. }
  destruct (Nat.ltb_spec (entrypointCount s1) GENERATED_ENTRYPOINT_MAX) as [Hlt|Hge];
    [| by apply generate_full].
  pose proof (inv_unused _ _ Hinv1 (entrypointCount s1) ltac:(lia)) as Hz.
  destruct os_strdup.
  - apply (generate_insert _ _ _ _ _ NE Hlen Hnames _ Ef Hlt Hz).
    intros _. eapply pages_ok_even, inv_initialised; done.
  - rewrite (generate_strdup_fail _ _ _ _ _ NE Hlen Hnames _ Ef Hlt Hz).
    simpl. f_equal. unfold set_entrypoints, log; simpl. f_equal.
    by apply list_insert_id.
Qed.

(** ** Loops over the table *)

Lemma set_entrypoints_id s : set_entrypoints (entrypoints s) s = s.
Proof. by destruct s. Qed.

Lemma set_entrypoints_twice l1 l2 s :
  set_entrypoints l1 (set_entrypoints l2 s) = set_entrypoints l1 s.
Proof. done. Qed.

Lemma loop_result_O f g i s : loop_result f g 0 i s = s.
Proof.
  unfold loop_result. simpl.
  rewrite Nat.add_0_r, take_drop. apply set_entrypoints_id.
Qed.

Lemma foldl_set_entrypoints (g : GLVNDGenEntrypoint -> State -> State) l es s :
  (forall e l s, g e (set_entrypoints l s) = set_entrypoints l (g e s)) ->
  foldl (fun s e => g e s) (set_entrypoints l s) es =
  set_entrypoints l (foldl (fun s e => g e s) s es).
Proof.
  intros Hg. revert s; induction es as [|e es IH]; intros s; simpl; [done |].
  by rewrite Hg, IH.
Qed.

(** One more turn of the loop, at the front. *)
Lemma loop_result_S f g n i e s :
  (forall e l s, g e (set_entrypoints l s) = set_entrypoints l (g e s)) ->
  entrypoints s !! i = Some e ->
  loop_result f g n (S i)
    (set_entrypoints (<[i := f e]> (entrypoints s)) (g e s)) =
  loop_result f g (S n) i s.
Proof.
  intros Hg He.
  assert (i < length (entrypoints s))%nat as Hi by by eapply lookup_lt_Some.
  unfold loop_result. cbn [entrypoints set_entrypoints].
  rewrite (drop_S _ _ _ He).
  rewrite drop_insert_lt by lia. rewrite drop_insert_lt by lia.
  erewrite take_S_r by (by apply list_lookup_insert_eq).
  rewrite take_insert_ge by lia.
  rewrite foldl_set_entrypoints by done.
  cbn [take foldl fmap list_fmap]. unfold set_entrypoints. cbn.
  f_equal. rewrite <- app_assoc. cbn.
  by replace (i + S n)%nat with (S (i + n)) by lia.
Qed.

(** A loop whose body rewrites the record of its index with [f] and the
    rest of the state with [g] maps [f] over the records of its range and
    folds [g] over them, unless the body fails an assertion on the way. *)
Section ForLoop.

Context (body : nat -> M unit).
Context (f : GLVNDGenEntrypoint -> GLVNDGenEntrypoint).
Context (g : GLVNDGenEntrypoint -> State -> State).
Context (P : GLVNDGenEntrypoint -> Prop).

Hypothesis body_Done : forall i e s,
  entrypoints s !! i = Some e -> P e ->
  body i s = Done tt (set_entrypoints (<[i := f e]> (entrypoints s)) (g e s)).
Hypothesis body_cases : forall i e s,
  entrypoints s !! i = Some e ->
  body i s = Done tt (set_entrypoints (<[i := f e]> (entrypoints s)) (g e s)) \/
  body i s = Stuck AssertFail.
Hypothesis g_entrypoints : forall e l s,
  g e (set_entrypoints l s) = set_entrypoints l (g e s).

Lemma for_loop_Done n : forall i s,
  (i + n <= length (entrypoints s))%nat ->
  Forall P (take n (drop i (entrypoints s))) ->
  for_loop n i body s = Done tt (loop_result f g n i s).
Proof.
  induction n as [|n IH]; intros i s Hlen HP.
  - by rewrite loop_result_O.
  - destruct (lookup_lt_is_Some_2 (entrypoints s) i) as [e He]; [lia |].
    rewrite (drop_S _ _ _ He) in HP.
    cbn [take] in HP. apply Forall_cons in HP as [HPe HP].
    cbn [for_loop]. rewrite (bind_Done _ _ _ _ _ (body_Done _ _ _ He HPe)).
    rewrite IH; cbn [entrypoints set_entrypoints].
    + by rewrite loop_result_S.
    + rewrite length_insert. lia.
    + by rewrite drop_insert_lt by lia.
Qed.

Lemma for_loop_cases n : forall i s,
  (i + n <= length (entrypoints s))%nat ->
  for_loop n i body s = Done tt (loop_result f g n i s) \/
  for_loop n i body s = Stuck AssertFail.
Proof.
  induction n as [|n IH]; intros i s Hlen.
  - left. by rewrite loop_result_O.
  - destruct (lookup_lt_is_Some_2 (entrypoints s) i) as [e He]; [lia |].
    cbn [for_loop].
    destruct (body_cases _ _ _ He) as [Hd | Hs].
    + rewrite (bind_Done _ _ _ _ _ Hd).
      rewrite <- (loop_result_S f g n i e s) by done.
      apply IH. cbn [entrypoints set_entrypoints]. rewrite length_insert. lia.
    + right. by apply bind_Stuck.
Qed.

End ForLoop.

(** ** [glvndFreeEntrypoints] *)

Lemma free_entrypoint_Done i e s :
  entrypoints s !! i = Some e ->
  free_entrypoint i s =
    Done tt (set_entrypoints (<[i := zero_entrypoint]> (entrypoints s))
               (log (EvFree (procName e)) s)).
Proof.
  intros He. assert (i < length (entrypoints s))%nat by by eapply lookup_lt_Some.
  unfold free_entrypoint.
  rewrite (bind_Done _ _ _ _ _ (get_entry_Done _ _ _ He)).
  rewrite bind_emit.
  erewrite bind_Done by (by apply modify_entry_Done).
  erewrite bind_Done
    by (apply modify_entry_Done; simpl; by apply list_lookup_insert_eq).
  erewrite bind_Done; cycle 1.
  { apply modify_entry_Done; simpl. rewrite list_insert_insert_eq.
    by apply list_lookup_insert_eq. }
  erewrite modify_entry_Done; cycle 1.
  { simpl. rewrite !list_insert_insert_eq. by apply list_lookup_insert_eq. }
  simpl. by rewrite !list_insert_insert_eq.
Qed.

Lemma foldl_log (h : GLVNDGenEntrypoint -> Event) es s :
  foldl (fun s e => log (h e) s) s es =
  mkState (entrypoints s) (entrypointBufferWrite s) (entrypointBufferExec s)
    (entrypointCount s) (mem s) (trace s ++ (h <$> es)).
Proof.
  revert s; induction es as [|e es IH]; intros s; simpl.
  - rewrite app_nil_r. by destruct s.
  - rewrite IH. simpl. by rewrite <- app_assoc.
Qed.

Lemma fmap_const_replicate {A B} (b : B) (l : list A) :
  (fun _ => b) <$> l = replicate (length l) b.
Proof. induction l as [|a l IH]; [done |]. cbn. f_equal. apply IH. Qed.

Lemma free_closed_form s :
  (entrypointCount s <= length (entrypoints s))%nat ->
  glvndFreeEntrypoints s = Done tt (freed s).
Proof.
  intros Hlen. unfold glvndFreeEntrypoints.
  rewrite bind_gets.
  erewrite bind_Done; cycle 1.
  { apply (for_loop_Done free_entrypoint (fun _ => zero_entrypoint)
             (fun e => log (EvFree (procName e))) (fun _ => True)).
    - intros i e s0 He _. by apply free_entrypoint_Done.
    - done.
    - simpl. lia.
    - by apply Forall_true. }
  unfold loop_result.
  rewrite drop_0, take_0, foldl_log, fmap_const_replicate.
  rewrite length_take_le by done. simpl.
  unfold bind, modify, gets; simpl. unfold freed, live.
  destruct (Z.eqb_spec (entrypointBufferExec s) NULL); simpl; done.
Qed.

Lemma free_pristine s :
  entrypointCount s = 0%nat -> entrypointBufferExec s = NULL ->
  glvndFreeEntrypoints s = Done tt s.
Proof.
  intros Hc He. rewrite free_closed_form by lia.
  unfold freed, live. rewrite Hc, He. simpl. rewrite drop_0, app_nil_r.
  destruct s; simpl in *; by subst.
Qed.

(** ** [glvndUpdateEntrypoints] *)

Lemma update_entrypoint_Done arch callback param i e s :
  entrypoints s !! i = Some e ->
  (arch = USE_ARMV7_ASM -> Z.odd (entrypointExec e) = true) ->
  update_entrypoint arch callback param i s =
    Done tt (set_entrypoints (<[i := update_record callback param e]> (entrypoints s))
               (update_step arch callback param e s)).
Proof.
  intros He Hodd. unfold update_entrypoint, update_record, update_step, resolved.
  rewrite (bind_Done _ _ _ _ _ (get_entry_Done _ _ _ He)).
  destruct (assigned e =? 0); simpl.
  - rewrite bind_emit.
    destruct (callback (procName e) param =? NULL); simpl.
    + unfold ret. f_equal. rewrite list_insert_id by done.
      unfold set_entrypoints, log. by simpl.
    + erewrite bind_Done by (by apply SetDispatchFuncPointer_Done).
      by erewrite modify_entry_Done by done.
  - unfold ret. f_equal. rewrite list_insert_id by done.
    by rewrite set_entrypoints_id.
Qed.

Lemma update_step_set_entrypoints arch callback param e l s :
  update_step arch callback param e (set_entrypoints l s) =
  set_entrypoints l (update_step arch callback param e s).
Proof.
  unfold update_step. destruct (assigned e =? 0); [| done].
  by destruct (negb _).
Qed.

Lemma inv_live_odd arch s :
  state_inv arch s ->
  Forall (fun e => arch = USE_ARMV7_ASM -> Z.odd (entrypointExec e) = true) (live s).
Proof.
  intros Hinv. apply Forall_forall. intros e (i & Hi)%list_elem_of_lookup ->.
  unfold live in Hi. apply lookup_take_Some in Hi as [Hi Hlt].
  destruct (inv_live _ _ Hinv i e Hlt Hi) as (_ & _ & ->).
  destruct (inv_slab _ _ Hinv) as [(_ & _ & Hc) | Hp]; [lia |].
  apply pages_ok_even in Hp. unfold STUB_ENTRY_SIZE. simpl.
  rewrite !Z.odd_add, Z.odd_mul, <- Z.negb_even, Hp. simpl.
  by rewrite andb_false_r.
Qed.

Lemma update_closed_form arch callback param s :
  state_inv arch s ->
  glvndUpdateEntrypoints arch callback param s =
    Done tt (updated arch callback param s).
Proof.
  intros Hinv. unfold glvndUpdateEntrypoints.
  rewrite bind_gets.
  erewrite (for_loop_Done _ (update_record callback param)
              (update_step arch callback param)
              (fun e => arch = USE_ARMV7_ASM -> Z.odd (entrypointExec e) = true)).
  - unfold loop_result. by rewrite drop_0, take_0.
  - intros i e s0 He HP. by apply update_entrypoint_Done.
  - intros e l s0. apply update_step_set_entrypoints.
  - rewrite (inv_length _ _ Hinv). pose proof (inv_count _ _ Hinv). simpl. lia.
  - rewrite drop_0. by apply inv_live_odd.
Qed.

(** ** The invariant is kept *)

Lemma inserted_inv arch ddf name s :
  state_inv arch s -> entrypointBufferExec s <> NULL ->
  (entrypointCount s < GENERATED_ENTRYPOINT_MAX)%nat ->
  state_inv arch (inserted arch ddf name s).
Proof.
  intros Hinv Hne Hlt. pose proof (inv_length _ _ Hinv) as Hlen.
  split; unfold inserted;
    cbn [entrypoints entrypointCount entrypointBufferWrite entrypointBufferExec].
  - by rewrite length_insert.
  - lia.
  - intros i e Hi He.
    destruct (decide (i = entrypointCount s)) as [-> | Hic].
    + rewrite list_lookup_insert_eq in He by lia. by injection He as <-.
    + rewrite list_lookup_insert_ne in He by done.
      apply (inv_live _ _ Hinv); [lia | done].
  - intros i Hi. rewrite list_lookup_insert_ne by lia.
    apply (inv_unused _ _ Hinv). lia.
  - right. by apply (inv_initialised arch).
Qed.

Lemma generate_result_inv arch ddf os_alloc os_strdup name s :
  state_inv arch s -> AllocExecPages_ok os_alloc ->
  state_inv arch (generate_result arch ddf os_alloc os_strdup name s).2.
Proof.
  intros Hinv Hok. pose proof (after_init_inv _ _ _ Hinv Hok) as Hinv1.
  unfold generate_result. set (s1 := after_init os_alloc s) in *.
  destruct (Z.eqb_spec (entrypointBufferExec s1) NULL); [done |].
  destruct (first_match name (live s1)); [done |].
  destruct (Nat.ltb_spec (entrypointCount s1) GENERATED_ENTRYPOINT_MAX); [| done].
  destruct os_strdup; [by apply inserted_inv |].
  split; simpl; apply Hinv1.
Qed.

Lemma foldl_update_step_fields arch callback param es s :
  let s' := foldl (fun s e => update_step arch callback param e s) s es in
  entrypoints s' = entrypoints s /\
  entrypointBufferWrite s' = entrypointBufferWrite s /\
  entrypointBufferExec s' = entrypointBufferExec s /\
  entrypointCount s' = entrypointCount s.
Proof.
  revert s; induction es as [|e es IH]; intros s; simpl; [done |].
  destruct (IH (update_step arch callback param e s)) as (-> & -> & -> & ->).
  unfold update_step. destruct (assigned e =? 0); [| done].
  by destruct (negb _).
Qed.

Lemma updated_fields arch callback param s :
  entrypointBufferWrite (updated arch callback param s) = entrypointBufferWrite s /\
  entrypointBufferExec (updated arch callback param s) = entrypointBufferExec s /\
  entrypointCount (updated arch callback param s) = entrypointCount s.
Proof.
  unfold updated. simpl.
  by destruct (foldl_update_step_fields arch callback param (live s) s)
    as (_ & -> & -> & ->).
Qed.

Lemma updated_lookup arch callback param s i :
  (entrypointCount s <= length (entrypoints s))%nat ->
  entrypoints (updated arch callback param s) !! i =
    if decide (i < entrypointCount s)%nat
    then update_record callback param <$> entrypoints s !! i
    else entrypoints s !! i.
Proof.
  intros Hlen. unfold updated, live. simpl.
  case_decide as Hi.
  - rewrite lookup_app_l by (rewrite length_fmap, length_take; lia).
    by rewrite list_lookup_fmap, lookup_take_lt.
  - rewrite lookup_app_r by (rewrite length_fmap, length_take; lia).
    rewrite length_fmap, length_take_le, lookup_drop by done.
    f_equal. lia.
Qed.

Lemma updated_length arch callback param s :
  (entrypointCount s <= length (entrypoints s))%nat ->
  length (entrypoints (updated arch callback param s)) = length (entrypoints s).
Proof.
  intros Hlen. unfold updated, live. simpl.
  rewrite length_app, length_fmap, length_take, length_drop. lia.
Qed.

Lemma update_record_fields callback param e :
  procName (update_record callback param e) = procName e /\
  entrypointWrite (update_record callback param e) = entrypointWrite e /\
  entrypointExec (update_record callback param e) = entrypointExec e.
Proof. unfold update_record. by destruct (resolved _ _ _). Qed.

Lemma updated_inv arch callback param s :
  state_inv arch s -> state_inv arch (updated arch callback param s).
Proof.
  intros Hinv. pose proof (inv_length _ _ Hinv) as Hlen.
  pose proof (inv_count _ _ Hinv) as Hc.
  destruct (updated_fields arch callback param s) as (Hw & He & Hn).
  split; rewrite ?Hw, ?He, ?Hn.
  - rewrite updated_length by lia. done.
  - done.
  - intros i e Hi. rewrite updated_lookup by lia.
    rewrite decide_True by done.
    destruct (entrypoints s !! i) as [e0|] eqn:E0; [| done].
    intros [= <-].
    destruct (update_record_fields callback param e0) as (-> & -> & ->).
    by apply (inv_live _ _ Hinv).
  - intros i Hi. rewrite updated_lookup by lia.
    rewrite decide_False by lia. by apply (inv_unused _ _ Hinv).
  - apply Hinv.
Qed.

Lemma freed_entrypoints arch s :
  state_inv arch s ->
  entrypoints (freed s) = replicate GENERATED_ENTRYPOINT_MAX zero_entrypoint.
Proof.
  intros Hinv. pose proof (inv_length _ _ Hinv) as Hlen.
  pose proof (inv_count _ _ Hinv) as Hc.
  assert (entrypoints (freed s) =
          replicate (entrypointCount s) zero_entrypoint ++
          drop (entrypointCount s) (entrypoints s)) as ->.
  { unfold freed. by destruct (_ =? _). }
  apply list_eq. intros i.
  destruct (decide (i < entrypointCount s)%nat) as [Hi|Hi].
  - rewrite lookup_app_l by (rewrite length_replicate; lia).
    rewrite !lookup_replicate_2 by lia. done.
  - rewrite lookup_app_r by (rewrite length_replicate; lia).
    rewrite length_replicate, lookup_drop.
    replace (entrypointCount s + (i - entrypointCount s))%nat with i by lia.
    destruct (decide (i < GENERATED_ENTRYPOINT_MAX)%nat) as [Hm|Hm].
    + rewrite (inv_unused _ _ Hinv) by lia. by rewrite lookup_replicate_2.
    + rewrite lookup_ge_None_2 by lia. symmetry.
      apply lookup_replicate_None. lia.
Qed.

Lemma freed_fields s :
  entrypointCount (freed s) = 0%nat /\
  entrypointBufferExec (freed s) = NULL /\
  mem (freed s) = mem s /\
  (entrypointBufferExec s = NULL ->
   entrypointBufferWrite (freed s) = entrypointBufferWrite s) /\
  (entrypointBufferExec s <> NULL -> entrypointBufferWrite (freed s) = NULL).
Proof.
  unfold freed.
  destruct (Z.eqb_spec (entrypointBufferExec s) NULL); simpl; by repeat split.
Qed.

Lemma freed_inv arch s : state_inv arch s -> state_inv arch (freed s).
Proof.
  intros Hinv.
  destruct (freed_fields s) as (Hc & He & _ & Hw1 & Hw2).
  split; rewrite ?Hc, ?He.
  - rewrite (freed_entrypoints arch) by done. apply length_replicate.
  - lia.
  - intros i e Hi. lia.
  - intros i Hi. rewrite (freed_entrypoints arch) by done.
    apply lookup_replicate_2. lia.
  - left. repeat split.
    destruct (decide (entrypointBufferExec s = NULL)) as [E|NE].
    + rewrite Hw1 by done.
      destruct (inv_slab _ _ Hinv) as [(? & _) | Hp]; [done |].
      apply pages_ok_nonnull in Hp. tauto.
    + by apply Hw2.
Qed.

Lemma do_call_Done arch ddf c s :
  state_inv arch s -> call_ok c ->
  exists r s', do_call arch ddf c s = Done r s' /\ state_inv arch s'.
Proof.
  intros Hinv Hok. destruct c as [os_alloc os_strdup name | callback param |]; simpl.
  - rewrite generate_closed_form by done.
    eexists _, _. split; [done |]. by apply generate_result_inv.
  - erewrite bind_Done by (by apply update_closed_form).
    eexists _, _. split; [done |]. by apply updated_inv.
  - erewrite bind_Done; cycle 1.
    { apply free_closed_form. rewrite (inv_length _ _ Hinv). apply Hinv. }
    eexists _, _. split; [done |]. by apply freed_inv.
Qed.

Lemma reachable_inv arch ddf s : reachable arch ddf s -> state_inv arch s.
Proof.
  induction 1 as [m | s c r s' _ IH Hok Hcall]; [apply init_state_inv |].
  destruct (do_call_Done arch ddf c s IH Hok) as (r' & s'' & Hd & Hinv').
  rewrite Hd in Hcall. by injection Hcall as _ <-.
Qed.

(** ** Runs of calls *)

Lemma do_calls_cons arch ddf c cs s r s' :
  do_call arch ddf c s = Done r s' ->
  do_calls arch ddf (c :: cs) s =
    match do_calls arch ddf cs s' with
    | Done rs s'' => Done (r :: rs) s''
    | Stuck f => Stuck f
    end.
Proof. intros H. cbn [do_calls]. rewrite (bind_Done _ _ _ _ _ H). done. Qed.

Lemma do_calls_preserve arch ddf (P : State -> Prop) :
  (forall s c r s',
     state_inv arch s -> P s -> call_ok c -> not_free c ->
     do_call arch ddf c s = Done r s' -> P s') ->
  forall cs s,
    state_inv arch s -> P s -> Forall call_ok cs -> Forall not_free cs ->
    exists rs s',
      do_calls arch ddf cs s = Done rs s' /\ state_inv arch s' /\ P s'.
Proof.
  intros Hstep cs. induction cs as [|c cs IH]; intros s Hinv HP Hok Hnf.
  - by exists [], s.
  - apply Forall_cons in Hok as [Hok Hoks]. apply Forall_cons in Hnf as [Hnf Hnfs].
    destruct (do_call_Done arch ddf c s Hinv Hok) as (r & s1 & Hc & Hinv1).
    destruct (IH s1 Hinv1 (Hstep _ _ _ _ Hinv HP Hok Hnf Hc) Hoks Hnfs)
      as (rs & s' & Hcs & Hinv' & HP').
    exists (r :: rs), s'. rewrite (do_calls_cons _ _ _ _ _ _ _ Hc), Hcs. done.
Qed.

Lemma reachable_do_calls arch ddf cs : forall s rs s',
  reachable arch ddf s -> Forall call_ok cs ->
  do_calls arch ddf cs s = Done rs s' -> reachable arch ddf s'.
Proof.
  induction cs as [|c cs IH]; intros s rs s' Hr Hok Hd.
  - by injection Hd as _ <-.
  - apply Forall_cons in Hok as [Hok Hoks].
    destruct (do_call_Done arch ddf c s (reachable_inv _ _ _ Hr) Hok)
      as (r & s1 & Hc & _).
    rewrite (do_calls_cons _ _ _ _ _ _ _ Hc) in Hd.
    destruct (do_calls arch ddf cs s1) as [rs1 s2|] eqn:E; [| done].
    injection Hd as _ <-.
    eapply IH; [| done | done]. by eapply reachable_call.
Qed.

(** ** The live records after a call *)

Lemma after_init_initialised os_alloc s :
  entrypointBufferExec s <> NULL -> after_init os_alloc s = s.
Proof.
  intros H. unfold after_init.
  by destruct (Z.eqb_spec (entrypointBufferExec s) NULL).
Qed.

Lemma live_inserted arch ddf name s :
  (entrypointCount s < length (entrypoints s))%nat ->
  live (inserted arch ddf name s) =
    live s ++ [new_entry arch s (entrypointCount s) name].
Proof.
  intros Hlt. unfold live, inserted.
  cbn [entrypoints entrypointCount].
  erewrite take_S_r by (by apply list_lookup_insert_eq).
  by rewrite take_insert_ge.
Qed.

Lemma first_match_new_entry arch s index name :
  first_match name [new_entry arch s index name] =
    Some (entrypointExec (new_entry arch s index name)).
Proof. simpl. by rewrite strcmp_c_str_refl. Qed.

(** What a call to [glvndGenerateEntrypoint] does to the live records:
    nothing, or one more record at the end, whose stub it returns. *)
Lemma generate_result_live arch ddf os_alloc os_strdup name s :
  state_inv arch s ->
  let r := generate_result arch ddf os_alloc os_strdup name s in
  (live r.2 = live s /\ (r.1 = NULL \/ first_match name (live s) = Some r.1)) \/
  (exists e, live r.2 = live s ++ [e] /\ r.1 = entrypointExec e /\
     first_match name (live s) = None /\ first_match name [e] = Some r.1 /\
     e = new_entry arch (after_init os_alloc s) (entrypointCount s) name /\
     r.2 = inserted arch ddf name (after_init os_alloc s) /\
     os_strdup = true /\
     (entrypointCount s < GENERATED_ENTRYPOINT_MAX)%nat /\
     entrypointBufferExec (after_init os_alloc s) <> NULL).
Proof.
  intros Hinv. unfold generate_result. cbn zeta.
  pose proof (after_init_live os_alloc s) as Hl.
  pose proof (after_init_count os_alloc s) as Hc.
  pose proof (after_init_entrypoints os_alloc s) as He.
  set (s1 := after_init os_alloc s) in *.
  destruct (Z.eqb_spec (entrypointBufferExec s1) NULL); [left; simpl; auto |].
  destruct (first_match name (live s1)) as [stub|] eqn:Ef.
  { left. simpl. rewrite <- Hl. auto. }
  destruct (Nat.ltb_spec (entrypointCount s1) GENERATED_ENTRYPOINT_MAX);
    [| left; simpl; auto].
  destruct os_strdup; [| left; simpl; auto].
  right. exists (new_entry arch s1 (entrypointCount s1) name). cbn [fst snd].
  rewrite live_inserted
    by (rewrite He, Hc, (inv_length _ _ Hinv); lia).
  rewrite <- Hl, <- Hc. repeat split; try done.
  apply first_match_new_entry.
Qed.

Lemma live_updated arch callback param s :
  (entrypointCount s <= length (entrypoints s))%nat ->
  live (updated arch callback param s) = update_record callback param <$> live s.
Proof.
  intros Hlen. unfold live at 1.
  destruct (updated_fields arch callback param s) as (_ & _ & ->).
  unfold updated, live. cbn [entrypoints set_entrypoints].
  rewrite take_app_le by (rewrite length_fmap, length_take; lia).
  rewrite take_ge; [done |]. rewrite length_fmap, length_take. lia.
Qed.

Lemma first_match_update name callback param l :
  first_match name (update_record callback param <$> l) = first_match name l.
Proof.
  induction l as [|e l IH]; [done |]. cbn.
  destruct (update_record_fields callback param e) as (-> & _ & ->).
  by rewrite IH.
Qed.

Lemma generate_result_buffers arch ddf os_alloc os_strdup name s :
  let r := generate_result arch ddf os_alloc os_strdup name s in
  entrypointBufferWrite r.2 = entrypointBufferWrite (after_init os_alloc s) /\
  entrypointBufferExec r.2 = entrypointBufferExec (after_init os_alloc s).
Proof.
  unfold generate_result. cbn zeta.
  destruct (_ =? _); [done |]. destruct (first_match _ _); [done |].
  destruct (_ <? _)%nat; [| done]. by destruct os_strdup.
Qed.

(** A name that the scan finds stays found, with the same stub, through
    every call that is not the teardown. *)
Lemma do_call_keeps_match arch ddf name p s c r s' :
  state_inv arch s ->
  entrypointBufferExec s <> NULL /\ first_match name (live s) = Some p ->
  call_ok c -> not_free c ->
  do_call arch ddf c s = Done r s' ->
  entrypointBufferExec s' <> NULL /\ first_match name (live s') = Some p.
Proof.
  intros Hinv [Hne Hf] Hok Hnf Hc.
  destruct c as [os_alloc os_strdup name' | callback param |]; simpl in *; [| | done].
  - rewrite generate_closed_form in Hc by done. injection Hc as _ <-.
    destruct (generate_result_buffers arch ddf os_alloc os_strdup name' s) as [_ ->].
    rewrite after_init_initialised by done. split; [done |].
    destruct (generate_result_live arch ddf os_alloc os_strdup name' s Hinv)
      as [[-> _] | (e & -> & _)]; [done |].
    by apply first_match_app_Some.
  - erewrite bind_Done in Hc by (by apply update_closed_form).
    injection Hc as _ <-.
    destruct (updated_fields arch callback param s) as (_ & -> & _).
    split; [done |].
    rewrite live_updated, first_match_update; [done |].
    rewrite (inv_length _ _ Hinv). apply Hinv.
Qed.

Lemma live_lookup s i e :
  live s !! i = Some e <->
  (i < entrypointCount s)%nat /\ entrypoints s !! i = Some e.
Proof. unfold live. rewrite lookup_take_Some. tauto. Qed.

(** C1: once [glvndGenerateEntrypoint] has returned a non-null stub for a
    name, every later call for that name, after any calls other than
    [glvndFreeEntrypoints], returns the same stub and leaves the whole state
    as it is; the stub is the one of the first live record whose name has
    the same bytes and the same length, which the linear scan finds. *)
Theorem C1_generate_idempotent arch ddf s os_alloc os_strdup name p s1 cs
    os_alloc' os_strdup' :
  reachable arch ddf s -> AllocExecPages_ok os_alloc ->
  glvndGenerateEntrypoint arch ddf os_alloc os_strdup name s = Done p s1 ->
  p <> NULL ->
  Forall call_ok cs -> Forall not_free cs ->
  exists rs s2,
    do_calls arch ddf cs s1 = Done rs s2 /\
    glvndGenerateEntrypoint arch ddf os_alloc' os_strdup' name s2 = Done p s2 /\
    find_entrypoint (entrypointCount s2) 0 name s2 = Done (Some p) s2 /\
    exists i e,
      (i < entrypointCount s2)%nat /\ entrypoints s2 !! i = Some e /\
      same_name name e /\ entrypointExec e = p /\
      forall j e', (j < i)%nat -> entrypoints s2 !! j = Some e' ->
                   ~ same_name name e'.
Proof.
  intros Hr Hok Hgen Hp Hoks Hnfs.
  pose proof (reachable_inv _ _ _ Hr) as Hinv.
  assert (state_inv arch s1 /\
          entrypointBufferExec s1 <> NULL /\ first_match name (live s1) = Some p)
    as (Hinv1 & Hne1 & Hf1).
  { rewrite generate_closed_form in Hgen by done. injection Hgen as <- <-.
    split; [by apply generate_result_inv |].
    destruct (generate_result_buffers arch ddf os_alloc os_strdup name s) as [_ Hb].
    destruct (generate_result_live arch ddf os_alloc os_strdup name s Hinv)
      as [[Hl [Hnull | Hf]] | (e & Hl & Hp1 & Hnone & Hf & _ & _ & _ & _ & Hne)];
      [done | |].
    - rewrite Hl. split; [| done]. rewrite Hb.
      unfold generate_result in Hp |- *. cbn zeta in Hp.
      by destruct (Z.eqb_spec (entrypointBufferExec (after_init os_alloc s)) NULL).
    - rewrite Hb, Hl. split; [done |].
      by rewrite first_match_app_None. }
  destruct (do_calls_preserve arch ddf
              (fun s => entrypointBufferExec s <> NULL /\
                        first_match name (live s) = Some p)
              (do_call_keeps_match arch ddf name p) cs s1 Hinv1 (conj Hne1 Hf1)
              Hoks Hnfs) as (rs & s2 & Hd & Hinv2 & Hne2 & Hf2).
  exists rs, s2. split; [done |].
  assert (entrypointCount s2 <= length (entrypoints s2))%nat as Hlen.
  { rewrite (inv_length _ _ Hinv2). apply Hinv2. }
  pose proof (inv_live_names _ _ Hinv2) as Hnames.
  split; [by apply generate_found |].
  split.
  { rewrite find_entrypoint_Done; [| simpl; lia | done].
    rewrite drop_0. fold (live s2). by rewrite Hf2. }
  apply first_match_Some in Hf2 as (i & e & Hi & Hsame & Hex & Hmin).
  apply live_lookup in Hi as [Hi He].
  exists i, e. repeat split; try done.
  intros j e' Hj He'. apply (Hmin j); [done |]. apply live_lookup. split; [lia | done].
Qed.

(** ** The memory and the trace after an update *)

Lemma length_dispatch_bytes arch e d :
  length (dispatch_bytes arch e d) = dispatch_size arch.
Proof. by destruct arch. Qed.

Lemma patched_mem_outside arch e d s a :
  ~ in_dispatch_field arch e a -> mem (patched arch e d s) a = mem s a.
Proof.
  intros Ha. unfold patched. cbn [mem].
  apply store_bytes_outside. rewrite length_dispatch_bytes.
  unfold in_dispatch_field in Ha. lia.
Qed.

Lemma patched_load arch e d s :
  load_bytes (mem (patched arch e d s))
    (entrypointWrite e + DISPATCH_FUNC_OFFSET arch) (dispatch_size arch) =
  dispatch_bytes arch e d.
Proof.
  unfold patched. cbn [mem].
  rewrite <- (length_dispatch_bytes arch e d) at 1. apply load_store_bytes.
Qed.

Lemma update_step_mem_outside arch callback param e s a :
  (resolved callback param e = true -> ~ in_dispatch_field arch e a) ->
  mem (update_step arch callback param e s) a = mem s a.
Proof.
  unfold update_step, resolved. intros H.
  destruct (assigned e =? 0); [| done].
  destruct (negb _); [| done].
  rewrite patched_mem_outside by by apply H. done.
Qed.

Lemma foldl_update_mem_outside arch callback param es s a :
  (forall e, e ∈ es -> resolved callback param e = true ->
             ~ in_dispatch_field arch e a) ->
  mem (foldl (fun s e => update_step arch callback param e s) s es) a = mem s a.
Proof.
  revert s; induction es as [|e es IH]; intros s H; [done |]. cbn [foldl].
  rewrite IH by (intros e' He'; apply H; by right).
  apply update_step_mem_outside. apply H. by left.
Qed.

Lemma foldl_update_trace arch callback param es s :
  trace (foldl (fun s e => update_step arch callback param e s) s es) =
  trace s ++ flat_map (update_events arch callback param) es.
Proof.
  revert s; induction es as [|e es IH]; intros s; cbn [foldl flat_map].
  - by rewrite app_nil_r.
  - rewrite IH. unfold update_step, update_events.
    destruct (assigned e =? 0); [| done].
    destruct (negb _); simpl; by rewrite <- ?app_assoc.
Qed.

Lemma callback_calls_app t1 t2 :
  callback_calls (t1 ++ t2) = callback_calls t1 ++ callback_calls t2.
Proof. apply flat_map_app. Qed.

Lemma callback_calls_update_events arch callback param es :
  callback_calls (flat_map (update_events arch callback param) es) =
  (fun e => (procName e, param)) <$> filter (fun e => assigned e = 0) es.
Proof.
  induction es as [|e es IH]; [done |]. cbn [flat_map].
  rewrite callback_calls_app, IH, filter_cons. unfold update_events.
  destruct (Z.eqb_spec (assigned e) 0) as [E|NE].
  - rewrite decide_True by done. cbn.
    destruct (negb _); [| done]. by destruct arch.
  - by rewrite decide_False by done.
Qed.

Lemma dispatch_field_in_slot arch e a :
  in_dispatch_field arch e a -> in_slot e a.
Proof.
  unfold in_dispatch_field, in_slot, STUB_ENTRY_SIZE. destruct arch; simpl; lia.
Qed.

(** The slots of two live records do not overlap. *)
Lemma live_slots_disjoint arch s i j e e' a :
  state_inv arch s ->
  live s !! i = Some e -> live s !! j = Some e' ->
  in_slot e a -> in_slot e' a -> i = j.
Proof.
  intros Hinv [Hi He]%live_lookup [Hj He']%live_lookup.
  destruct (inv_live _ _ Hinv i e Hi He) as (_ & Hw & _).
  destruct (inv_live _ _ Hinv j e' Hj He') as (_ & Hw' & _).
  unfold in_slot, STUB_ENTRY_SIZE in *. lia.
Qed.

Lemma updated_mem arch callback param s :
  mem (updated arch callback param s) =
  mem (foldl (fun s e => update_step arch callback param e s) s (live s)).
Proof. done. Qed.

Lemma updated_mem_slot arch callback param s i e a :
  state_inv arch s ->
  live s !! i = Some e -> in_slot e a ->
  (resolved callback param e = true -> ~ in_dispatch_field arch e a) ->
  mem (updated arch callback param s) a = mem s a.
Proof.
  intros Hinv Hi Ha Hres. rewrite updated_mem.
  apply foldl_update_mem_outside.
  intros e' (j & Hj)%list_elem_of_lookup Hr' Hf.
  assert (i = j) as <-
    by (eapply live_slots_disjoint; eauto using dispatch_field_in_slot).
  rewrite Hi in Hj. injection Hj as <-. by apply Hres.
Qed.

Lemma updated_mem_field arch callback param s i e :
  state_inv arch s ->
  live s !! i = Some e -> resolved callback param e = true ->
  load_bytes (mem (updated arch callback param s))
    (entrypointWrite e + DISPATCH_FUNC_OFFSET arch) (dispatch_size arch) =
  dispatch_bytes arch e (callback (procName e) param).
Proof.
  intros Hinv Hi Hres. rewrite updated_mem.
  rewrite <- (take_drop_middle _ _ _ Hi) at 1.
  rewrite foldl_app. cbn [foldl].
  set (s0 := foldl _ s (take i (live s))).
  erewrite load_bytes_ext; cycle 1.
  { intros a Ha. apply foldl_update_mem_outside.
    intros e' (j & Hj)%list_elem_of_lookup _ Hf.
    rewrite lookup_drop in Hj.
    assert (i = S i + j)%nat; [| lia].
    eapply live_slots_disjoint; eauto using dispatch_field_in_slot. }
  unfold update_step. unfold resolved in Hres.
  apply andb_prop in Hres as [-> ->]. apply patched_load.
Qed.

(** C2: an update calls the callback once for each live record that is not
    assigned, in the order of the indices, and for no other record; a
    record the callback resolves gets the address stored in the dispatch
    field of its stub and [assigned = 1]; a record the callback answers
    null for, and a record that was assigned before, keep their record and
    every byte of their slot. *)
Theorem C2_update_unassigned_only arch ddf callback param s :
  reachable arch ddf s ->
  exists s',
    glvndUpdateEntrypoints arch callback param s = Done tt s' /\
    entrypointCount s' = entrypointCount s /\
    callback_calls (trace s') =
      callback_calls (trace s) ++
      ((fun e => (procName e, param)) <$>
       filter (fun e => assigned e = 0) (live s)) /\
    forall i e,
      (i < entrypointCount s)%nat -> entrypoints s !! i = Some e ->
      (assigned e <> 0 ->
       entrypoints s' !! i = Some e /\
       forall a, in_slot e a -> mem s' a = mem s a) /\
      (assigned e = 0 -> callback (procName e) param = NULL ->
       entrypoints s' !! i = Some e /\
       forall a, in_slot e a -> mem s' a = mem s a) /\
      (assigned e = 0 -> callback (procName e) param <> NULL ->
       entrypoints s' !! i = Some (set_assigned 1 e) /\
       load_bytes (mem s') (entrypointWrite e + DISPATCH_FUNC_OFFSET arch)
         (dispatch_size arch) =
         dispatch_bytes arch e (callback (procName e) param) /\
       forall a, in_slot e a -> ~ in_dispatch_field arch e a ->
                 mem s' a = mem s a).
Proof.
  intros Hr. pose proof (reachable_inv _ _ _ Hr) as Hinv.
  assert (entrypointCount s <= length (entrypoints s))%nat as Hlen.
  { rewrite (inv_length _ _ Hinv). apply Hinv. }
  exists (updated arch callback param s).
  split; [by apply update_closed_form |].
  split; [by destruct (updated_fields arch callback param s) as (_ & _ & ->) |].
  split.
  { unfold updated. cbn [trace set_entrypoints].
    by rewrite foldl_update_trace, callback_calls_app, callback_calls_update_events. }
  intros i e Hi He.
  assert (live s !! i = Some e) as Hl by by apply live_lookup.
  rewrite updated_lookup, decide_True, He by done. cbn [fmap option_fmap option_map].
  unfold update_record, resolved.
  split; [| split].
  - intros Ha. destruct (Z.eqb_spec (assigned e) 0) as [|_]; [done |].
    split; [done |]. intros a Hs. eapply updated_mem_slot; eauto.
    unfold resolved. by destruct (Z.eqb_spec (assigned e) 0).
  - intros _ Hc. rewrite Hc, andb_false_r.
    split; [done |]. intros a Hs. eapply updated_mem_slot; eauto.
    unfold resolved. by rewrite Hc, andb_false_r.
  - intros Ha Hc.
    assert (resolved callback param e = true) as Hres.
    { unfold resolved. rewrite Ha.
      by destruct (Z.eqb_spec (callback (procName e) param) NULL). }
    unfold resolved in Hres. rewrite Hres.
    split; [done |]. split.
    + by apply (updated_mem_field arch callback param s i e Hinv Hl).
    + intros a Hs Hf. eapply updated_mem_slot; eauto.
Qed.

(** ** Filling the table *)

Lemma after_init_Some_initialised arch w e s :
  state_inv arch s -> pages_ok w e ->
  entrypointBufferExec (after_init (Some (w, e)) s) <> NULL.
Proof.
  intros Hinv Hp. unfold after_init.
  destruct (Z.eqb_spec (entrypointBufferExec s) NULL); [| done].
  simpl. by apply pages_ok_nonnull in Hp as [_ ?].
Qed.

Lemma new_entry_nonnull arch s index name :
  state_inv arch s -> entrypointBufferExec s <> NULL ->
  entrypointExec (new_entry arch s index name) <> NULL.
Proof.
  intros Hinv Hne. destruct (inv_initialised _ _ Hinv Hne) as (_ & Hpos & _).
  unfold new_entry, NULL, STUB_ENTRY_SIZE. cbn [entrypointExec].
  destruct arch; simpl; lia.
Qed.

Lemma first_match_new_entry_other arch s index name m :
  c_str m <> c_str name -> first_match m [new_entry arch s index name] = None.
Proof.
  intros Hne. simpl.
  destruct (Z.eqb_spec (strcmp m (c_str name)) 0) as [E|]; [| done].
  apply strcmp_0_iff in E. rewrite c_str_idemp in E. done.
Qed.

Lemma first_match_snoc_other arch s index name m l :
  c_str m <> c_str name ->
  first_match m (l ++ [new_entry arch s index name]) = first_match m l.
Proof.
  intros Hne. destruct (first_match m l) as [p|] eqn:E.
  - by apply first_match_app_Some.
  - rewrite first_match_app_None by done. by apply first_match_new_entry_other.
Qed.

(** A call for a name that no live record has, while there is room, the
    allocator answers and [strdup] finds memory: a new record at the end. *)
Lemma generate_fresh arch ddf w e name s :
  state_inv arch s -> pages_ok w e ->
  first_match name (live s) = None ->
  (entrypointCount s < GENERATED_ENTRYPOINT_MAX)%nat ->
  let s1 := after_init (Some (w, e)) s in
  glvndGenerateEntrypoint arch ddf (Some (w, e)) true name s =
    Done (entrypointExec (new_entry arch s1 (entrypointCount s) name))
         (inserted arch ddf name s1) /\
  entrypointBufferExec s1 <> NULL /\
  state_inv arch (inserted arch ddf name s1) /\
  live (inserted arch ddf name s1) =
    live s ++ [new_entry arch s1 (entrypointCount s) name].
Proof.
  intros Hinv Hp Hf Hlt s1.
  pose proof (after_init_Some_initialised arch w e s Hinv Hp) as Hne.
  pose proof (after_init_inv arch (Some (w, e)) s Hinv Hp) as Hinv1.
  fold s1 in Hne, Hinv1.
  assert (entrypointCount s1 = entrypointCount s) as Hc
    by apply after_init_count.
  rewrite generate_closed_form by done.
  unfold generate_result. fold s1. cbn zeta.
  assert (live s1 = live s) as Hl by apply after_init_live.
  destruct (Z.eqb_spec (entrypointBufferExec s1) NULL); [done |].
  rewrite Hl, Hf, Hc.
  destruct (Nat.ltb_spec (entrypointCount s) GENERATED_ENTRYPOINT_MAX); [| lia].
  cbn [fst snd]. split; [done |]. split; [done |]. split.
  - apply inserted_inv; [done | done | lia].
  - rewrite live_inserted by (rewrite (inv_length _ _ Hinv1); lia).
    by rewrite Hl, Hc.
Qed.

Lemma generate_fresh_run arch ddf w e : forall names s,
  state_inv arch s -> pages_ok w e ->
  NoDup (c_str <$> names) ->
  (forall n, n ∈ names -> first_match n (live s) = None) ->
  (entrypointCount s + length names <= GENERATED_ENTRYPOINT_MAX)%nat ->
  exists stubs s',
    do_calls arch ddf (CallGenerate (Some (w, e)) true <$> names) s =
      Done stubs s' /\
    state_inv arch s' /\
    entrypointCount s' = (entrypointCount s + length names)%nat /\
    Forall2 (fun n p => p <> NULL /\ first_match n (live s') = Some p)
      names stubs /\
    (forall m p, first_match m (live s) = Some p ->
                 first_match m (live s') = Some p) /\
    (forall m, first_match m (live s) = None -> c_str m ∉ (c_str <$> names) ->
               first_match m (live s') = None).
Proof.
  induction names as [|n names IH]; intros s Hinv Hp Hnd Hfresh Hroom.
  - exists [], s. simpl. rewrite Nat.add_0_r.
    split; [done |]. split; [done |]. split; [done |]. split; [constructor |].
    split; done.
  - cbn [fmap list_fmap length] in *.
    apply NoDup_cons in Hnd as [Hn Hnd].
    destruct (generate_fresh arch ddf w e n s Hinv Hp) as (Hg & Hne & Hinv2 & Hl2);
      [apply Hfresh; by left | lia |].
    set (s1 := after_init (Some (w, e)) s) in *.
    set (s2 := inserted arch ddf n s1) in *.
    assert (forall m, c_str m <> c_str n ->
                      first_match m (live s2) = first_match m (live s)) as Hother.
    { intros m Hm. rewrite Hl2. by apply first_match_snoc_other. }
    destruct (IH s2 Hinv2 Hp Hnd) as (stubs & s' & Hd & Hinv' & Hc' & Hall & Hkeep & Hnone).
    { intros n' Hn'. rewrite Hother; [apply Hfresh; by right |].
      intros E. apply Hn. rewrite <- E. by apply list_elem_of_fmap_2. }
    { unfold s2, inserted. cbn [entrypointCount]. unfold s1.
      rewrite after_init_count. lia. }
    exists (entrypointExec (new_entry arch s1 (entrypointCount s) n) :: stubs), s'.
    split.
    { rewrite (do_calls_cons arch ddf (CallGenerate (Some (w, e)) true n) _ _ _ _ Hg).
      change (list_fmap _ _ ?f names) with (f <$> names). by rewrite Hd. }
    split; [done |].
    split.
    { rewrite Hc'. unfold s2, inserted. cbn [entrypointCount]. unfold s1.
      rewrite after_init_count. lia. }
    split.
    { constructor; [| done]. split.
      - apply new_entry_nonnull; [by apply after_init_inv | done].
      - apply Hkeep. rewrite Hl2, first_match_app_None by (apply Hfresh; by left).
        apply first_match_new_entry. }
    split.
    { intros m p Hm. apply Hkeep. rewrite Hl2. by apply first_match_app_Some. }
    intros m Hm Hnot. apply Hnone.
    + rewrite Hother; [done |]. intros E. apply Hnot. rewrite E. by left.
    + intros Hin. apply Hnot. by right.
Qed.

Lemma generate_at_capacity arch os_alloc os_strdup ddf name s :
  state_inv arch s ->
  entrypointCount s = GENERATED_ENTRYPOINT_MAX ->
  first_match name (live s) = None ->
  glvndGenerateEntrypoint arch ddf os_alloc os_strdup name s = Done NULL s.
Proof.
  intros Hinv Hc Hf. apply generate_full; try done.
  - destruct (inv_slab _ _ Hinv) as [(_ & _ & H0) | Hp].
    + rewrite Hc in H0. done.
    + by apply pages_ok_nonnull in Hp as [_ ?].
  - rewrite (inv_length _ _ Hinv). lia.
  - by apply (inv_live_names arch).
  - lia.
Qed.

Lemma inv_live_initialised arch s :
  state_inv arch s -> (0 < entrypointCount s)%nat ->
  entrypointBufferExec s <> NULL.
Proof.
  intros Hinv Hc. destruct (inv_slab _ _ Hinv) as [(_ & _ & H0) | Hp]; [lia |].
  by apply pages_ok_nonnull in Hp as [_ ?].
Qed.

(** C3: with [GENERATED_ENTRYPOINT_MAX] = 4096 live records, a call for a
    name that no live record has returns null and leaves the state, so the
    count and every record, as it is.  From an empty table, when the
    allocator answers and [strdup] finds memory, 4096 calls for names that
    differ each return a stub that is not null; after them the call for one
    more name returns null, and a call for any of the 4096 names still
    returns the stub it returned before. *)
Theorem C3_capacity arch ddf s w e names last os_alloc os_strdup :
  reachable arch ddf s ->
  entrypointCount s = 0%nat ->
  pages_ok w e ->
  length names = GENERATED_ENTRYPOINT_MAX ->
  NoDup (c_str <$> (names ++ [last])) ->
  GENERATED_ENTRYPOINT_MAX = 4096%nat /\
  (exists stubs s',
     do_calls arch ddf (CallGenerate (Some (w, e)) true <$> names) s =
       Done stubs s' /\
     length stubs = GENERATED_ENTRYPOINT_MAX /\
     Forall (fun p => p <> NULL) stubs /\
     entrypointCount s' = GENERATED_ENTRYPOINT_MAX /\
     glvndGenerateEntrypoint arch ddf os_alloc os_strdup last s' =
       Done NULL s' /\
     Forall2
       (fun n p =>
          glvndGenerateEntrypoint arch ddf os_alloc os_strdup n s' = Done p s')
       names stubs) /\
  (forall t name,
     reachable arch ddf t ->
     entrypointCount t = GENERATED_ENTRYPOINT_MAX ->
     (forall e, e ∈ live t -> ~ same_name name e) ->
     glvndGenerateEntrypoint arch ddf os_alloc os_strdup name t = Done NULL t).
Proof.
  intros Hr Hc Hp Hlen Hnd. split; [done |].
  pose proof (reachable_inv _ _ _ Hr) as Hinv.
  rewrite fmap_app in Hnd. apply NoDup_app in Hnd as (Hnd & Hlast & _).
  assert (live s = []) as Hl by (unfold live; by rewrite Hc).
  split.
  - destruct (generate_fresh_run arch ddf w e names s Hinv Hp Hnd)
      as (stubs & s' & Hd & Hinv' & Hc' & Hall & _ & Hnone).
    { intros n _. by rewrite Hl. }
    { rewrite Hc, Hlen. lia. }
    rewrite Hc, Hlen in Hc'. simpl in Hc'.
    assert (entrypointBufferExec s' <> NULL) as Hne.
    { apply (inv_live_initialised arch); [done |]. rewrite Hc'.
      unfold GENERATED_ENTRYPOINT_MAX. lia. }
    assert (entrypointCount s' <= length (entrypoints s'))%nat as Hle.
    { rewrite (inv_length _ _ Hinv'). lia. }
    exists stubs, s'. split; [done |].
    split; [by rewrite <- (Forall2_length _ _ _ Hall) |].
    split.
    { clear -Hall. induction Hall as [|n p ns ps [Hp _] _ IH]; by constructor. }
    split; [done |].
    split.
    { apply generate_at_capacity; [done | done |].
      apply Hnone; [by rewrite Hl |].
      intros Hin. apply (Hlast (c_str last)); [done |]. simpl. by left. }
    clear -Hall Hne Hle Hinv'.
    induction Hall as [|n p ns ps [_ Hf] _ IH]; constructor; [| done].
    apply generate_found; try done. by apply (inv_live_names arch).
  - intros t name Ht Hct Hfresh. apply generate_at_capacity.
    + by apply (reachable_inv arch ddf).
    + done.
    + by apply first_match_None.
Qed.

(** ** Patching a stub *)

Lemma wrap_signed_eq bits z :
  0 < bits -> exists k, wrap_signed bits z = z + k * 2 ^ bits.
Proof.
  intros Hb. unfold wrap_signed. exists (- ((z + 2 ^ (bits - 1)) / 2 ^ bits)).
  rewrite Zmod_eq_full by (apply Z.pow_nonzero; lia). lia.
Qed.

Lemma x86_offset_mod dispatch exec :
  intptr_sub USE_X86_ASM
    (intptr_sub USE_X86_ASM (to_intptr USE_X86_ASM dispatch)
       (to_intptr USE_X86_ASM exec))
    DISPATCH_FUNC_OFFSET_REL mod 2 ^ 32 =
  (dispatch - exec - 5) mod 2 ^ 32.
Proof.
  unfold intptr_sub, to_intptr, DISPATCH_FUNC_OFFSET_REL. cbn [ptr_bits].
  destruct (wrap_signed_eq 32 dispatch) as [k1 ->]; [lia |].
  destruct (wrap_signed_eq 32 exec) as [k2 ->]; [lia |].
  destruct (wrap_signed_eq 32 (dispatch + k1 * 2 ^ 32 - (exec + k2 * 2 ^ 32)))
    as [k3 ->]; [lia |].
  destruct (wrap_signed_eq 32
              (dispatch + k1 * 2 ^ 32 - (exec + k2 * 2 ^ 32) + k3 * 2 ^ 32 - 5))
    as [k4 ->]; [lia |].
  rewrite <- (Z_mod_plus_full (dispatch - exec - 5) (k1 - k2 + k3 + k4) (2 ^ 32)).
  f_equal. lia.
Qed.

(** C4: on the x86 build, patching the stub of a record for the target
    [T] stores, at the offsets 1 to 4 of the write view of the stub, the
    four bytes, least significant first, of
    [(intptr_t) T - (intptr_t) E - 5], computed in the 32-bit signed type
    that has the size of a pointer, where [E] is the executable pointer of
    the record; no other byte of the memory changes, and nothing is
    flushed. *)
Theorem C4_x86_patch s entry e T :
  entrypoints s !! entry = Some e ->
  let W := entrypointWrite e in
  let E := entrypointExec e in
  let rel :=
    intptr_sub USE_X86_ASM
      (intptr_sub USE_X86_ASM (to_intptr USE_X86_ASM T)
         (to_intptr USE_X86_ASM E))
      DISPATCH_FUNC_OFFSET_REL in
  exists s',
    SetDispatchFuncPointer USE_X86_ASM entry T s = Done tt s' /\
    ptr_bits USE_X86_ASM = 8 * Z.of_nat (sizeof_ptr USE_X86_ASM) /\
    - 2 ^ 31 <= rel < 2 ^ 31 /\
    rel mod 2 ^ 32 = (T - E - 5) mod 2 ^ 32 /\
    load_bytes (mem s') (W + 1) 4 = le_bytes 4 rel /\
    le_value (load_bytes (mem s') (W + 1) 4) = (T - E - 5) mod 2 ^ 32 /\
    (forall a, ~ (W + 1 <= a < W + 5) -> mem s' a = mem s a) /\
    entrypoints s' = entrypoints s /\
    trace s' = trace s.
Proof.
  intros He W E rel. exists (patched USE_X86_ASM e T s).
  split; [by apply SetDispatchFuncPointer_Done |].
  split; [done |].
  split; [apply (wrap_signed_range 32); lia |].
  split; [apply x86_offset_mod |].
  assert (load_bytes (mem (patched USE_X86_ASM e T s)) (W + 1) 4 = le_bytes 4 rel)
    as Hload by apply (patched_load USE_X86_ASM e T s).
  split; [done |].
  split.
  { rewrite Hload, le_value_le_bytes. change (256 ^ Z.of_nat 4) with (2 ^ 32).
    apply x86_offset_mod. }
  split.
  { intros a Ha. apply patched_mem_outside.
    unfold in_dispatch_field. cbn. fold W. lia. }
  split; [done |]. cbn. apply app_nil_r.
Qed.

Lemma land_1 x : Z.land x 1 = if Z.odd x then 1 else 0.
Proof.
  change 1 with (Z.ones 1) at 1. rewrite Z.land_ones by lia. apply Zmod_odd.
Qed.

(** The stub a call to [glvndGenerateEntrypoint] returns, when it is not
    null, is the one of a live record that has the name. *)
Lemma generate_returns_live arch ddf os_alloc os_strdup name s p s' :
  state_inv arch s -> AllocExecPages_ok os_alloc ->
  glvndGenerateEntrypoint arch ddf os_alloc os_strdup name s = Done p s' ->
  p <> NULL ->
  exists k e,
    (k < entrypointCount s')%nat /\ entrypoints s' !! k = Some e /\
    same_name name e /\ entrypointExec e = p.
Proof.
  intros Hinv Hok Hgen Hp.
  rewrite generate_closed_form in Hgen by done. injection Hgen as <- <-.
  assert (first_match name
            (live (generate_result arch ddf os_alloc os_strdup name s).2) =
          Some (generate_result arch ddf os_alloc os_strdup name s).1) as Hf.
  { destruct (generate_result_live arch ddf os_alloc os_strdup name s Hinv)
      as [[Hl [Hnull | Hf]] | (e & Hl & _ & Hnone & Hf & _)]; [done | |].
    - by rewrite Hl.
    - rewrite Hl. by rewrite first_match_app_None. }
  apply first_match_Some in Hf as (k & e & [Hk He]%live_lookup & Hsame & Hex & _).
  by exists k, e.
Qed.

(** C5: on the ARMv7 Thumb build, the executable pointer of the live record
    of index [i] is [exec_base + i * S + 1], with bit 0 set, and every stub
    that [glvndGenerateEntrypoint] returns is such a pointer; patching the
    record stores the target as a 32-bit little-endian word at the offset 8
    of the write view, and nothing else, and then flushes the cache from the
    even address [exec_base + i * S], the pointer minus 1, over the 12 bytes
    of the template; the patch asserts the Thumb bit: on a record whose
    executable pointer is even the assertion fails. *)
Theorem C5_armv7_thumb ddf s i e T :
  reachable USE_ARMV7_ASM ddf s ->
  (i < entrypointCount s)%nat -> entrypoints s !! i = Some e ->
  let base := entrypointBufferExec s + Z.of_nat i * STUB_ENTRY_SIZE in
  let W := entrypointWrite e in
  entrypointExec e = base + 1 /\
  Z.land (entrypointExec e) 1 = 1 /\
  Z.even base = true /\
  (exists s',
     SetDispatchFuncPointer USE_ARMV7_ASM i T s = Done tt s' /\
     load_bytes (mem s') (W + 8) 4 = le_bytes 4 (wrap_unsigned 32 T) /\
     le_value (load_bytes (mem s') (W + 8) 4) = T mod 2 ^ 32 /\
     (forall a, ~ (W + 8 <= a < W + 12) -> mem s' a = mem s a) /\
     entrypoints s' = entrypoints s /\
     trace s' = trace s ++ [EvClearCache base (base + 12)]) /\
  (forall t j e0,
     entrypoints t !! j = Some e0 ->
     Z.land (entrypointExec e0) 1 = 0 ->
     SetDispatchFuncPointer USE_ARMV7_ASM j T t = Stuck AssertFail) /\
  (forall os_alloc os_strdup name p s',
     AllocExecPages_ok os_alloc ->
     glvndGenerateEntrypoint USE_ARMV7_ASM ddf os_alloc os_strdup name s =
       Done p s' ->
     p <> NULL ->
     exists k, (k < entrypointCount s')%nat /\
       p = entrypointBufferExec s' + Z.of_nat k * STUB_ENTRY_SIZE + 1).
Proof.
  intros Hr Hi He base W. pose proof (reachable_inv _ _ _ Hr) as Hinv.
  destruct (inv_live _ _ Hinv i e Hi He) as (_ & Hw & Hx).
  cbn [thumb_bit] in Hx. fold base in Hx.
  assert (Z.even base = true) as Hbase.
  { unfold base, STUB_ENTRY_SIZE.
    rewrite Z.even_add, Z.even_mul.
    rewrite (pages_ok_even (entrypointBufferWrite s) (entrypointBufferExec s)).
    - simpl. by rewrite orb_true_r.
    - apply (inv_initialised USE_ARMV7_ASM); [done |].
      apply (inv_live_initialised USE_ARMV7_ASM); [done | lia]. }
  assert (Z.odd (entrypointExec e) = true) as Hodd.
  { rewrite Hx, Z.odd_add, <- Z.negb_even, Hbase. done. }
  split; [done |].
  split; [by rewrite land_1, Hodd |].
  split; [done |].
  split; [| split].
  - exists (patched USE_ARMV7_ASM e T s).
    split; [by apply SetDispatchFuncPointer_Done |].
    assert (load_bytes (mem (patched USE_ARMV7_ASM e T s)) (W + 8) 4 =
            le_bytes 4 (wrap_unsigned 32 T)) as Hload
      by apply (patched_load USE_ARMV7_ASM e T s).
    split; [done |].
    split.
    { rewrite Hload, le_value_le_bytes. change (256 ^ Z.of_nat 4) with (2 ^ 32).
      unfold wrap_unsigned. by rewrite Zmod_mod. }
    split.
    { intros a Ha. apply patched_mem_outside.
      unfold in_dispatch_field. cbn. fold W. lia. }
    split; [done |].
    unfold patched, flush_events. cbn [trace]. rewrite Hx.
    change (sizeof_STUB_TEMPLATE USE_ARMV7_ASM) with 12.
    by replace (base + 1 - 1) with base by lia.
  - intros t j e0 He0 Hland. apply (SetDispatchFuncPointer_armv7_assert t j e0); [done |].
    rewrite land_1 in Hland. by destruct (Z.odd (entrypointExec e0)).
  - intros os_alloc os_strdup name p s' Hok Hgen Hp.
    destruct (generate_returns_live _ _ _ _ _ _ _ _ Hinv Hok Hgen Hp)
      as (k & e' & Hk & He' & _ & <-).
    exists k. split; [done |].
    assert (state_inv USE_ARMV7_ASM s') as Hinv'.
    { rewrite generate_closed_form in Hgen by done. injection Hgen as _ <-.
      by apply generate_result_inv. }
    by destruct (inv_live _ _ Hinv' k e' Hk He') as (_ & _ & ->).
Qed.

(** ** Stable stubs *)

Lemma keeps_live_refl s : keeps_live s s.
Proof. split; [done |]. intros i e _ He. by exists e. Qed.

Lemma keeps_live_trans s1 s2 s3 :
  keeps_live s1 s2 -> keeps_live s2 s3 -> keeps_live s1 s3.
Proof.
  intros [Hc12 H12] [Hc23 H23]. split; [lia |].
  intros i e Hi He.
  destruct (H12 i e Hi He) as (e2 & He2 & Hn2 & Hw2 & Hx2).
  destruct (H23 i e2 ltac:(lia) He2) as (e3 & He3 & Hn3 & Hw3 & Hx3).
  exists e3. split; [done |]. split; [congruence |]. split; congruence.
Qed.

Lemma generate_result_keeps arch ddf os_alloc os_strdup name s :
  state_inv arch s ->
  keeps_live s (generate_result arch ddf os_alloc os_strdup name s).2.
Proof.
  intros Hinv. unfold generate_result. cbn zeta.
  pose proof (after_init_count os_alloc s) as Hc.
  pose proof (after_init_entrypoints os_alloc s) as He.
  set (s1 := after_init os_alloc s) in *.
  assert (keeps_live s s1) as H1.
  { split; [lia |]. intros i e _ Hi. exists e. by rewrite He. }
  destruct (_ =? _); [done |]. destruct (first_match _ _); [done |].
  destruct (_ <? _)%nat; [| done].
  destruct os_strdup.
  - split; [cbn; lia |]. intros i e Hi Hl. exists e.
    unfold inserted. cbn [snd entrypoints].
    rewrite list_lookup_insert_ne by lia. by rewrite He.
  - split; [cbn; lia |]. intros i e _ Hi. exists e. cbn. by rewrite He.
Qed.

Lemma updated_keeps arch callback param s :
  state_inv arch s -> keeps_live s (updated arch callback param s).
Proof.
  intros Hinv.
  destruct (updated_fields arch callback param s) as (_ & _ & Hc).
  split; [lia |]. intros i e Hi He.
  exists (update_record callback param e).
  rewrite updated_lookup, decide_True, He
    by (try done; rewrite (inv_length _ _ Hinv); apply Hinv).
  split; [done |]. apply update_record_fields.
Qed.

Lemma do_call_keeps arch ddf s0 s c r s' :
  state_inv arch s -> keeps_live s0 s -> call_ok c -> not_free c ->
  do_call arch ddf c s = Done r s' -> keeps_live s0 s'.
Proof.
  intros Hinv Hk Hok Hnf Hc. apply (keeps_live_trans _ _ _ Hk).
  destruct c as [os_alloc os_strdup name | callback param |]; simpl in *; [| | done].
  - rewrite generate_closed_form in Hc by done. injection Hc as _ <-.
    by apply generate_result_keeps.
  - erewrite bind_Done in Hc by (by apply update_closed_form).
    injection Hc as _ <-. by apply updated_keeps.
Qed.

(** C6: the live record of index [i] has the write pointer
    [write_base + i * S] and the executable pointer [exec_base + i * S],
    plus 1 on the Thumb build, with [S = 16]; so the stubs lie at addresses
    that grow with the order of issue, and calls other than the teardown
    leave every live record at its index, with its name and its two
    pointers. *)
Theorem C6_stub_layout arch ddf s :
  reachable arch ddf s ->
  STUB_ENTRY_SIZE = 16 /\
  (thumb_bit arch = if decide (arch = USE_ARMV7_ASM) then 1 else 0) /\
  (forall i, (i < entrypointCount s)%nat ->
     exists e, entrypoints s !! i = Some e /\
       entrypointWrite e =
         entrypointBufferWrite s + Z.of_nat i * STUB_ENTRY_SIZE /\
       entrypointExec e =
         entrypointBufferExec s + Z.of_nat i * STUB_ENTRY_SIZE +
         thumb_bit arch) /\
  (forall i j ei ej,
     (i < j)%nat -> (j < entrypointCount s)%nat ->
     entrypoints s !! i = Some ei -> entrypoints s !! j = Some ej ->
     entrypointWrite ei < entrypointWrite ej /\
     entrypointExec ei < entrypointExec ej) /\
  (forall cs,
     Forall call_ok cs -> Forall not_free cs ->
     exists rs s',
       do_calls arch ddf cs s = Done rs s' /\ keeps_live s s').
Proof.
  intros Hr. pose proof (reachable_inv _ _ _ Hr) as Hinv.
  split; [done |]. split; [by destruct arch |].
  split; [| split].
  - intros i Hi.
    destruct (lookup_lt_is_Some_2 (entrypoints s) i) as [e He].
    { rewrite (inv_length _ _ Hinv). pose proof (inv_count _ _ Hinv). lia. }
    exists e. split; [done |]. by destruct (inv_live _ _ Hinv i e Hi He) as (_ & ? & ?).
  - intros i j ei ej Hij Hj Hei Hej.
    destruct (inv_live _ _ Hinv i ei ltac:(lia) Hei) as (_ & -> & ->).
    destruct (inv_live _ _ Hinv j ej Hj Hej) as (_ & -> & ->).
    unfold STUB_ENTRY_SIZE. lia.
  - intros cs Hoks Hnfs.
    destruct (do_calls_preserve arch ddf (keeps_live s) (do_call_keeps arch ddf s)
                cs s Hinv (keeps_live_refl s) Hoks Hnfs) as (rs & s' & Hd & _ & Hk).
    by exists rs, s'.
Qed.

(** ** The insert path *)

Lemma after_init_available arch os_alloc s :
  state_inv arch s -> AllocExecPages_ok os_alloc ->
  entrypointBufferExec s <> NULL \/ os_alloc <> None ->
  entrypointBufferExec (after_init os_alloc s) <> NULL.
Proof.
  intros Hinv Hok Hav. unfold after_init.
  destruct (Z.eqb_spec (entrypointBufferExec s) NULL) as [E|NE]; [| done].
  destruct os_alloc as [[w e]|]; [| by destruct Hav].
  simpl. by apply pages_ok_nonnull in Hok as [_ ?].
Qed.

Lemma inserted_mem_field arch ddf name s :
  let e := new_entry arch s (entrypointCount s) name in
  load_bytes (mem (inserted arch ddf name s))
    (entrypointWrite e + DISPATCH_FUNC_OFFSET arch) (dispatch_size arch) =
  dispatch_bytes arch e ddf.
Proof.
  intros e. unfold inserted. cbn [mem]. fold e.
  rewrite <- (length_dispatch_bytes arch e ddf) at 1. apply load_store_bytes.
Qed.

Lemma inserted_mem_template arch ddf name s (k : nat) b :
  let e := new_entry arch s (entrypointCount s) name in
  STUB_TEMPLATE arch !! k = Some b ->
  ~ in_dispatch_field arch e (entrypointWrite e + Z.of_nat k) ->
  mem (inserted arch ddf name s) (entrypointWrite e + Z.of_nat k) = b.
Proof.
  intros e Hk Hf. unfold inserted. cbn [mem]. fold e.
  rewrite store_bytes_outside.
  - by apply store_bytes_inside.
  - rewrite length_dispatch_bytes. unfold in_dispatch_field in Hf. lia.
Qed.

(** C7: on the insert path of [glvndGenerateEntrypoint] (no live record has
    the name, there is room, the slab is there), when [strdup] fails the
    call returns null and leaves the count and the whole table as they
    were; when it succeeds, the record of index [count] has the name and
    [assigned = 0] before [GenerateEntrypointFunc] runs, that call fills in
    the pointers, copies the template and stores [DefaultDispatchFunc] as
    the target, all with the count as it was, and only then the count goes
    up by one and the executable pointer of the record is returned. *)
Theorem C7_name_copy_failure arch ddf s os_alloc name :
  reachable arch ddf s -> AllocExecPages_ok os_alloc ->
  (forall e, e ∈ live s -> ~ same_name name e) ->
  (entrypointCount s < GENERATED_ENTRYPOINT_MAX)%nat ->
  entrypointBufferExec s <> NULL \/ os_alloc <> None ->
  let c := entrypointCount s in
  let s1 := after_init os_alloc s in
  let e_new := new_entry arch s1 c name in
  (exists s',
     glvndGenerateEntrypoint arch ddf os_alloc false name s = Done NULL s' /\
     s' = log (EvStrdup name false) s1 /\
     entrypointCount s' = entrypointCount s /\
     entrypoints s' = entrypoints s) /\
  (exists s_pre s_mid s',
     entrypointCount s_pre = c /\
     entrypoints s_pre !! c =
       Some (mkEntrypoint (Some (c_str name)) NULL NULL 0) /\
     GenerateEntrypointFunc arch ddf c c s_pre = Done tt s_mid /\
     entrypointCount s_mid = c /\
     entrypoints s_mid !! c = Some e_new /\
     assigned e_new = 0 /\
     load_bytes (mem s_mid) (entrypointWrite e_new + DISPATCH_FUNC_OFFSET arch)
       (dispatch_size arch) = dispatch_bytes arch e_new ddf /\
     (forall (k : nat) b,
        STUB_TEMPLATE arch !! k = Some b ->
        ~ in_dispatch_field arch e_new (entrypointWrite e_new + Z.of_nat k) ->
        mem s_mid (entrypointWrite e_new + Z.of_nat k) = b) /\
     s' = set_entrypointCount (S c) s_mid /\
     glvndGenerateEntrypoint arch ddf os_alloc true name s =
       Done (entrypointExec e_new) s' /\
     (forall i, (i < c)%nat -> entrypoints s' !! i = entrypoints s !! i)).
Proof.
  intros Hr Hok Hfresh Hlt Hav c s1 e_new.
  pose proof (reachable_inv _ _ _ Hr) as Hinv.
  pose proof (after_init_inv _ _ _ Hinv Hok) as Hinv1. fold s1 in Hinv1.
  pose proof (after_init_available _ _ _ Hinv Hok Hav) as Hne. fold s1 in Hne.
  assert (entrypointCount s1 = c) as Hc by apply after_init_count.
  assert (entrypoints s1 = entrypoints s) as He by apply after_init_entrypoints.
  assert (first_match name (live s1) = None) as Hf.
  { unfold s1. rewrite after_init_live. by apply first_match_None. }
  assert (entrypoints s1 !! c = Some zero_entrypoint) as Hz.
  { rewrite <- Hc. apply (inv_unused _ _ Hinv1). lia. }
  assert (c < length (entrypoints s1))%nat as Hlen.
  { rewrite (inv_length _ _ Hinv1). done. }
  assert (forall os_strdup,
            generate_result arch ddf os_alloc os_strdup name s =
            if os_strdup then (entrypointExec e_new, inserted arch ddf name s1)
            else (NULL, log (EvStrdup name false) s1)) as Hres.
  { intros os_strdup. unfold generate_result. fold s1. cbn zeta.
    destruct (Z.eqb_spec (entrypointBufferExec s1) NULL); [done |].
    rewrite Hf, Hc.
    by destruct (Nat.ltb_spec c GENERATED_ENTRYPOINT_MAX); [| lia]. }
  split.
  - exists (log (EvStrdup name false) s1).
    rewrite generate_closed_form, Hres by done. cbn [fst snd].
    split; [done |]. split; [done |]. split; [exact Hc | exact He].
  - set (e_pre := mkEntrypoint (Some (c_str name)) NULL NULL 0).
    set (s_pre := set_entrypoints (<[c := e_pre]> (entrypoints s1))
                    (log (EvStrdup name true) s1)).
    assert (entrypoints s_pre !! c = Some e_pre) as Hpre
      by (by apply list_lookup_insert_eq).
    assert (generated arch ddf c c e_pre s_pre =
            set_entrypointCount c (inserted arch ddf name s1)) as Hmid.
    { unfold generated, templated, inserted, patched, generated_entry, new_entry,
        s_pre.
      cbn. rewrite list_insert_insert_eq, Hc. done. }
    exists s_pre, (generated arch ddf c c e_pre s_pre),
      (inserted arch ddf name s1).
    split; [done |]. split; [done |].
    split.
    { apply GenerateEntrypointFunc_Done; [done |].
      intros _. unfold s_pre. cbn [entrypointBufferExec set_entrypoints log].
      rewrite Z.even_add, (pages_ok_even _ _ (inv_initialised _ _ Hinv1 Hne)).
      unfold STUB_ENTRY_SIZE. rewrite Z.even_mul. simpl. by rewrite orb_true_r. }
    rewrite Hmid. split; [done |].
    split.
    { unfold inserted. cbn [entrypoints set_entrypointCount]. rewrite Hc.
      by apply list_lookup_insert_eq. }
    split; [done |].
    split.
    { cbn [mem set_entrypointCount]. unfold e_new. rewrite <- Hc.
      apply inserted_mem_field. }
    split.
    { intros k b. cbn [mem set_entrypointCount]. unfold e_new. rewrite <- Hc.
      apply inserted_mem_template. }
    split.
    { unfold inserted, set_entrypointCount. cbn. by rewrite Hc. }
    split.
    { rewrite generate_closed_form, Hres by done. done. }
    intros i Hi. unfold inserted. cbn [entrypoints]. rewrite Hc.
    rewrite list_lookup_insert_ne by lia. by rewrite He.
Qed.

(** ** Teardown *)

Lemma freed_trace s :
  trace (freed s) =
  trace s ++ ((fun e => EvFree (procName e)) <$> live s) ++
  (if decide (entrypointBufferExec s = NULL) then [] else [free_pages_event s]).
Proof.
  unfold freed.
  destruct (Z.eqb_spec (entrypointBufferExec s) NULL) as [E|NE].
  - rewrite decide_True by done. cbn. by rewrite app_nil_r.
  - rewrite decide_False by done. cbn. by rewrite <- app_assoc.
Qed.

Lemma freed_buffers arch s :
  state_inv arch s ->
  entrypointBufferWrite (freed s) = NULL /\ entrypointBufferExec (freed s) = NULL.
Proof.
  intros Hinv. destruct (freed_fields s) as (_ & He & _ & Hw1 & Hw2).
  split; [| done].
  destruct (decide (entrypointBufferExec s = NULL)) as [E|NE]; [| by apply Hw2].
  rewrite Hw1 by done.
  destruct (inv_slab _ _ Hinv) as [(? & _) | Hp]; [done |].
  apply pages_ok_nonnull in Hp. tauto.
Qed.

(** C8: [glvndFreeEntrypoints] leaves a state that a second call leaves as
    it is; on a module that was never initialised (no record, no slab) it
    changes nothing and calls nothing.  After it the count is 0, every
    record of the table is cleared, both base pointers are null; the names
    of the live records were freed, in order, and the slab was released
    exactly when there was one.  The next call to
    [glvndGenerateEntrypoint] allocates a slab again and fills the record
    of index 0. *)
Theorem C8_free_idempotent arch ddf s :
  reachable arch ddf s ->
  exists s1,
    glvndFreeEntrypoints s = Done tt s1 /\
    glvndFreeEntrypoints s1 = Done tt s1 /\
    (entrypointCount s = 0%nat -> entrypointBufferExec s = NULL -> s1 = s) /\
    entrypointCount s1 = 0%nat /\
    entrypoints s1 = replicate GENERATED_ENTRYPOINT_MAX zero_entrypoint /\
    entrypointBufferWrite s1 = NULL /\
    entrypointBufferExec s1 = NULL /\
    trace s1 =
      trace s ++ ((fun e => EvFree (procName e)) <$> live s) ++
      (if decide (entrypointBufferExec s = NULL) then []
       else [free_pages_event s]) /\
    (forall w e name,
       pages_ok w e ->
       exists s2,
         glvndGenerateEntrypoint arch ddf (Some (w, e)) true name s1 =
           Done (e + thumb_bit arch) s2 /\
         entrypointCount s2 = 1%nat /\
         entrypoints s2 !! 0%nat =
           Some (mkEntrypoint (Some (c_str name)) w (e + thumb_bit arch) 0) /\
         entrypointBufferWrite s2 = w /\
         entrypointBufferExec s2 = e /\
         trace s2 =
           trace s1 ++ [alloc_event (Some (w, e)); EvStrdup name true] ++
           flush_events arch
             (mkEntrypoint (Some (c_str name)) w (e + thumb_bit arch) 0)).
Proof.
  intros Hr. pose proof (reachable_inv _ _ _ Hr) as Hinv.
  assert (entrypointCount s <= length (entrypoints s))%nat as Hlen.
  { rewrite (inv_length _ _ Hinv). apply Hinv. }
  pose proof (freed_inv _ _ Hinv) as Hinv1.
  destruct (freed_fields s) as (Hc1 & He1 & _).
  destruct (freed_buffers _ _ Hinv) as [Hw1 _].
  exists (freed s).
  split; [by apply free_closed_form |].
  split; [by apply free_pristine |].
  split.
  { intros Hc He. pose proof (free_pristine s Hc He) as Hp.
    rewrite free_closed_form in Hp by done. by injection Hp. }
  split; [done |].
  split; [by apply (freed_entrypoints arch) |].
  split; [done |]. split; [done |].
  split; [apply freed_trace |].
  intros w e name Hp.
  assert (live (freed s) = []) as Hl by (unfold live; by rewrite Hc1).
  destruct (generate_fresh arch ddf w e name (freed s) Hinv1 Hp) as (Hg & _).
  { by rewrite Hl. }
  { rewrite Hc1. unfold GENERATED_ENTRYPOINT_MAX. lia. }
  assert (after_init (Some (w, e)) (freed s) =
          set_buffers w e (log (alloc_event (Some (w, e))) (freed s))) as Ha.
  { unfold after_init. by rewrite He1. }
  rewrite Ha, Hc1 in Hg.
  assert (new_entry arch
            (set_buffers w e (log (alloc_event (Some (w, e))) (freed s))) 0 name =
          mkEntrypoint (Some (c_str name)) w (e + thumb_bit arch) 0) as Hn.
  { unfold new_entry. cbn. by rewrite !Z.add_0_r. }
  rewrite Hn in Hg. cbn [entrypointExec] in Hg.
  eexists. split; [exact Hg |].
  unfold inserted.
  cbn [entrypointCount entrypoints entrypointBufferWrite entrypointBufferExec
       trace set_buffers log].
  rewrite Hc1, Hn.
  split; [done |].
  split.
  { apply list_lookup_insert_eq. rewrite (inv_length _ _ Hinv1).
    unfold GENERATED_ENTRYPOINT_MAX. lia. }
  split; [done |]. split; [done |].
  by rewrite <- !app_assoc.
Qed.

(** ** The slab *)

Lemma after_init_trace os_alloc s :
  entrypointBufferExec s = NULL ->
  trace (after_init os_alloc s) = trace s ++ [alloc_event os_alloc].
Proof.
  intros E. unfold after_init. rewrite E. simpl.
  by destruct os_alloc as [[w e]|].
Qed.

Lemma generate_result_trace arch ddf os_alloc os_strdup name s :
  exists t,
    trace (generate_result arch ddf os_alloc os_strdup name s).2 =
    trace (after_init os_alloc s) ++ t.
Proof.
  unfold generate_result. cbn zeta.
  destruct (_ =? _); [exists []; by rewrite app_nil_r |].
  destruct (first_match _ _); [exists []; by rewrite app_nil_r |].
  destruct (_ <? _)%nat; [| exists []; by rewrite app_nil_r].
  destruct os_strdup; cbn [snd].
  - eexists. unfold inserted. cbn [trace]. by rewrite <- app_assoc.
  - by eexists.
Qed.

Lemma inv_buffers_null arch s :
  state_inv arch s ->
  entrypointBufferWrite s = NULL <-> entrypointBufferExec s = NULL.
Proof.
  intros Hinv. destruct (inv_slab _ _ Hinv) as [(? & ? & _) | Hp]; [done |].
  apply pages_ok_nonnull in Hp. tauto.
Qed.

(** C9: the two base pointers are null together or not null together.  When
    the slab is there, [InitEntrypoints] succeeds and calls nothing.  When
    it is not and [AllocExecPages] fails, [InitEntrypoints] reports the
    failure and both base pointers stay null, [glvndGenerateEntrypoint]
    returns null, and the next call to [glvndGenerateEntrypoint] calls
    [AllocExecPages] again; when [AllocExecPages] answers,
    [InitEntrypoints] succeeds and both base pointers are set. *)
Theorem C9_slab_init arch ddf s :
  reachable arch ddf s ->
  (entrypointBufferWrite s = NULL <-> entrypointBufferExec s = NULL) /\
  (forall os_alloc,
     entrypointBufferExec s <> NULL -> InitEntrypoints os_alloc s = Done 0 s) /\
  (entrypointBufferExec s = NULL ->
   let s_fail := log (alloc_event None) s in
   InitEntrypoints None s = Done (-1) s_fail /\
   entrypointBufferWrite s_fail = NULL /\
   entrypointBufferExec s_fail = NULL /\
   (forall os_strdup name,
      glvndGenerateEntrypoint arch ddf None os_strdup name s =
        Done NULL s_fail) /\
   (forall os_alloc os_strdup name,
      AllocExecPages_ok os_alloc ->
      exists r s' t,
        glvndGenerateEntrypoint arch ddf os_alloc os_strdup name s_fail =
          Done r s' /\
        trace s' = trace s_fail ++ [alloc_event os_alloc] ++ t) /\
   (forall w e,
      pages_ok w e ->
      exists s',
        InitEntrypoints (Some (w, e)) s = Done 0 s' /\
        entrypointBufferWrite s' = w /\ entrypointBufferExec s' = e /\
        w <> NULL /\ e <> NULL)).
Proof.
  intros Hr. pose proof (reachable_inv _ _ _ Hr) as Hinv.
  split; [by apply (inv_buffers_null arch) |].
  split; [intros os_alloc Hne; by apply InitEntrypoints_initialised |].
  intros E s_fail.
  split; [by apply InitEntrypoints_fail |].
  split; [exact (proj2 (inv_buffers_null arch s Hinv) E) |].
  split; [done |].
  split; [intros os_strdup name; by apply generate_alloc_fail |].
  split.
  - intros os_alloc os_strdup name Hok.
    assert (state_inv arch s_fail) as Hinv'.
    { split; simpl; apply Hinv. }
    destruct (generate_result_trace arch ddf os_alloc os_strdup name s_fail) as [t Ht].
    eexists _, _, t. split; [by apply generate_closed_form |].
    rewrite Ht, after_init_trace by done. by rewrite <- app_assoc.
  - intros w e Hp. eexists. split; [by apply InitEntrypoints_alloc |].
    split; [done |]. split; [done |]. by apply pages_ok_nonnull.
Qed.

(** ** Names of the live records *)

Lemma InitEntrypoints_after_init os_alloc s :
  exists rc, InitEntrypoints os_alloc s = Done rc (after_init os_alloc s) /\
    (rc = 0 \/ rc = -1).
Proof.
  unfold InitEntrypoints, after_init. rewrite bind_gets.
  destruct (entrypointBufferExec s =? NULL); [| by exists 0; auto].
  rewrite bind_emit. destruct os_alloc as [[w e]|].
  - exists 0. by auto.
  - exists (-1). by auto.
Qed.

Lemma after_init_names os_alloc s :
  names_inv s -> names_inv (after_init os_alloc s).
Proof.
  unfold names_inv.
  by rewrite after_init_live, after_init_count, after_init_entrypoints.
Qed.

Lemma inserted_names arch ddf name s :
  names_inv s -> (entrypointCount s < GENERATED_ENTRYPOINT_MAX)%nat ->
  names_inv (inserted arch ddf name s).
Proof.
  intros (Hlen & Hc & Hn) Hlt. split; [| split].
  - unfold inserted. cbn [entrypoints]. by rewrite length_insert.
  - unfold inserted. cbn [entrypointCount]. lia.
  - rewrite live_inserted by lia.
    intros e [He | ->%list_elem_of_singleton]%elem_of_app; [by apply Hn | done].
Qed.

Lemma generate_names arch ddf os_alloc os_strdup name s :
  names_inv s ->
  match glvndGenerateEntrypoint arch ddf os_alloc os_strdup name s with
  | Done _ s' => names_inv s'
  | Stuck f => f = AssertFail
  end.
Proof.
  intros Hinv. pose proof (after_init_names os_alloc s Hinv) as Hinv1.
  destruct (InitEntrypoints_after_init os_alloc s) as (rc & Hinit & [-> | ->]).
  - set (s1 := after_init os_alloc s) in *.
    destruct Hinv1 as (Hlen & Hc & Hn).
    assert (entrypointCount s1 <= length (entrypoints s1))%nat as Hle by lia.
    destruct (first_match name (live s1)) as [stub|] eqn:Ef.
    { by rewrite (generate_found_from arch ddf os_alloc name s s1 Hinit Hle Hn
                    os_strdup stub Ef). }
    destruct (Nat.le_gt_cases GENERATED_ENTRYPOINT_MAX (entrypointCount s1))
      as [Hfull | Hlt].
    { by rewrite (generate_full_from arch ddf os_alloc name s s1 Hinit Hle Hn
                    os_strdup Ef Hfull). }
    destruct (lookup_lt_is_Some_2 (entrypoints s1) (entrypointCount s1))
      as [e He]; [lia |].
    destruct os_strdup.
    + destruct (generate_insert_cases arch ddf os_alloc name s s1 Hinit Hle Hn
                  e Ef Hlt He) as [-> | ->]; [| done].
      by apply inserted_names.
    + rewrite (generate_strdup_fail_from arch ddf os_alloc name s s1 Hinit Hle Hn
                 e Ef Hlt He).
      split; [| split].
      * cbn [entrypoints set_entrypoints]. by rewrite length_insert.
      * done.
      * unfold live. cbn [entrypoints entrypointCount set_entrypoints log].
        by rewrite take_insert_ge.
  - unfold glvndGenerateEntrypoint. by rewrite (bind_Done _ _ _ _ _ Hinit).
Qed.

Lemma update_entrypoint_cases arch callback param i e s :
  entrypoints s !! i = Some e ->
  update_entrypoint arch callback param i s =
    Done tt (set_entrypoints (<[i := update_record callback param e]> (entrypoints s))
               (update_step arch callback param e s)) \/
  update_entrypoint arch callback param i s = Stuck AssertFail.
Proof.
  intros He. unfold update_entrypoint, update_record, update_step, resolved.
  rewrite (bind_Done _ _ _ _ _ (get_entry_Done _ _ _ He)).
  destruct (assigned e =? 0); simpl.
  - rewrite bind_emit.
    destruct (callback (procName e) param =? NULL); simpl.
    + left. unfold ret. f_equal. rewrite list_insert_id by done.
      unfold set_entrypoints, log. by simpl.
    + edestruct SetDispatchFuncPointer_cases as [Hd | Hs]; cycle 1.
      * left. rewrite (bind_Done _ _ _ _ _ Hd).
        by erewrite modify_entry_Done by done.
      * right. by apply bind_Stuck.
      * done.
  - left. unfold ret. f_equal. rewrite list_insert_id by done.
    by rewrite set_entrypoints_id.
Qed.

Lemma update_names arch callback param s :
  names_inv s ->
  match glvndUpdateEntrypoints arch callback param s with
  | Done _ s' => names_inv s'
  | Stuck f => f = AssertFail
  end.
Proof.
  intros (Hlen & Hc & Hn).
  assert (entrypointCount s <= length (entrypoints s))%nat as Hle by lia.
  unfold glvndUpdateEntrypoints. rewrite bind_gets.
  destruct (for_loop_cases (update_entrypoint arch callback param)
              (update_record callback param) (update_step arch callback param)
              (update_entrypoint_cases arch callback param)
              (update_step_set_entrypoints arch callback param)
              (entrypointCount s) 0 s Hle) as [-> | ->]; [| done].
  assert (loop_result (update_record callback param)
            (update_step arch callback param) (entrypointCount s) 0 s =
          updated arch callback param s) as ->.
  { unfold loop_result, updated, live. by rewrite drop_0, take_0. }
  split; [| split].
  - by rewrite updated_length.
  - by destruct (updated_fields arch callback param s) as (_ & _ & ->).
  - rewrite live_updated by done.
    intros e' (e & -> & He)%list_elem_of_fmap.
    destruct (update_record_fields callback param e) as (-> & _).
    by apply Hn.
Qed.

Lemma free_names s :
  names_inv s ->
  match glvndFreeEntrypoints s with
  | Done _ s' => names_inv s'
  | Stuck f => f = AssertFail
  end.
Proof.
  intros (Hlen & Hc & Hn).
  rewrite free_closed_form by lia.
  destruct (freed_fields s) as (Hc0 & _).
  split; [| split].
  - assert (entrypoints (freed s) =
            replicate (entrypointCount s) zero_entrypoint ++
            drop (entrypointCount s) (entrypoints s)) as ->.
    { unfold freed. by destruct (_ =? _). }
    rewrite length_app, length_replicate, length_drop. lia.
  - lia.
  - unfold live. rewrite Hc0. by intros e ?%elem_of_nil.
Qed.

Lemma do_call_names arch ddf c s :
  names_inv s ->
  match do_call arch ddf c s with
  | Done _ s' => names_inv s'
  | Stuck f => f = AssertFail
  end.
Proof.
  intros Hinv. destruct c as [os_alloc os_strdup name | callback param |]; simpl.
  - by apply generate_names.
  - pose proof (update_names arch callback param s Hinv) as H. unfold bind.
    by destruct (glvndUpdateEntrypoints arch callback param s).
  - pose proof (free_names s Hinv) as H. unfold bind.
    by destruct (glvndFreeEntrypoints s).
Qed.

Lemma do_calls_names arch ddf cs : forall s,
  names_inv s ->
  match do_calls arch ddf cs s with
  | Done _ s' => names_inv s'
  | Stuck f => f = AssertFail
  end.
Proof.
  induction cs as [|c cs IH]; intros s Hinv; [done |].
  cbn [do_calls]. unfold bind at 1.
  pose proof (do_call_names arch ddf c s Hinv) as Hc.
  destruct (do_call arch ddf c s) as [r s1|f]; [| done].
  unfold bind at 1. specialize (IH s1 Hc).
  by destruct (do_calls arch ddf cs s1).
Qed.

Lemma init_state_names m : names_inv (init_state m).
Proof.
  split; [apply length_replicate |]. split; [cbn; lia |].
  by intros e ?%elem_of_nil.
Qed.

(** C10: whatever the calls to the three functions, whatever the allocator,
    [strdup] and the callbacks answer, from the start of the program: after
    the calls every live record has a name that is not null, and the scan
    of [glvndGenerateEntrypoint] for any name compares it with every live
    record and returns, without reading through a null pointer.  The only
    way the run of calls stops is a failed assertion (the Thumb bit, when
    the allocator hands out an odd address), never a null name. *)
Theorem C10_live_names_nonnull arch ddf m cs :
  match do_calls arch ddf cs (init_state m) with
  | Done _ s =>
      (forall i, (i < entrypointCount s)%nat ->
         exists e n, entrypoints s !! i = Some e /\ procName e = Some n) /\
      (forall name,
         find_entrypoint (entrypointCount s) 0 name s =
           Done (first_match name (live s)) s) /\
      (forall os_alloc os_strdup name,
         glvndGenerateEntrypoint arch ddf os_alloc os_strdup name s <>
           Stuck NullDeref)
  | Stuck f => f = AssertFail
  end.
Proof.
  pose proof (do_calls_names arch ddf cs (init_state m) (init_state_names m)) as H.
  destruct (do_calls arch ddf cs (init_state m)) as [rs s|f]; [| done].
  destruct H as (Hlen & Hc & Hn).
  split; [| split].
  - intros i Hi.
    destruct (lookup_lt_is_Some_2 (entrypoints s) i) as [e He]; [lia |].
    assert (procName e <> None) as Hne.
    { apply Hn. apply list_elem_of_lookup. exists i. by apply live_lookup. }
    destruct (procName e) as [n|] eqn:En; [| done].
    by exists e, n.
  - intros name. rewrite find_entrypoint_Done; [| simpl; lia |].
    + by rewrite drop_0.
    + by rewrite drop_0.
  - intros os_alloc os_strdup name Hs.
    pose proof (generate_names arch ddf os_alloc os_strdup name s
                  (conj Hlen (conj Hc Hn))) as Hg.
    rewrite Hs in Hg. done.
Qed.

(** ** The scenario *)

Lemma reachable_state_after arch ddf cs s :
  reachable arch ddf s -> Forall call_ok cs ->
  reachable arch ddf (state_after arch ddf cs s).
Proof.
  intros Hr Hok. unfold state_after.
  destruct (do_calls arch ddf cs s) as [rs s'|f] eqn:E; [| done].
  by apply (reachable_do_calls arch ddf cs s rs s').
Qed.

Lemma Demo_pages_ok : AllocExecPages_ok Demo.pages.
Proof. unfold Demo.pages, AllocExecPages_ok, pages_ok. by vm_compute. Qed.

Lemma Demo_two_stubs_reachable arch :
  reachable arch Demo.default_dispatch (Demo.two_stubs arch).
Proof.
  apply reachable_state_after; [apply reachable_init |].
  repeat constructor; apply Demo_pages_ok.
Qed.

Lemma Demo_c_str_letters k : c_str (Demo.letters k) = Demo.letters k.
Proof. induction k as [|k IH]; [done |]. cbn. by rewrite IH. Qed.

Lemma Demo_length_letters k : String.length (Demo.letters k) = k.
Proof. induction k as [|k IH]; [done |]. cbn. by rewrite IH. Qed.

Lemma Demo_letters_NoDup n :
  NoDup (c_str <$> ((Demo.letters <$> seq 0 n) ++ [Demo.letters n])).
Proof.
  assert (c_str <$> ((Demo.letters <$> seq 0 n) ++ [Demo.letters n]) =
          Demo.letters <$> seq 0 (S n)) as ->.
  { rewrite seq_S, !fmap_app, <- list_fmap_compose. cbn [fmap list_fmap].
    rewrite Demo_c_str_letters.
    rewrite (list_fmap_ext (c_str ∘ Demo.letters) Demo.letters); [done |].
    intros _ k _. apply Demo_c_str_letters. }
  apply NoDup_fmap_2; [| apply NoDup_seq].
  intros j k E. by rewrite <- (Demo_length_letters j), E, Demo_length_letters.
Qed.

Lemma Demo_names_NoDup :
  NoDup (c_str <$> (Demo.names ++ [Demo.one_more])).
Proof. exact (Demo_letters_NoDup GENERATED_ENTRYPOINT_MAX). Qed.

(** ** Runs of the embedding *)

Example strcmp_same : strcmp "glFoo" "glFoo" = 0.
Proof. reflexivity. Qed.

Example strcmp_longer : strcmp "glFoo" "glFooBar" = -66.
Proof. reflexivity. Qed.

(** [strcmp] and [strdup] stop at the first NUL of a buffer. *)
Example strcmp_stops_at_nul :
  strcmp (String "a" (String "000" (String "b" EmptyString))) "a" = 0 /\
  c_str (String "a" (String "000" (String "b" EmptyString))) = "a"%string.
Proof. split; reflexivity. Qed.

Example template_armv7_bytes :
  STUB_TEMPLATE USE_ARMV7_ASM =
    [0xdf; 0xf8; 0x04; 0xc0; 0x60; 0x47; 0x00; 0xbf; 0x00; 0x00; 0x00; 0x00].
Proof. reflexivity. Qed.

(** The first stub on x86: jmp rel32 with
    rel32 = 0x8000 - 0x20000 - 5 = 0xfffe7ffb. *)
Example first_stub_x86 :
  load_bytes (mem (Demo.two_stubs USE_X86_ASM)) 0x10000 5 =
    [0xe9; 0xfb; 0x7f; 0xfe; 0xff].
Proof. vm_compute. reflexivity. Qed.

(** The second stub on x86-64: movabs $0x8000,%rax ; jmp *%rax. *)
Example second_stub_x86_64 :
  load_bytes (mem (Demo.two_stubs USE_X86_64_ASM)) 0x10010 12 =
    [0x48; 0xb8; 0x00; 0x80; 0; 0; 0; 0; 0; 0; 0xff; 0xe0].
Proof. vm_compute. reflexivity. Qed.

(** The second stub on ARMv7: the template with the literal 0x00008000. *)
Example second_stub_armv7 :
  load_bytes (mem (Demo.two_stubs USE_ARMV7_ASM)) 0x10010 12 =
    [0xdf; 0xf8; 0x04; 0xc0; 0x60; 0x47; 0x00; 0xbf; 0x00; 0x80; 0x00; 0x00].
Proof. vm_compute. reflexivity. Qed.

(** The calls that left the module while the two stubs were generated on
    ARMv7, and what the three calls returned. *)
Example two_stubs_armv7_trace :
  trace (Demo.two_stubs USE_ARMV7_ASM) =
    [EvAllocExecPages 65536 (Some (0x10000, 0x20000));
     EvStrdup "glFoo" true; EvClearCache 0x20000 0x2000c;
     EvStrdup "glBar" true; EvClearCache 0x20010 0x2001c].
Proof. vm_compute. reflexivity. Qed.

Example generate_again_returns :
  exists s,
    do_calls USE_ARMV7_ASM Demo.default_dispatch
      [Demo.generate "glFoo"; Demo.generate "glBar"; Demo.generate "glFoo"]
      (init_state Demo.memory) = Done [0x20001; 0x20011; 0x20001] s.
Proof. eexists. vm_compute. reflexivity. Qed.

(** An update with the vendor of the scenario, then a second one with a
    vendor that resolves everything: "glFoo" keeps its first target. *)
Example update_twice_x86_64 :
  exists s,
    do_calls USE_X86_64_ASM Demo.default_dispatch
      [CallUpdate Demo.vendor 0; CallUpdate (fun _ _ => 0x40000) 0]
      (Demo.two_stubs USE_X86_64_ASM) = Done [NULL; NULL] s /\
    load_bytes (mem s) (0x10000 + 2) 8 = le_bytes 8 0x30000 /\
    load_bytes (mem s) (0x10010 + 2) 8 = le_bytes 8 0x40000 /\
    callback_calls (trace s) =
      [(Some "glFoo"%string, 0); (Some "glBar"%string, 0);
       (Some "glBar"%string, 0)].
Proof. eexists. vm_compute. repeat split; reflexivity. Qed.

(** The embedding does fault where the C code would: a live record without
    a name stops the scan, and an allocator that hands out an odd address
    trips the assertion of the Thumb build. *)
Example scan_null_name :
  find_entrypoint 1 0 "glFoo"
    (mkState [zero_entrypoint] NULL NULL 1 Demo.memory []) = Stuck NullDeref.
Proof. reflexivity. Qed.

Example thumb_assert_odd_pages :
  glvndGenerateEntrypoint USE_ARMV7_ASM Demo.default_dispatch
    (Some (0x10000, 0x20001)) true "glFoo" (init_state Demo.memory) =
    Stuck AssertFail.
Proof. vm_compute. reflexivity. Qed.

(** ** The theorems at the scenario *)

(** C1 at the scenario: "glFoo" is generated on the fresh module, then
    "glBar" is generated and an update runs; the next call for "glFoo"
    returns the first stub again. *)
Lemma C1_generate_idempotent_witness :
  reachable USE_X86_ASM Demo.default_dispatch Demo.fresh /\
  AllocExecPages_ok Demo.pages /\
  exists s1,
    glvndGenerateEntrypoint USE_X86_ASM Demo.default_dispatch Demo.pages true
      "glFoo" Demo.fresh = Done 0x20000 s1 /\
    0x20000 <> NULL /\
    exists rs s2,
      do_calls USE_X86_ASM Demo.default_dispatch
        [Demo.generate "glBar"; CallUpdate Demo.vendor 0] s1 = Done rs s2 /\
      glvndGenerateEntrypoint USE_X86_ASM Demo.default_dispatch None false
        "glFoo" s2 = Done 0x20000 s2 /\
      find_entrypoint (entrypointCount s2) 0 "glFoo" s2 = Done (Some 0x20000) s2 /\
      exists i e,
        (i < entrypointCount s2)%nat /\ entrypoints s2 !! i = Some e /\
        same_name "glFoo" e /\ entrypointExec e = 0x20000 /\
        forall j e', (j < i)%nat -> entrypoints s2 !! j = Some e' ->
                     ~ same_name "glFoo" e'.
Proof.
  split; [apply reachable_init |].
  split; [apply Demo_pages_ok |].
  eexists. split; [vm_compute; reflexivity |].
  split; [discriminate |].
  apply (C1_generate_idempotent USE_X86_ASM Demo.default_dispatch
           Demo.fresh Demo.pages true "glFoo" 0x20000).
  - apply reachable_init.
  - apply Demo_pages_ok.
  - vm_compute; reflexivity.
  - discriminate.
  - repeat constructor; apply Demo_pages_ok.
  - repeat constructor.
Defined.

(** C2 at the scenario: the vendor resolves "glFoo" and not "glBar". *)
Lemma C2_update_unassigned_only_witness :
  reachable USE_X86_ASM Demo.default_dispatch Demo.two_stubs_x86 /\
  exists s',
    glvndUpdateEntrypoints USE_X86_ASM Demo.vendor 7 Demo.two_stubs_x86 =
      Done tt s' /\
    entrypointCount s' = entrypointCount Demo.two_stubs_x86 /\
    callback_calls (trace s') =
      callback_calls (trace Demo.two_stubs_x86) ++
      ((fun e => (procName e, 7)) <$>
       filter (fun e => assigned e = 0) (live Demo.two_stubs_x86)) /\
    forall i e,
      (i < entrypointCount Demo.two_stubs_x86)%nat ->
      entrypoints Demo.two_stubs_x86 !! i = Some e ->
      (assigned e <> 0 ->
       entrypoints s' !! i = Some e /\
       forall a, in_slot e a -> mem s' a = mem Demo.two_stubs_x86 a) /\
      (assigned e = 0 -> Demo.vendor (procName e) 7 = NULL ->
       entrypoints s' !! i = Some e /\
       forall a, in_slot e a -> mem s' a = mem Demo.two_stubs_x86 a) /\
      (assigned e = 0 -> Demo.vendor (procName e) 7 <> NULL ->
       entrypoints s' !! i = Some (set_assigned 1 e) /\
       load_bytes (mem s') (entrypointWrite e + DISPATCH_FUNC_OFFSET USE_X86_ASM)
         (dispatch_size USE_X86_ASM) =
         dispatch_bytes USE_X86_ASM e (Demo.vendor (procName e) 7) /\
       forall a, in_slot e a -> ~ in_dispatch_field USE_X86_ASM e a ->
                 mem s' a = mem Demo.two_stubs_x86 a).
Proof.
  split; [apply Demo_two_stubs_reachable |].
  apply (C2_update_unassigned_only USE_X86_ASM Demo.default_dispatch
           Demo.vendor 7 Demo.two_stubs_x86).
  apply Demo_two_stubs_reachable.
Defined.

(** C3 at the scenario: 4096 names of different lengths, and one more. *)
Lemma C3_capacity_witness :
  reachable USE_X86_64_ASM Demo.default_dispatch Demo.fresh /\
  entrypointCount Demo.fresh = 0%nat /\
  pages_ok 0x10000 0x20000 /\
  length Demo.names = GENERATED_ENTRYPOINT_MAX /\
  NoDup (c_str <$> (Demo.names ++ [Demo.one_more])) /\
  GENERATED_ENTRYPOINT_MAX = 4096%nat /\
  (exists stubs s',
     do_calls USE_X86_64_ASM Demo.default_dispatch
       (CallGenerate (Some (0x10000, 0x20000)) true <$> Demo.names)
       Demo.fresh = Done stubs s' /\
     length stubs = GENERATED_ENTRYPOINT_MAX /\
     Forall (fun p => p <> NULL) stubs /\
     entrypointCount s' = GENERATED_ENTRYPOINT_MAX /\
     glvndGenerateEntrypoint USE_X86_64_ASM Demo.default_dispatch Demo.pages true
       Demo.one_more s' = Done NULL s' /\
     Forall2
       (fun n p =>
          glvndGenerateEntrypoint USE_X86_64_ASM Demo.default_dispatch Demo.pages
            true n s' = Done p s')
       Demo.names stubs) /\
  (forall t name,
     reachable USE_X86_64_ASM Demo.default_dispatch t ->
     entrypointCount t = GENERATED_ENTRYPOINT_MAX ->
     (forall e, e ∈ live t -> ~ same_name name e) ->
     glvndGenerateEntrypoint USE_X86_64_ASM Demo.default_dispatch Demo.pages true
       name t = Done NULL t).
Proof.
  assert (length Demo.names = GENERATED_ENTRYPOINT_MAX) as Hlen.
  { unfold Demo.names. by rewrite length_fmap, length_seq. }
  split; [apply reachable_init |].
  split; [reflexivity |].
  split; [apply Demo_pages_ok |].
  split; [exact Hlen |].
  split; [apply Demo_names_NoDup |].
  apply (C3_capacity USE_X86_64_ASM Demo.default_dispatch Demo.fresh
           0x10000 0x20000 Demo.names Demo.one_more Demo.pages true).
  - apply reachable_init.
  - reflexivity.
  - apply Demo_pages_ok.
  - exact Hlen.
  - apply Demo_names_NoDup.
Defined.

(** C4 at the scenario: the stub of "glFoo", at 0x20000 in the executable
    view and 0x10000 in the write view, is patched for the target 0x30000;
    the offset is 0x30000 - 0x20000 - 5 = 0xfffb. *)
Lemma C4_x86_patch_witness :
  entrypoints Demo.two_stubs_x86 !! 0%nat = Some Demo.foo_entry /\
  exists s',
    SetDispatchFuncPointer USE_X86_ASM 0 0x30000 Demo.two_stubs_x86 =
      Done tt s' /\
    ptr_bits USE_X86_ASM = 8 * Z.of_nat (sizeof_ptr USE_X86_ASM) /\
    - 2 ^ 31 <= 0xfffb < 2 ^ 31 /\
    0xfffb mod 2 ^ 32 = (0x30000 - 0x20000 - 5) mod 2 ^ 32 /\
    load_bytes (mem s') (0x10000 + 1) 4 = le_bytes 4 0xfffb /\
    le_value (load_bytes (mem s') (0x10000 + 1) 4) =
      (0x30000 - 0x20000 - 5) mod 2 ^ 32 /\
    (forall a, ~ (0x10000 + 1 <= a < 0x10000 + 5) ->
               mem s' a = mem Demo.two_stubs_x86 a) /\
    entrypoints s' = entrypoints Demo.two_stubs_x86 /\
    trace s' = trace Demo.two_stubs_x86.
Proof.
  assert (entrypoints Demo.two_stubs_x86 !! 0%nat = Some Demo.foo_entry) as He
    by (vm_compute; reflexivity).
  split; [exact He |].
  exact (C4_x86_patch Demo.two_stubs_x86 0 Demo.foo_entry 0x30000 He).
Defined.

(** C5 at the scenario: the Thumb stub of "glBar", the record of index 1. *)
Lemma C5_armv7_thumb_witness :
  reachable USE_ARMV7_ASM Demo.default_dispatch Demo.two_stubs_thumb /\
  (1 < entrypointCount Demo.two_stubs_thumb)%nat /\
  entrypoints Demo.two_stubs_thumb !! 1%nat = Some Demo.bar_entry_thumb /\
  let base :=
    entrypointBufferExec Demo.two_stubs_thumb + Z.of_nat 1 * STUB_ENTRY_SIZE in
  let W := entrypointWrite Demo.bar_entry_thumb in
  entrypointExec Demo.bar_entry_thumb = base + 1 /\
  Z.land (entrypointExec Demo.bar_entry_thumb) 1 = 1 /\
  Z.even base = true /\
  (exists s',
     SetDispatchFuncPointer USE_ARMV7_ASM 1 0x30001 Demo.two_stubs_thumb =
       Done tt s' /\
     load_bytes (mem s') (W + 8) 4 = le_bytes 4 (wrap_unsigned 32 0x30001) /\
     le_value (load_bytes (mem s') (W + 8) 4) = 0x30001 mod 2 ^ 32 /\
     (forall a, ~ (W + 8 <= a < W + 12) ->
                mem s' a = mem Demo.two_stubs_thumb a) /\
     entrypoints s' = entrypoints Demo.two_stubs_thumb /\
     trace s' =
       trace Demo.two_stubs_thumb ++ [EvClearCache base (base + 12)]) /\
  (forall t j e0,
     entrypoints t !! j = Some e0 ->
     Z.land (entrypointExec e0) 1 = 0 ->
     SetDispatchFuncPointer USE_ARMV7_ASM j 0x30001 t = Stuck AssertFail) /\
  (forall os_alloc os_strdup name p s',
     AllocExecPages_ok os_alloc ->
     glvndGenerateEntrypoint USE_ARMV7_ASM Demo.default_dispatch os_alloc
       os_strdup name Demo.two_stubs_thumb = Done p s' ->
     p <> NULL ->
     exists k, (k < entrypointCount s')%nat /\
       p = entrypointBufferExec s' + Z.of_nat k * STUB_ENTRY_SIZE + 1).
Proof.
  assert ((1 < entrypointCount Demo.two_stubs_thumb)%nat) as Hi
    by (vm_compute; lia).
  assert (entrypoints Demo.two_stubs_thumb !! 1%nat = Some Demo.bar_entry_thumb)
    as He by (vm_compute; reflexivity).
  split; [apply Demo_two_stubs_reachable |].
  split; [exact Hi |].
  split; [exact He |].
  exact (C5_armv7_thumb Demo.default_dispatch Demo.two_stubs_thumb 1
           Demo.bar_entry_thumb 0x30001
           (Demo_two_stubs_reachable USE_ARMV7_ASM) Hi He).
Defined.

(** C6 at the scenario. *)
Lemma C6_stub_layout_witness :
  reachable USE_ARMV7_ASM Demo.default_dispatch Demo.two_stubs_thumb /\
  STUB_ENTRY_SIZE = 16 /\
  (thumb_bit USE_ARMV7_ASM =
     if decide (USE_ARMV7_ASM = USE_ARMV7_ASM) then 1 else 0) /\
  (forall i, (i < entrypointCount Demo.two_stubs_thumb)%nat ->
     exists e, entrypoints Demo.two_stubs_thumb !! i = Some e /\
       entrypointWrite e =
         entrypointBufferWrite Demo.two_stubs_thumb +
         Z.of_nat i * STUB_ENTRY_SIZE /\
       entrypointExec e =
         entrypointBufferExec Demo.two_stubs_thumb +
         Z.of_nat i * STUB_ENTRY_SIZE + thumb_bit USE_ARMV7_ASM) /\
  (forall i j ei ej,
     (i < j)%nat -> (j < entrypointCount Demo.two_stubs_thumb)%nat ->
     entrypoints Demo.two_stubs_thumb !! i = Some ei ->
     entrypoints Demo.two_stubs_thumb !! j = Some ej ->
     entrypointWrite ei < entrypointWrite ej /\
     entrypointExec ei < entrypointExec ej) /\
  (forall cs,
     Forall call_ok cs -> Forall not_free cs ->
     exists rs s',
       do_calls USE_ARMV7_ASM Demo.default_dispatch cs Demo.two_stubs_thumb =
         Done rs s' /\
       keeps_live Demo.two_stubs_thumb s').
Proof.
  split; [apply Demo_two_stubs_reachable |].
  apply (C6_stub_layout USE_ARMV7_ASM Demo.default_dispatch Demo.two_stubs_thumb).
  apply Demo_two_stubs_reachable.
Defined.

(** C7 at the scenario: a third name, with and without memory for the
    copy. *)
Lemma C7_name_copy_failure_witness :
  reachable USE_X86_64_ASM Demo.default_dispatch Demo.two_stubs_x86_64 /\
  AllocExecPages_ok Demo.pages /\
  (forall e, e ∈ live Demo.two_stubs_x86_64 -> ~ same_name "glBaz" e) /\
  (entrypointCount Demo.two_stubs_x86_64 < GENERATED_ENTRYPOINT_MAX)%nat /\
  (entrypointBufferExec Demo.two_stubs_x86_64 <> NULL \/ Demo.pages <> None) /\
  let c := entrypointCount Demo.two_stubs_x86_64 in
  let s1 := after_init Demo.pages Demo.two_stubs_x86_64 in
  (exists s',
     glvndGenerateEntrypoint USE_X86_64_ASM Demo.default_dispatch Demo.pages
       false "glBaz" Demo.two_stubs_x86_64 = Done NULL s' /\
     s' = log (EvStrdup "glBaz" false) s1 /\
     entrypointCount s' = entrypointCount Demo.two_stubs_x86_64 /\
     entrypoints s' = entrypoints Demo.two_stubs_x86_64) /\
  (exists s_pre s_mid s',
     entrypointCount s_pre = c /\
     entrypoints s_pre !! c =
       Some (mkEntrypoint (Some (c_str "glBaz")) NULL NULL 0) /\
     GenerateEntrypointFunc USE_X86_64_ASM Demo.default_dispatch c c s_pre =
       Done tt s_mid /\
     entrypointCount s_mid = c /\
     entrypoints s_mid !! c = Some Demo.third_entry /\
     assigned Demo.third_entry = 0 /\
     load_bytes (mem s_mid)
       (entrypointWrite Demo.third_entry + DISPATCH_FUNC_OFFSET USE_X86_64_ASM)
       (dispatch_size USE_X86_64_ASM) =
       dispatch_bytes USE_X86_64_ASM Demo.third_entry Demo.default_dispatch /\
     (forall (k : nat) b,
        STUB_TEMPLATE USE_X86_64_ASM !! k = Some b ->
        ~ in_dispatch_field USE_X86_64_ASM Demo.third_entry
            (entrypointWrite Demo.third_entry + Z.of_nat k) ->
        mem s_mid (entrypointWrite Demo.third_entry + Z.of_nat k) = b) /\
     s' = set_entrypointCount (S c) s_mid /\
     glvndGenerateEntrypoint USE_X86_64_ASM Demo.default_dispatch Demo.pages
       true "glBaz" Demo.two_stubs_x86_64 =
       Done (entrypointExec Demo.third_entry) s' /\
     (forall i, (i < c)%nat ->
        entrypoints s' !! i = entrypoints Demo.two_stubs_x86_64 !! i)).
Proof.
  assert (forall e, e ∈ live Demo.two_stubs_x86_64 -> ~ same_name "glBaz" e)
    as Hfresh.
  { apply first_match_None. vm_compute. reflexivity. }
  assert (entrypointCount Demo.two_stubs_x86_64 < GENERATED_ENTRYPOINT_MAX)%nat
    as Hlt by (vm_compute; lia).
  assert (entrypointBufferExec Demo.two_stubs_x86_64 <> NULL \/
          Demo.pages <> None) as Hav by (right; discriminate).
  split; [apply Demo_two_stubs_reachable |].
  split; [apply Demo_pages_ok |].
  split; [exact Hfresh |].
  split; [exact Hlt |].
  split; [exact Hav |].
  exact (C7_name_copy_failure USE_X86_64_ASM Demo.default_dispatch
           Demo.two_stubs_x86_64 Demo.pages "glBaz"
           (Demo_two_stubs_reachable USE_X86_64_ASM) Demo_pages_ok
           Hfresh Hlt Hav).
Defined.

(** C8 at the scenario: the teardown of the module with two stubs. *)
Lemma C8_free_idempotent_witness :
  reachable USE_X86_ASM Demo.default_dispatch Demo.two_stubs_x86 /\
  exists s1,
    glvndFreeEntrypoints Demo.two_stubs_x86 = Done tt s1 /\
    glvndFreeEntrypoints s1 = Done tt s1 /\
    (entrypointCount Demo.two_stubs_x86 = 0%nat ->
     entrypointBufferExec Demo.two_stubs_x86 = NULL ->
     s1 = Demo.two_stubs_x86) /\
    entrypointCount s1 = 0%nat /\
    entrypoints s1 = replicate GENERATED_ENTRYPOINT_MAX zero_entrypoint /\
    entrypointBufferWrite s1 = NULL /\
    entrypointBufferExec s1 = NULL /\
    trace s1 =
      trace Demo.two_stubs_x86 ++
      ((fun e => EvFree (procName e)) <$> live Demo.two_stubs_x86) ++
      (if decide (entrypointBufferExec Demo.two_stubs_x86 = NULL) then []
       else [free_pages_event Demo.two_stubs_x86]) /\
    (forall w e name,
       pages_ok w e ->
       exists s2,
         glvndGenerateEntrypoint USE_X86_ASM Demo.default_dispatch
           (Some (w, e)) true name s1 =
           Done (e + thumb_bit USE_X86_ASM) s2 /\
         entrypointCount s2 = 1%nat /\
         entrypoints s2 !! 0%nat =
           Some (mkEntrypoint (Some (c_str name)) w
                   (e + thumb_bit USE_X86_ASM) 0) /\
         entrypointBufferWrite s2 = w /\
         entrypointBufferExec s2 = e /\
         trace s2 =
           trace s1 ++ [alloc_event (Some (w, e)); EvStrdup name true] ++
           flush_events USE_X86_ASM
             (mkEntrypoint (Some (c_str name)) w
                (e + thumb_bit USE_X86_ASM) 0)).
Proof.
  split; [apply Demo_two_stubs_reachable |].
  apply (C8_free_idempotent USE_X86_ASM Demo.default_dispatch Demo.two_stubs_x86).
  apply Demo_two_stubs_reachable.
Defined.

(** C9 at the scenario: the module before its first call. *)
Lemma C9_slab_init_witness :
  reachable USE_X86_ASM Demo.default_dispatch Demo.fresh /\
  (entrypointBufferWrite Demo.fresh = NULL <->
   entrypointBufferExec Demo.fresh = NULL) /\
  (forall os_alloc,
     entrypointBufferExec Demo.fresh <> NULL ->
     InitEntrypoints os_alloc Demo.fresh = Done 0 Demo.fresh) /\
  (entrypointBufferExec Demo.fresh = NULL ->
   let s_fail := log (alloc_event None) Demo.fresh in
   InitEntrypoints None Demo.fresh = Done (-1) s_fail /\
   entrypointBufferWrite s_fail = NULL /\
   entrypointBufferExec s_fail = NULL /\
   (forall os_strdup name,
      glvndGenerateEntrypoint USE_X86_ASM Demo.default_dispatch None os_strdup
        name Demo.fresh = Done NULL s_fail) /\
   (forall os_alloc os_strdup name,
      AllocExecPages_ok os_alloc ->
      exists r s' t,
        glvndGenerateEntrypoint USE_X86_ASM Demo.default_dispatch os_alloc
          os_strdup name s_fail = Done r s' /\
        trace s' = trace s_fail ++ [alloc_event os_alloc] ++ t) /\
   (forall w e,
      pages_ok w e ->
      exists s',
        InitEntrypoints (Some (w, e)) Demo.fresh = Done 0 s' /\
        entrypointBufferWrite s' = w /\ entrypointBufferExec s' = e /\
        w <> NULL /\ e <> NULL)).
Proof.
  split; [apply reachable_init |].
  apply (C9_slab_init USE_X86_ASM Demo.default_dispatch Demo.fresh).
  apply reachable_init.
Defined.

(** * Further properties *)

(** ** Reading the memory *)

Lemma length_load_bytes m a n : length (load_bytes m a n) = n.
Proof. revert a; induction n as [|n IH]; intros a; simpl; [done | by rewrite IH]. Qed.

Lemma load_bytes_lookup m a n (k : nat) b :
  load_bytes m a n !! k = Some b -> m (a + Z.of_nat k) = b.
Proof.
  revert a k; induction n as [|n IH]; intros a k; simpl; [done |].
  destruct k as [|k]; simpl.
  - intros [= <-]. f_equal. lia.
  - intros H%IH. rewrite <- H. f_equal. lia.
Qed.

Lemma load_bytes_eq m a l :
  (forall (k : nat) b, l !! k = Some b -> m (a + Z.of_nat k) = b) ->
  load_bytes m a (length l) = l.
Proof.
  revert a; induction l as [|b l IH]; intros a H; simpl; [done |].
  f_equal.
  - rewrite <- (H 0%nat b eq_refl). f_equal. lia.
  - apply IH. intros k b' Hk. rewrite <- (H (S k) b' Hk). f_equal. lia.
Qed.

(** Bytes stored over the middle of a run of bytes. *)
Lemma load_bytes_store_middle m a pre old new post :
  load_bytes m a (length (pre ++ old ++ post)) = pre ++ old ++ post ->
  length new = length old ->
  load_bytes (store_bytes m (a + Z.of_nat (length pre)) new) a
    (length (pre ++ old ++ post)) = pre ++ new ++ post.
Proof.
  intros Hm Hlen.
  replace (length (pre ++ old ++ post)) with (length (pre ++ new ++ post))
    by (rewrite !length_app; lia).
  apply load_bytes_eq. intros k b Hk.
  destruct (decide (k < length pre)%nat) as [Hpre | Hpre].
  - rewrite store_bytes_outside by lia.
    apply (load_bytes_lookup m a (length (pre ++ old ++ post))).
    rewrite Hm. rewrite lookup_app_l in Hk |- * by done. done.
  - rewrite lookup_app_r in Hk by lia.
    destruct (decide (k - length pre < length new)%nat) as [Hnew | Hnew].
    + rewrite lookup_app_l in Hk by done.
      replace (a + Z.of_nat k)
        with (a + Z.of_nat (length pre) + Z.of_nat (k - length pre)) by lia.
      by apply store_bytes_inside.
    + rewrite lookup_app_r in Hk by lia.
      rewrite store_bytes_outside by lia.
      apply (load_bytes_lookup m a (length (pre ++ old ++ post))).
      rewrite Hm. rewrite lookup_app_r by lia. rewrite lookup_app_r by lia.
      rewrite <- Hk. f_equal. lia.
Qed.

(** ** The patch of the x86-64 build *)

(** X1: on the x86-64 build, patching the stub of a record for a target
    that fits a pointer never fails and stores the eight bytes of the
    target, least significant first, at the offsets 2 to 9 of the write
    view of the stub, so that the operand of the movabs reads back as the
    target itself, however far from the stub it lies; no other byte of the
    memory changes, the table is left alone and nothing is flushed. *)
Theorem X1_x86_64_patch s entry e T :
  entrypoints s !! entry = Some e ->
  0 <= T < 2 ^ 64 ->
  exists s',
    SetDispatchFuncPointer USE_X86_64_ASM entry T s = Done tt s' /\
    load_bytes (mem s') (entrypointWrite e + 2) 8 = le_bytes 8 T /\
    le_value (load_bytes (mem s') (entrypointWrite e + 2) 8) = T /\
    (forall a, ~ (entrypointWrite e + 2 <= a < entrypointWrite e + 10) ->
               mem s' a = mem s a) /\
    entrypoints s' = entrypoints s /\
    entrypointCount s' = entrypointCount s /\
    trace s' = trace s.
Proof.
  intros He HT. exists (patched USE_X86_64_ASM e T s).
  split; [by apply SetDispatchFuncPointer_Done |].
  assert (load_bytes (mem (patched USE_X86_64_ASM e T s))
            (entrypointWrite e + 2) 8 = le_bytes 8 T) as Hload
    by apply (patched_load USE_X86_64_ASM e T s).
  split; [done |].
  split.
  { rewrite Hload, le_value_le_bytes. change (256 ^ Z.of_nat 8) with (2 ^ 64).
    by apply Z.mod_small. }
  split.
  { intros a Ha. apply patched_mem_outside.
    unfold in_dispatch_field. cbn. lia. }
  split; [done |]. split; [done |]. cbn. apply app_nil_r.
Qed.

(** X1 at the scenario: a target more than 2 GiB above the stub. *)
Lemma X1_x86_64_patch_witness :
  entrypoints Demo.two_stubs_x86_64 !! 0%nat =
    Some (mkEntrypoint (Some "glFoo"%string) 0x10000 0x20000 0) /\
  0 <= 0x7f0012345678 < 2 ^ 64 /\
  exists s',
    SetDispatchFuncPointer USE_X86_64_ASM 0 0x7f0012345678
      Demo.two_stubs_x86_64 = Done tt s' /\
    load_bytes (mem s') (0x10000 + 2) 8 = le_bytes 8 0x7f0012345678 /\
    le_value (load_bytes (mem s') (0x10000 + 2) 8) = 0x7f0012345678 /\
    (forall a, ~ (0x10000 + 2 <= a < 0x10000 + 10) ->
               mem s' a = mem Demo.two_stubs_x86_64 a) /\
    entrypoints s' = entrypoints Demo.two_stubs_x86_64 /\
    entrypointCount s' = entrypointCount Demo.two_stubs_x86_64 /\
    trace s' = trace Demo.two_stubs_x86_64.
Proof.
  assert (entrypoints Demo.two_stubs_x86_64 !! 0%nat =
            Some (mkEntrypoint (Some "glFoo"%string) 0x10000 0x20000 0)) as He
    by (vm_compute; reflexivity).
  assert (0 <= 0x7f0012345678 < 2 ^ 64) as HT by lia.
  split; [exact He |]. split; [exact HT |].
  exact (X1_x86_64_patch Demo.two_stubs_x86_64 0 _ 0x7f0012345678 He HT).
Defined.

(** ** The contents of the live stubs *)

Lemma stub_geometry arch :
  let o := Z.to_nat (DISPATCH_FUNC_OFFSET arch) in
  length (take o (STUB_TEMPLATE arch)) = o /\
  Z.of_nat o = DISPATCH_FUNC_OFFSET arch /\
  (o + dispatch_size arch <= length (STUB_TEMPLATE arch))%nat /\
  (length (STUB_TEMPLATE arch) <= 16)%nat /\
  STUB_TEMPLATE arch =
    take o (STUB_TEMPLATE arch) ++
    take (dispatch_size arch) (drop o (STUB_TEMPLATE arch)) ++
    drop (o + dispatch_size arch) (STUB_TEMPLATE arch).
Proof. destruct arch; vm_compute; repeat split; lia. Qed.






Lemma inserted_mem_outside arch ddf name s a :
  ~ in_slot (new_entry arch s (entrypointCount s) name) a ->
  mem (inserted arch ddf name s) a = mem s a.
Proof.
  intros Ha. unfold inserted. cbn [mem].
  destruct (stub_geometry arch) as (_ & Hoff & Hfit & Hlen & _).
  unfold in_slot, STUB_ENTRY_SIZE in Ha.
  rewrite store_bytes_outside by (rewrite length_dispatch_bytes; lia).
  apply store_bytes_outside. lia.
Qed.


Lemma after_init_mem os_alloc s : mem (after_init os_alloc s) = mem s.
Proof.
  unfold after_init. destruct (_ =? _); [| done]. by destruct os_alloc as [[??]|].
Qed.









(** ** Where the module writes *)

Lemma live_slot_in_slab arch s i e a :
  state_inv arch s ->
  (i < entrypointCount s)%nat -> entrypoints s !! i = Some e ->
  in_slot e a -> in_slab s a.
Proof.
  intros Hinv Hi He Ha.
  destruct (inv_live _ _ Hinv i e Hi He) as (_ & Hw & _).
  pose proof (inv_count _ _ Hinv) as Hc.
  unfold in_slot, in_slab, STUB_ENTRY_SIZE in *. lia.
Qed.

Lemma updated_mem_outside arch callback param s a :
  (forall e, e ∈ live s -> ~ in_slot e a) ->
  mem (updated arch callback param s) a = mem s a.
Proof.
  intros Hout. rewrite updated_mem. apply foldl_update_mem_outside.
  intros e He _ Hf. apply (Hout e He). by eapply dispatch_field_in_slot.
Qed.

Lemma generate_result_mem_outside arch ddf os_alloc os_strdup name s a :
  state_inv arch s ->
  let s' := (generate_result arch ddf os_alloc os_strdup name s).2 in
  (forall i e, (i < entrypointCount s')%nat -> entrypoints s' !! i = Some e ->
               ~ in_slot e a) ->
  mem s' a = mem s a.
Proof.
  intros Hinv. unfold generate_result. cbn zeta.
  pose proof (after_init_mem os_alloc s) as Hm.
  assert (length (entrypoints (after_init os_alloc s)) = GENERATED_ENTRYPOINT_MAX)
    as Hlen by (rewrite after_init_entrypoints; apply Hinv).
  set (s1 := after_init os_alloc s) in *.
  destruct (_ =? _); [by rewrite <- Hm |].
  destruct (first_match _ _); [by rewrite <- Hm |].
  destruct (Nat.ltb_spec (entrypointCount s1) GENERATED_ENTRYPOINT_MAX) as [Hlt|];
    [| by rewrite <- Hm].
  destruct os_strdup; [| by rewrite <- Hm].
  cbn [snd]. intros Hout. rewrite <- Hm. apply inserted_mem_outside.
  apply (Hout (entrypointCount s1)).
  - unfold inserted. cbn [entrypointCount]. lia.
  - unfold inserted. cbn [entrypoints]. apply list_lookup_insert_eq. lia.
Qed.

Lemma do_call_mem_outside arch ddf c s r s' a :
  state_inv arch s -> call_ok c ->
  do_call arch ddf c s = Done r s' ->
  (forall i e, (i < entrypointCount s')%nat -> entrypoints s' !! i = Some e ->
               ~ in_slot e a) ->
  mem s' a = mem s a.
Proof.
  intros Hinv Hok Hc.
  assert (entrypointCount s <= length (entrypoints s))%nat as Hlen.
  { rewrite (inv_length _ _ Hinv). apply Hinv. }
  destruct c as [os_alloc os_strdup name | callback param |]; simpl in *.
  - rewrite generate_closed_form in Hc by done. injection Hc as _ <-.
    by apply generate_result_mem_outside.
  - erewrite bind_Done in Hc by (by apply update_closed_form).
    injection Hc as _ <-. intros Hout. apply updated_mem_outside.
    intros e [i Hl]%list_elem_of_lookup.
    apply live_lookup in Hl as [Hi He].
    destruct (updated_fields arch callback param s) as (_ & _ & Hcnt).
    destruct (update_record_fields callback param e) as (_ & Hw & _).
    specialize (Hout i (update_record callback param e)).
    rewrite Hcnt, updated_lookup, decide_True, He in Hout by done.
    unfold in_slot in *. rewrite Hw in Hout. by apply Hout.
  - erewrite bind_Done in Hc by (by apply free_closed_form).
    injection Hc as _ <-. intros _.
    destruct (freed_fields s) as (_ & _ & Hm & _). by rewrite Hm.
Qed.

(** X3: a call writes to the slab and nowhere else.  Whatever a call of
    the module changes in memory lies in the 16 bytes of a record that is
    live when the call returns, so inside the write view of the slab the
    module holds then; [glvndFreeEntrypoints] changes no byte at all
    (the stubs are not wiped before the pages go back). *)
Theorem X3_writes_stay_in_slab arch ddf c s :
  reachable arch ddf s -> call_ok c ->
  exists r s',
    do_call arch ddf c s = Done r s' /\
    (forall a,
       (forall i e, (i < entrypointCount s')%nat ->
                    entrypoints s' !! i = Some e -> ~ in_slot e a) ->
       mem s' a = mem s a) /\
    (forall a, ~ in_slab s' a -> mem s' a = mem s a) /\
    (c = CallFree -> mem s' = mem s).
Proof.
  intros Hr Hok. pose proof (reachable_inv _ _ _ Hr) as Hinv.
  destruct (do_call_Done arch ddf c s Hinv Hok) as (r & s' & Hc & Hinv').
  exists r, s'. split; [done |].
  assert (forall a,
    (forall i e, (i < entrypointCount s')%nat ->
                 entrypoints s' !! i = Some e -> ~ in_slot e a) ->
    mem s' a = mem s a) as Hout
    by (intros a; by apply (do_call_mem_outside arch ddf c s r s' a)).
  split; [exact Hout |]. split.
  - intros a Ha. apply Hout. intros i e Hi He Hs. apply Ha.
    by apply (live_slot_in_slab arch s' i e a).
  - intros ->. simpl in Hc.
    erewrite bind_Done in Hc; cycle 1.
    { apply free_closed_form. rewrite (inv_length _ _ Hinv). apply Hinv. }
    injection Hc as _ <-. apply freed_fields.
Qed.

(** X3 at the scenario: a third entrypoint is generated. *)
Lemma X3_writes_stay_in_slab_witness :
  reachable USE_X86_ASM Demo.default_dispatch Demo.two_stubs_x86 /\
  call_ok (Demo.generate "glBaz") /\
  exists r s',
    do_call USE_X86_ASM Demo.default_dispatch (Demo.generate "glBaz")
      Demo.two_stubs_x86 = Done r s' /\
    (forall a,
       (forall i e, (i < entrypointCount s')%nat ->
                    entrypoints s' !! i = Some e -> ~ in_slot e a) ->
       mem s' a = mem Demo.two_stubs_x86 a) /\
    (forall a, ~ in_slab s' a -> mem s' a = mem Demo.two_stubs_x86 a) /\
    (Demo.generate "glBaz" = CallFree -> mem s' = mem Demo.two_stubs_x86).
Proof.
  split; [apply Demo_two_stubs_reachable |].
  split; [apply Demo_pages_ok |].
  apply (X3_writes_stay_in_slab USE_X86_ASM Demo.default_dispatch
           (Demo.generate "glBaz") Demo.two_stubs_x86).
  - apply Demo_two_stubs_reachable.
  - apply Demo_pages_ok.
Defined.

(** ** One record for a name, one name for a stub *)

Lemma first_match_c_str a b l :
  c_str a = c_str b -> first_match a l = first_match b l.
Proof.
  intros Hab. induction l as [| e l IH]; [done |]. cbn [first_match].
  destruct (procName e) as [n |]; [| done]. rewrite IH.
  destruct (Z.eqb_spec (strcmp a n) 0) as [Ha | Ha],
           (Z.eqb_spec (strcmp b n) 0) as [Hb | Hb]; try done.
  - exfalso. apply Hb, strcmp_0_iff. rewrite <- Hab. by apply strcmp_0_iff.
  - exfalso. apply Ha, strcmp_0_iff. rewrite Hab. by apply strcmp_0_iff.
Qed.

Lemma live_exec_inj arch s i j e e' :
  state_inv arch s ->
  live s !! i = Some e -> live s !! j = Some e' ->
  entrypointExec e = entrypointExec e' -> i = j.
Proof.
  intros Hinv [Hi He]%live_lookup [Hj He']%live_lookup Heq.
  destruct (inv_live _ _ Hinv i e Hi He) as (_ & _ & Hx).
  destruct (inv_live _ _ Hinv j e' Hj He') as (_ & _ & Hx').
  unfold STUB_ENTRY_SIZE in *. lia.
Qed.

Lemma stub_determines_name arch s a b p :
  state_inv arch s ->
  first_match a (live s) = Some p -> first_match b (live s) = Some p ->
  c_str a = c_str b.
Proof.
  intros Hinv (i & e & Hi & (n & Hn & Ha) & Hp & _)%first_match_Some
              (j & e' & Hj & (n' & Hn' & Hb) & Hp' & _)%first_match_Some.
  assert (i = j) as -> by (apply (live_exec_inj arch s i j e e'); congruence).
  congruence.
Qed.

Lemma generate_result_unique arch ddf os_alloc os_strdup name s :
  state_inv arch s -> unique_names s ->
  unique_names (generate_result arch ddf os_alloc os_strdup name s).2.
Proof.
  intros Hinv [Hnd Hnorm].
  destruct (generate_result_live arch ddf os_alloc os_strdup name s Hinv)
    as [[Hl _] | (e & Hl & _ & Hnone & _ & He & _)];
    unfold unique_names; rewrite Hl; [done |].
  assert (procName e = Some (c_str name)) as Hpn by by rewrite He.
  split.
  - rewrite fmap_app. apply NoDup_app. split; [done |]. split.
    + intros x (e' & -> & He')%list_elem_of_fmap Hx.
      apply list_elem_of_singleton in Hx.
      apply (proj1 (first_match_None name (live s)) Hnone e' He').
      exists (c_str name). split; [congruence |]. by rewrite c_str_idemp.
    + apply NoDup_singleton.
  - intros e' [He' | ->%list_elem_of_singleton]%elem_of_app; [by apply Hnorm |].
    exists (c_str name). split; [done |]. apply c_str_idemp.
Qed.

Lemma updated_unique arch callback param s :
  (entrypointCount s <= length (entrypoints s))%nat ->
  unique_names s -> unique_names (updated arch callback param s).
Proof.
  intros Hlen [Hnd Hnorm]. unfold unique_names. rewrite live_updated by done.
  split.
  - rewrite <- list_fmap_compose.
    erewrite list_fmap_ext; [exact Hnd |].
    intros ? e _. simpl. apply update_record_fields.
  - intros e' (e & -> & He)%list_elem_of_fmap.
    destruct (update_record_fields callback param e) as (-> & _).
    by apply Hnorm.
Qed.

Lemma reachable_unique arch ddf s : reachable arch ddf s -> unique_names s.
Proof.
  induction 1 as [m | s c r s' Hr IH Hok Hcall].
  - split; [apply NoDup_nil_2 | by intros e ?%elem_of_nil].
  - pose proof (reachable_inv _ _ _ Hr) as Hinv.
    assert (entrypointCount s <= length (entrypoints s))%nat as Hlen.
    { rewrite (inv_length _ _ Hinv). apply Hinv. }
    destruct c as [os_alloc os_strdup name | callback param |]; simpl in *.
    + rewrite generate_closed_form in Hcall by done. injection Hcall as _ <-.
      by apply generate_result_unique.
    + erewrite bind_Done in Hcall by (by apply update_closed_form).
      injection Hcall as _ <-. by apply updated_unique.
    + erewrite bind_Done in Hcall by (by apply free_closed_form).
      injection Hcall as _ <-.
      destruct (freed_fields s) as (Hc0 & _).
      unfold unique_names, live. rewrite Hc0, take_0.
      split; [apply NoDup_nil_2 | by intros e ?%elem_of_nil].
Qed.

(** X4: the table never holds a name twice.  In every state the module
    reaches, two different live records have names that [strcmp] tells
    apart, different entry addresses, and slots that share no byte. *)
Theorem X4_live_records_distinct arch ddf s :
  reachable arch ddf s ->
  forall i j e e',
    (i < entrypointCount s)%nat -> (j < entrypointCount s)%nat ->
    entrypoints s !! i = Some e -> entrypoints s !! j = Some e' ->
    i <> j ->
    (exists n n', procName e = Some n /\ procName e' = Some n' /\
                  strcmp n n' <> 0) /\
    entrypointExec e <> entrypointExec e' /\
    (forall a, in_slot e a -> ~ in_slot e' a).
Proof.
  intros Hr i j e e' Hi Hj He He' Hne.
  pose proof (reachable_inv _ _ _ Hr) as Hinv.
  destruct (reachable_unique _ _ _ Hr) as [Hnd Hnorm].
  assert (live s !! i = Some e) as Hl by by apply live_lookup.
  assert (live s !! j = Some e') as Hl' by by apply live_lookup.
  split; [| split].
  - destruct (Hnorm e) as (n & Hn & Hcn); [by eapply list_elem_of_lookup_2 |].
    destruct (Hnorm e') as (n' & Hn' & Hcn'); [by eapply list_elem_of_lookup_2 |].
    exists n, n'. split; [done |]. split; [done |].
    intros Heq%strcmp_0_iff. apply Hne.
    apply (NoDup_lookup _ i j (Some n) Hnd);
      rewrite list_lookup_fmap; [rewrite Hl | rewrite Hl']; simpl; congruence.
  - intros Heq. apply Hne. by apply (live_exec_inj arch s i j e e').
  - intros a Ha Ha'. apply Hne. by apply (live_slots_disjoint arch s i j e e' a).
Qed.

(** X4 at the scenario: the records of "glFoo" and "glBar". *)
Lemma X4_live_records_distinct_witness :
  reachable USE_X86_ASM Demo.default_dispatch Demo.two_stubs_x86 /\
  (0 < entrypointCount Demo.two_stubs_x86)%nat /\
  (1 < entrypointCount Demo.two_stubs_x86)%nat /\
  entrypoints Demo.two_stubs_x86 !! 0%nat = Some Demo.foo_entry /\
  entrypoints Demo.two_stubs_x86 !! 1%nat =
    Some (mkEntrypoint (Some "glBar"%string) 0x10010 0x20010 0) /\
  0%nat <> 1%nat /\
  (exists n n',
     procName Demo.foo_entry = Some n /\
     procName (mkEntrypoint (Some "glBar"%string) 0x10010 0x20010 0) = Some n' /\
     strcmp n n' <> 0) /\
  entrypointExec Demo.foo_entry <>
    entrypointExec (mkEntrypoint (Some "glBar"%string) 0x10010 0x20010 0) /\
  (forall a, in_slot Demo.foo_entry a ->
             ~ in_slot (mkEntrypoint (Some "glBar"%string) 0x10010 0x20010 0) a).
Proof.
  assert (0 < entrypointCount Demo.two_stubs_x86)%nat as H0
    by (vm_compute; lia).
  assert (1 < entrypointCount Demo.two_stubs_x86)%nat as H1
    by (vm_compute; lia).
  assert (entrypoints Demo.two_stubs_x86 !! 0%nat = Some Demo.foo_entry) as He
    by (vm_compute; reflexivity).
  assert (entrypoints Demo.two_stubs_x86 !! 1%nat =
          Some (mkEntrypoint (Some "glBar"%string) 0x10010 0x20010 0)) as He'
    by (vm_compute; reflexivity).
  assert (0%nat <> 1%nat) as Hne by lia.
  split; [apply Demo_two_stubs_reachable |].
  split; [exact H0 |]. split; [exact H1 |]. split; [exact He |].
  split; [exact He' |]. split; [exact Hne |].
  exact (X4_live_records_distinct USE_X86_ASM Demo.default_dispatch
           Demo.two_stubs_x86 (Demo_two_stubs_reachable USE_X86_ASM)
           0%nat 1%nat Demo.foo_entry
           (mkEntrypoint (Some "glBar"%string) 0x10010 0x20010 0)
           H0 H1 He He' Hne).
Defined.

Lemma generate_returns_match arch ddf os_alloc os_strdup name s p s1 :
  state_inv arch s -> AllocExecPages_ok os_alloc ->
  glvndGenerateEntrypoint arch ddf os_alloc os_strdup name s = Done p s1 ->
  p <> NULL ->
  state_inv arch s1 /\
  entrypointBufferExec s1 <> NULL /\ first_match name (live s1) = Some p.
Proof.
  intros Hinv Hok Hgen Hp.
  rewrite generate_closed_form in Hgen by done. injection Hgen as <- <-.
  split; [by apply generate_result_inv |].
  destruct (generate_result_buffers arch ddf os_alloc os_strdup name s) as [_ Hb].
  destruct (generate_result_live arch ddf os_alloc os_strdup name s Hinv)
    as [[Hl [Hnull | Hf]] | (e & Hl & Hp1 & Hnone & Hf & _ & _ & _ & _ & Hne)];
    [done | |].
  - rewrite Hl. split; [| done]. rewrite Hb.
    unfold generate_result in Hp |- *. cbn zeta in Hp.
    by destruct (Z.eqb_spec (entrypointBufferExec (after_init os_alloc s)) NULL).
  - rewrite Hb, Hl. split; [done |].
    by rewrite first_match_app_None.
Qed.

(** X5: a stub belongs to one name.  After [glvndGenerateEntrypoint] has
    returned the stub [p] for [name], and whatever was generated or updated
    since, a call for [name'] returns [p] exactly when [name'] and [name]
    are the same C string; a name that differs gets another stub or
    null. *)
Theorem X5_stub_identifies_name arch ddf s os_alloc os_strdup name p s1 cs
    os_alloc' os_strdup' name' :
  reachable arch ddf s -> AllocExecPages_ok os_alloc ->
  glvndGenerateEntrypoint arch ddf os_alloc os_strdup name s = Done p s1 ->
  p <> NULL ->
  Forall call_ok cs -> Forall not_free cs ->
  AllocExecPages_ok os_alloc' ->
  exists rs s2 p' s3,
    do_calls arch ddf cs s1 = Done rs s2 /\
    glvndGenerateEntrypoint arch ddf os_alloc' os_strdup' name' s2 = Done p' s3 /\
    (p' = p <-> c_str name' = c_str name).
Proof.
  intros Hr Hok Hgen Hp Hoks Hnfs Hok'.
  pose proof (reachable_inv _ _ _ Hr) as Hinv.
  destruct (generate_returns_match _ _ _ _ _ _ _ _ Hinv Hok Hgen Hp)
    as (Hinv1 & Hne1 & Hf1).
  destruct (do_calls_preserve arch ddf
              (fun s => entrypointBufferExec s <> NULL /\
                        first_match name (live s) = Some p)
              (do_call_keeps_match arch ddf name p) cs s1 Hinv1 (conj Hne1 Hf1)
              Hoks Hnfs) as (rs & s2 & Hd & Hinv2 & Hne2 & Hf2).
  exists rs, s2,
    (generate_result arch ddf os_alloc' os_strdup' name' s2).1,
    (generate_result arch ddf os_alloc' os_strdup' name' s2).2.
  split; [done |]. split; [by apply generate_closed_form |].
  assert (entrypointCount s2 <= length (entrypoints s2))%nat as Hlen.
  { rewrite (inv_length _ _ Hinv2). apply Hinv2. }
  pose proof (inv_live_names _ _ Hinv2) as Hnames.
  split.
  - intros Heq.
    pose proof (generate_closed_form arch ddf os_alloc' os_strdup' name' s2
                  Hinv2 Hok') as Hgen'.
    rewrite Heq in Hgen'.
    destruct (generate_returns_match _ _ _ _ _ _ _ _ Hinv2 Hok' Hgen' Hp)
      as (Hinv3 & _ & Hf3).
    apply (stub_determines_name arch _ name' name p Hinv3 Hf3).
    destruct (do_call_keeps_match arch ddf name p s2
                (CallGenerate os_alloc' os_strdup' name') p _ Hinv2
                (conj Hne2 Hf2) Hok' I Hgen') as [_ Hf3'].
    exact Hf3'.
  - intros Hc.
    assert (first_match name' (live s2) = Some p) as Hf2'
      by by rewrite (first_match_c_str name' name).
    pose proof (generate_found arch ddf os_alloc' name' s2 Hne2 Hlen Hnames
                  os_strdup' p Hf2') as Hfound.
    rewrite generate_closed_form in Hfound by done. by injection Hfound.
Qed.

(** X5 at the scenario: "glFoo", then "glBar" and an update, then a call
    for "glBar". *)
Lemma X5_stub_identifies_name_witness :
  reachable USE_X86_ASM Demo.default_dispatch Demo.fresh /\
  AllocExecPages_ok Demo.pages /\
  glvndGenerateEntrypoint USE_X86_ASM Demo.default_dispatch Demo.pages true
    "glFoo" Demo.fresh = Done 0x20000 Demo.one_stub_x86 /\
  0x20000 <> NULL /\
  Forall call_ok [Demo.generate "glBar"; CallUpdate Demo.vendor 0] /\
  Forall not_free [Demo.generate "glBar"; CallUpdate Demo.vendor 0] /\
  exists rs s2 p' s3,
    do_calls USE_X86_ASM Demo.default_dispatch
      [Demo.generate "glBar"; CallUpdate Demo.vendor 0] Demo.one_stub_x86 =
      Done rs s2 /\
    glvndGenerateEntrypoint USE_X86_ASM Demo.default_dispatch Demo.pages true
      "glBar" s2 = Done p' s3 /\
    (p' = 0x20000 <-> c_str "glBar" = c_str "glFoo").
Proof.
  assert (glvndGenerateEntrypoint USE_X86_ASM Demo.default_dispatch Demo.pages
            true "glFoo" Demo.fresh = Done 0x20000 Demo.one_stub_x86) as Hgen
    by (vm_compute; reflexivity).
  assert (0x20000 <> NULL) as Hp by discriminate.
  assert (Forall call_ok [Demo.generate "glBar"; CallUpdate Demo.vendor 0])
    as Hoks by (repeat constructor; apply Demo_pages_ok).
  assert (Forall not_free [Demo.generate "glBar"; CallUpdate Demo.vendor 0])
    as Hnfs by repeat constructor.
  split; [apply reachable_init |]. split; [apply Demo_pages_ok |].
  split; [exact Hgen |]. split; [exact Hp |].
  split; [exact Hoks |]. split; [exact Hnfs |].
  exact (X5_stub_identifies_name USE_X86_ASM Demo.default_dispatch Demo.fresh
           Demo.pages true "glFoo" 0x20000 Demo.one_stub_x86
           [Demo.generate "glBar"; CallUpdate Demo.vendor 0]
           Demo.pages true "glBar"
           (reachable_init _ _ _) Demo_pages_ok Hgen Hp Hoks Hnfs Demo_pages_ok).
Defined.

(** ** When no stub comes back *)

Lemma live_exec_nonnull arch s e :
  state_inv arch s -> e ∈ live s -> entrypointExec e <> NULL.
Proof.
  intros Hinv [i [Hi He]%live_lookup]%list_elem_of_lookup.
  destruct (inv_live _ _ Hinv i e Hi He) as (_ & _ & Hx).
  assert (entrypointBufferExec s <> NULL) as Hne
    by (apply (inv_live_initialised arch); [done | lia]).
  destruct (inv_initialised _ _ Hinv Hne) as (_ & Hpos & _).
  unfold NULL, STUB_ENTRY_SIZE in *. destruct arch; simpl in Hx; lia.
Qed.

Lemma first_match_nonnull arch s name p :
  state_inv arch s -> first_match name (live s) = Some p -> p <> NULL.
Proof.
  intros Hinv (i & e & Hi & _ & <- & _)%first_match_Some.
  apply (live_exec_nonnull arch s); [done |]. by eapply list_elem_of_lookup_2.
Qed.

(** X6: the three ways to get no stub.  On a state the module reaches,
    [glvndGenerateEntrypoint] returns, and it returns null exactly when the
    slab is missing and [AllocExecPages] fails, or when the name is not in
    the table and either the table is full or [strdup] fails.  In every
    other case the caller gets a stub. *)
Theorem X6_generate_null_iff arch ddf s os_alloc os_strdup name :
  reachable arch ddf s -> AllocExecPages_ok os_alloc ->
  exists p s',
    glvndGenerateEntrypoint arch ddf os_alloc os_strdup name s = Done p s' /\
    (p = NULL <->
     (entrypointBufferExec s = NULL /\ os_alloc = None) \/
     (first_match name (live s) = None /\
      (entrypointCount s = GENERATED_ENTRYPOINT_MAX \/ os_strdup = false))).
Proof.
  intros Hr Hok. pose proof (reachable_inv _ _ _ Hr) as Hinv.
  exists (generate_result arch ddf os_alloc os_strdup name s).1,
         (generate_result arch ddf os_alloc os_strdup name s).2.
  split; [by apply generate_closed_form |].
  pose proof (after_init_inv _ _ _ Hinv Hok) as Hinv1.
  pose proof (after_init_live os_alloc s) as Hl.
  pose proof (after_init_count os_alloc s) as Hc.
  pose proof (after_init_available arch os_alloc s Hinv Hok) as Hav.
  pose proof (inv_count _ _ Hinv) as Hle.
  unfold generate_result. cbn zeta.
  destruct (Z.eqb_spec (entrypointBufferExec (after_init os_alloc s)) NULL)
    as [Hnull | Hne]; cbn [fst].
  - split; [intros _ | done]. left.
    destruct (Z.eqb_spec (entrypointBufferExec s) NULL) as [Hs | Hs];
      [| by destruct Hav; [left |]].
    split; [done |]. destruct os_alloc as [p |]; [| done].
    by destruct Hav; [right |].
  - assert (~ (entrypointBufferExec s = NULL /\ os_alloc = None)) as Hnot.
    { intros [Hs ->]. apply Hne. unfold after_init.
      by destruct (Z.eqb_spec (entrypointBufferExec s) NULL). }
    rewrite Hl, Hc.
    destruct (first_match name (live s)) as [stub |] eqn:Hf; cbn [fst].
    { split.
      - intros ->. by apply (first_match_nonnull arch s name NULL) in Hf.
      - by intros [? | [? _]]. }
    destruct (Nat.ltb_spec (entrypointCount s) GENERATED_ENTRYPOINT_MAX) as [Hlt | Hge];
      cbn [fst].
    + destruct os_strdup; cbn [fst].
      * split.
        -- intros Hp. by apply (new_entry_nonnull arch) in Hp.
        -- intros [? | [_ [? | ?]]]; [done | lia | done].
      * split; [| done]. intros _. right. split; [done |]. by right.
    + split; [| done]. intros _. right. split; [done |]. left. lia.
Qed.

(** X6 at the scenario: a third name on the table of two. *)
Lemma X6_generate_null_iff_witness :
  reachable USE_X86_ASM Demo.default_dispatch Demo.two_stubs_x86 /\
  AllocExecPages_ok Demo.pages /\
  exists p s',
    glvndGenerateEntrypoint USE_X86_ASM Demo.default_dispatch Demo.pages false
      "glBaz" Demo.two_stubs_x86 = Done p s' /\
    (p = NULL <->
     (entrypointBufferExec Demo.two_stubs_x86 = NULL /\ Demo.pages = None) \/
     (first_match "glBaz" (live Demo.two_stubs_x86) = None /\
      (entrypointCount Demo.two_stubs_x86 = GENERATED_ENTRYPOINT_MAX \/
       false = false))).
Proof.
  split; [apply Demo_two_stubs_reachable |].
  split; [apply Demo_pages_ok |].
  exact (X6_generate_null_iff USE_X86_ASM Demo.default_dispatch
           Demo.two_stubs_x86 Demo.pages false "glBaz"
           (Demo_two_stubs_reachable USE_X86_ASM) Demo_pages_ok).
Defined.

(** ** What the module holds *)

Lemma owned_run_app o t1 t2 :
  owned_run o (t1 ++ t2) =
  match owned_run o t1 with
  | Some o' => owned_run o' t2
  | None => None
  end.
Proof.
  revert o. induction t1 as [| ev t1 IH]; intros o; [done |].
  cbn [app owned_run]. by destruct (owned_step o ev).
Qed.

Lemma owned_run_flush arch e o : owned_run o (flush_events arch e) = Some o.
Proof. by destruct arch. Qed.

Lemma owned_run_update arch callback param es o :
  owned_run o (flat_map (update_events arch callback param) es) = Some o.
Proof.
  induction es as [| e es IH]; [done |]. cbn [flat_map].
  rewrite owned_run_app. unfold update_events.
  destruct (assigned e =? 0); [| done]. cbn [owned_run owned_step].
  destruct (negb _); [by rewrite owned_run_flush |]. done.
Qed.

Lemma owned_run_frees slab es names :
  (forall e, e ∈ es -> procName e <> None) ->
  owned_run (slab, omap procName es ++ names)
    ((fun e => EvFree (procName e)) <$> es) = Some (slab, names).
Proof.
  induction es as [| e es IH]; intros Hn; [done |].
  destruct (procName e) as [n |] eqn:Hp; cycle 1.
  { exfalso. by apply (Hn e); [left |]. }
  cbn [fmap list_fmap owned_run owned_step]. rewrite Hp.
  change (omap procName (e :: es)) with
    (match procName e with
     | Some n => n :: omap procName es
     | None => omap procName es
     end).
  rewrite Hp. cbn [app fst snd]. rewrite String.eqb_refl. apply IH.
  intros e' He'. apply Hn. by right.
Qed.

Lemma slab_of_None s : entrypointBufferExec s = NULL -> slab_of s = None.
Proof. unfold slab_of. by intros ->. Qed.

Lemma slab_of_Some s :
  entrypointBufferExec s <> NULL ->
  slab_of s = Some (entrypointBufferWrite s, entrypointBufferExec s).
Proof.
  unfold slab_of. by destruct (Z.eqb_spec (entrypointBufferExec s) NULL).
Qed.

Lemma after_init_owned os_alloc s :
  AllocExecPages_ok os_alloc ->
  owned_run (None, []) (trace s) = Some (slab_of s, live_names s) ->
  owned_run (None, []) (trace (after_init os_alloc s)) =
    Some (slab_of (after_init os_alloc s), live_names (after_init os_alloc s)).
Proof.
  intros Hok Ho.
  assert (live_names (after_init os_alloc s) = live_names s) as ->
    by (unfold live_names; by rewrite after_init_live).
  destruct (Z.eqb_spec (entrypointBufferExec s) NULL) as [E | NE];
    [| by rewrite after_init_initialised].
  rewrite after_init_trace, owned_run_app, Ho, slab_of_None by done.
  unfold after_init. rewrite E. cbn [Z.eqb NULL].
  destruct os_alloc as [[w e] |]; cbn -[GENERATED_ENTRYPOINT_MAX].
  - apply pages_ok_nonnull in Hok as [_ He].
    rewrite slab_of_Some by done. done.
  - by rewrite slab_of_None.
Qed.

Lemma generate_result_owned arch ddf os_alloc os_strdup name s :
  state_inv arch s -> AllocExecPages_ok os_alloc ->
  owned_run (None, []) (trace s) = Some (slab_of s, live_names s) ->
  let s' := (generate_result arch ddf os_alloc os_strdup name s).2 in
  owned_run (None, []) (trace s') = Some (slab_of s', live_names s').
Proof.
  intros Hinv Hok Ho.
  pose proof (after_init_owned os_alloc s Hok Ho) as Ho1.
  pose proof (after_init_inv _ _ _ Hinv Hok) as Hinv1.
  unfold generate_result. cbn zeta.
  set (s1 := after_init os_alloc s) in *.
  destruct (Z.eqb_spec (entrypointBufferExec s1) NULL) as [E | NE]; [done |].
  destruct (first_match _ _); [done |].
  destruct (Nat.ltb_spec (entrypointCount s1) GENERATED_ENTRYPOINT_MAX) as [Hlt |];
    [| done].
  rewrite slab_of_Some in Ho1 by done.
  destruct os_strdup; cbn [snd].
  - unfold live_names. rewrite live_inserted, omap_app
      by (rewrite (inv_length _ _ Hinv1); lia).
    unfold inserted at 1 2. cbn [trace].
    rewrite !owned_run_app, Ho1. cbn [owned_run owned_step fst snd].
    rewrite owned_run_flush, slab_of_Some by done. done.
  - cbn [log trace]. rewrite owned_run_app, Ho1.
    cbn [owned_run owned_step fst snd]. by rewrite slab_of_Some.
Qed.

Lemma omap_update_record callback param (l : list GLVNDGenEntrypoint) :
  omap procName (update_record callback param <$> l) = omap procName l.
Proof.
  induction l as [| e l IH]; [done |].
  change (omap procName (update_record callback param <$> e :: l)) with
    (match procName (update_record callback param e) with
     | Some n => n :: omap procName (update_record callback param <$> l)
     | None => omap procName (update_record callback param <$> l)
     end).
  destruct (update_record_fields callback param e) as (-> & _).
  by rewrite IH.
Qed.

Lemma updated_owned arch callback param s :
  (entrypointCount s <= length (entrypoints s))%nat ->
  owned_run (None, []) (trace s) = Some (slab_of s, live_names s) ->
  let s' := updated arch callback param s in
  owned_run (None, []) (trace s') = Some (slab_of s', live_names s').
Proof.
  intros Hlen Ho s'. subst s'.
  destruct (updated_fields arch callback param s) as (Hw & Hx & _).
  unfold live_names, slab_of. rewrite live_updated, omap_update_record by done.
  rewrite Hw, Hx. unfold updated. cbn [set_entrypoints trace].
  rewrite foldl_update_trace, owned_run_app, Ho.
  apply owned_run_update.
Qed.

Lemma freed_owned arch s :
  state_inv arch s ->
  owned_run (None, []) (trace s) = Some (slab_of s, live_names s) ->
  owned_run (None, []) (trace (freed s)) = Some (None, []).
Proof.
  intros Hinv Ho.
  rewrite freed_trace, owned_run_app, Ho, owned_run_app.
  pose proof (owned_run_frees (slab_of s) (live s) [] (inv_live_names _ _ Hinv))
    as Hfr.
  rewrite app_nil_r in Hfr. unfold live_names. rewrite Hfr.
  destruct (decide (entrypointBufferExec s = NULL)) as [E | NE].
  - by rewrite slab_of_None.
  - rewrite slab_of_Some by done. unfold free_pages_event.
    cbn -[GENERATED_ENTRYPOINT_MAX Z.eqb].
    by rewrite !Z.eqb_refl.
Qed.

Lemma freed_holds_nothing s : slab_of (freed s) = None /\ live_names (freed s) = [].
Proof.
  destruct (freed_fields s) as (Hc & Hx & _). split.
  - by apply slab_of_None.
  - unfold live_names, live. by rewrite Hc, take_0.
Qed.

(** X7: the module releases what it acquired, once.  Replaying the calls
    that left the module ([AllocExecPages], [strdup], [free],
    [FreeExecPages]) against a ledger of what is held never fails: no
    second slab is requested while one is held, no name is copied without
    a slab, every [free] gets the oldest copy still held, and
    [FreeExecPages] gets the two views and the size of the allocation
    after all copies are gone.  What the ledger holds is what the state
    shows: the slab, and one copy for each live record in table order.
    After [glvndFreeEntrypoints] the ledger is empty. *)
Theorem X7_resources_balanced arch ddf s :
  reachable arch ddf s ->
  owned_run (None, []) (trace s) = Some (slab_of s, live_names s) /\
  exists s',
    glvndFreeEntrypoints s = Done tt s' /\
    owned_run (None, []) (trace s') = Some (None, []).
Proof.
  intros Hr.
  assert (owned_run (None, []) (trace s) = Some (slab_of s, live_names s)) as Ho.
  { induction Hr as [m | s c r s' Hr IH Hok Hcall]; [done |].
    pose proof (reachable_inv _ _ _ Hr) as Hinv.
    assert (entrypointCount s <= length (entrypoints s))%nat as Hlen.
    { rewrite (inv_length _ _ Hinv). apply Hinv. }
    destruct c as [os_alloc os_strdup name | callback param |]; simpl in *.
    - rewrite generate_closed_form in Hcall by done. injection Hcall as _ <-.
      by apply generate_result_owned.
    - erewrite bind_Done in Hcall by (by apply update_closed_form).
      injection Hcall as _ <-. by apply updated_owned.
    - erewrite bind_Done in Hcall by (by apply free_closed_form).
      injection Hcall as _ <-.
      destruct (freed_holds_nothing s) as [-> ->].
      by apply (freed_owned arch). }
  split; [exact Ho |].
  pose proof (reachable_inv _ _ _ Hr) as Hinv.
  exists (freed s). split.
  - apply free_closed_form. rewrite (inv_length _ _ Hinv). apply Hinv.
  - by apply (freed_owned arch).
Qed.

(** X7 at the scenario: two names and the slab are held. *)
Lemma X7_resources_balanced_witness :
  reachable USE_ARMV7_ASM Demo.default_dispatch Demo.two_stubs_thumb /\
  owned_run (None, []) (trace Demo.two_stubs_thumb) =
    Some (slab_of Demo.two_stubs_thumb, live_names Demo.two_stubs_thumb) /\
  exists s',
    glvndFreeEntrypoints Demo.two_stubs_thumb = Done tt s' /\
    owned_run (None, []) (trace s') = Some (None, []).
Proof.
  split; [apply Demo_two_stubs_reachable |].
  exact (X7_resources_balanced USE_ARMV7_ASM Demo.default_dispatch
           Demo.two_stubs_thumb (Demo_two_stubs_reachable USE_ARMV7_ASM)).
Defined.

(** ** Updating again *)

Lemma resolved_update_record callback param e :
  resolved callback param (update_record callback param e) = false.
Proof.
  unfold update_record. destruct (resolved callback param e) eqn:Hres; [| done].
  unfold resolved. by cbn.
Qed.

Lemma updated_settled arch callback param s :
  (entrypointCount s <= length (entrypoints s))%nat ->
  forall e, e ∈ live (updated arch callback param s) ->
            resolved callback param e = false.
Proof.
  intros Hlen e. rewrite live_updated by done.
  intros (e0 & -> & _)%list_elem_of_fmap. apply resolved_update_record.
Qed.

(** X8: a second update with the same answers changes nothing.  When
    [glvndUpdateEntrypoints] runs twice in a row with a callback that
    answers as before, the second run leaves every record and every byte
    of memory as the first run left them; it asks the callback again only
    for the records that are still unassigned, which are names the
    callback answers null to. *)
Theorem X8_update_again arch ddf callback param s :
  reachable arch ddf s ->
  exists s1 s2,
    glvndUpdateEntrypoints arch callback param s = Done tt s1 /\
    glvndUpdateEntrypoints arch callback param s1 = Done tt s2 /\
    entrypoints s2 = entrypoints s1 /\
    entrypointCount s2 = entrypointCount s1 /\
    (forall a, mem s2 a = mem s1 a) /\
    callback_calls (trace s2) =
      callback_calls (trace s1) ++
      ((fun e => (procName e, param)) <$>
       filter (fun e => assigned e = 0) (live s1)) /\
    forall e, e ∈ live s1 -> assigned e = 0 ->
              callback (procName e) param = NULL.
Proof.
  intros Hr. pose proof (reachable_inv _ _ _ Hr) as Hinv.
  assert (entrypointCount s <= length (entrypoints s))%nat as Hlen.
  { rewrite (inv_length _ _ Hinv). apply Hinv. }
  pose proof (updated_inv arch callback param s Hinv) as Hinv1.
  pose proof (updated_settled arch callback param s Hlen) as Hset.
  set (s1 := updated arch callback param s) in *.
  exists s1, (updated arch callback param s1).
  split; [by apply update_closed_form |].
  split; [by apply update_closed_form |].
  split; [| split; [apply updated_fields | split; [| split]]].
  - unfold updated at 1. cbn [set_entrypoints entrypoints].
    transitivity (live s1 ++ drop (entrypointCount s1) (entrypoints s1));
      [| apply take_drop].
    f_equal. transitivity (id <$> live s1); [| apply list_fmap_id].
    apply list_fmap_ext. intros i e He. simpl.
    unfold update_record. rewrite Hset; [done |].
    by eapply list_elem_of_lookup_2.
  - intros a. rewrite updated_mem. apply foldl_update_mem_outside.
    intros e He Hres. rewrite Hset in Hres; done.
  - unfold updated at 1. cbn [set_entrypoints trace].
    by rewrite foldl_update_trace, callback_calls_app,
      callback_calls_update_events.
  - intros e He Ha. specialize (Hset e He). unfold resolved in Hset.
    rewrite Ha in Hset. cbn in Hset.
    by destruct (Z.eqb_spec (callback (procName e) param) NULL).
Qed.

(** X8 at the scenario: the vendor that knows "glFoo" is asked twice. *)
Lemma X8_update_again_witness :
  reachable USE_X86_64_ASM Demo.default_dispatch Demo.two_stubs_x86_64 /\
  exists s1 s2,
    glvndUpdateEntrypoints USE_X86_64_ASM Demo.vendor 0 Demo.two_stubs_x86_64 =
      Done tt s1 /\
    glvndUpdateEntrypoints USE_X86_64_ASM Demo.vendor 0 s1 = Done tt s2 /\
    entrypoints s2 = entrypoints s1 /\
    entrypointCount s2 = entrypointCount s1 /\
    (forall a, mem s2 a = mem s1 a) /\
    callback_calls (trace s2) =
      callback_calls (trace s1) ++
      ((fun e => (procName e, 0)) <$>
       filter (fun e => assigned e = 0) (live s1)) /\
    forall e, e ∈ live s1 -> assigned e = 0 ->
              Demo.vendor (procName e) 0 = NULL.
Proof.
  split; [apply Demo_two_stubs_reachable |].
  exact (X8_update_again USE_X86_64_ASM Demo.default_dispatch Demo.vendor 0
           Demo.two_stubs_x86_64 (Demo_two_stubs_reachable USE_X86_64_ASM)).
Defined.

(** ** A stub that has its target *)

Lemma assigned_unresolved callback param e :
  assigned e = 1 -> resolved callback param e = false.
Proof. unfold resolved. by intros ->. Qed.

Lemma do_call_frozen arch ddf c t r t' i e :
  state_inv arch t -> call_ok c -> not_free c ->
  do_call arch ddf c t = Done r t' ->
  (i < entrypointCount t)%nat -> entrypoints t !! i = Some e -> assigned e = 1 ->
  (i < entrypointCount t')%nat /\ entrypoints t' !! i = Some e /\
  forall a, in_slot e a -> mem t' a = mem t a.
Proof.
  intros Hinv Hok Hnf Hc Hi He Ha.
  assert (entrypointCount t <= length (entrypoints t))%nat as Hlen.
  { rewrite (inv_length _ _ Hinv). apply Hinv. }
  destruct c as [os_alloc os_strdup name | callback param |]; simpl in *; [| | done].
  - rewrite generate_closed_form in Hc by done. injection Hc as _ <-.
    pose proof (after_init_inv _ _ _ Hinv Hok) as Hinv1.
    pose proof (after_init_count os_alloc t) as Hc1.
    pose proof (after_init_entrypoints os_alloc t) as He1.
    pose proof (after_init_mem os_alloc t) as Hm1.
    unfold generate_result. cbn zeta.
    set (t1 := after_init os_alloc t) in *.
    assert ((i < entrypointCount t1)%nat /\ entrypoints t1 !! i = Some e /\
            forall a, in_slot e a -> mem t1 a = mem t a) as Hsame
      by (rewrite Hc1, He1, Hm1; done).
    destruct (_ =? _); [done |]. destruct (first_match _ _); [done |].
    destruct (_ <? _)%nat; [| done].
    destruct os_strdup; [| done].
    cbn [snd]. split; [unfold inserted; cbn [entrypointCount]; lia |]. split.
    + unfold inserted. cbn [entrypoints].
      rewrite list_lookup_insert_ne by lia. apply Hsame.
    + intros a Hs. rewrite <- Hm1. apply inserted_mem_outside.
      destruct Hsame as (Hi1 & He1' & _).
      destruct (inv_live _ _ Hinv1 i e Hi1 He1') as (_ & Hw & _).
      unfold in_slot, new_entry, STUB_ENTRY_SIZE in *.
      cbn [entrypointWrite]. lia.
  - erewrite bind_Done in Hc by (by apply update_closed_form).
    injection Hc as _ <-.
    destruct (updated_fields arch callback param t) as (_ & _ & Hcnt).
    pose proof (assigned_unresolved callback param e Ha) as Hres.
    split; [lia |]. split.
    + rewrite updated_lookup, decide_True, He by done. simpl.
      unfold update_record. by rewrite Hres.
    + intros a Hs. apply (updated_mem_slot arch callback param t i e); try done.
      * by apply live_lookup.
      * by rewrite Hres.
Qed.

(** X9: a stub that got its target keeps it.  Once a record is assigned,
    no run of [glvndGenerateEntrypoint] and [glvndUpdateEntrypoints]
    calls, whatever the callbacks answer, changes the record or any of the
    16 bytes of its stub; only [glvndFreeEntrypoints] ends that. *)
Theorem X9_assigned_stub_frozen arch ddf s i e cs :
  reachable arch ddf s ->
  (i < entrypointCount s)%nat -> entrypoints s !! i = Some e ->
  assigned e = 1 ->
  Forall call_ok cs -> Forall not_free cs ->
  exists rs s',
    do_calls arch ddf cs s = Done rs s' /\
    (i < entrypointCount s')%nat /\ entrypoints s' !! i = Some e /\
    forall a, in_slot e a -> mem s' a = mem s a.
Proof.
  intros Hr Hi He Ha Hoks Hnfs.
  pose proof (reachable_inv _ _ _ Hr) as Hinv.
  assert (forall t c r t',
    state_inv arch t ->
    ((i < entrypointCount t)%nat /\ entrypoints t !! i = Some e /\
     forall a, in_slot e a -> mem t a = mem s a) ->
    call_ok c -> not_free c ->
    do_call arch ddf c t = Done r t' ->
    (i < entrypointCount t')%nat /\ entrypoints t' !! i = Some e /\
    forall a, in_slot e a -> mem t' a = mem s a) as Hstep.
  { intros t c r t' Hinvt (Hit & Het & Hmt) Hok Hnf Hc.
    destruct (do_call_frozen arch ddf c t r t' i e Hinvt Hok Hnf Hc Hit Het Ha)
      as (Hi' & He' & Hm').
    split; [done |]. split; [done |].
    intros a Hs. rewrite Hm' by done. by apply Hmt. }
  destruct (do_calls_preserve arch ddf _ Hstep cs s Hinv
              (conj Hi (conj He (fun a _ => eq_refl))) Hoks Hnfs)
    as (rs & s' & Hd & _ & HP).
  by exists rs, s'.
Qed.

(** X9 at the scenario: "glFoo" is resolved; then a vendor that resolves
    every name is asked and a third entrypoint is generated. *)
Lemma X9_assigned_stub_frozen_witness :
  reachable USE_X86_ASM Demo.default_dispatch Demo.resolved_x86 /\
  (0 < entrypointCount Demo.resolved_x86)%nat /\
  entrypoints Demo.resolved_x86 !! 0%nat = Some (set_assigned 1 Demo.foo_entry) /\
  assigned (set_assigned 1 Demo.foo_entry) = 1 /\
  Forall call_ok [CallUpdate (fun _ _ => 0x40000) 0; Demo.generate "glBaz"] /\
  Forall not_free [CallUpdate (fun _ _ => 0x40000) 0; Demo.generate "glBaz"] /\
  exists rs s',
    do_calls USE_X86_ASM Demo.default_dispatch
      [CallUpdate (fun _ _ => 0x40000) 0; Demo.generate "glBaz"]
      Demo.resolved_x86 = Done rs s' /\
    (0 < entrypointCount s')%nat /\
    entrypoints s' !! 0%nat = Some (set_assigned 1 Demo.foo_entry) /\
    forall a, in_slot (set_assigned 1 Demo.foo_entry) a ->
              mem s' a = mem Demo.resolved_x86 a.
Proof.
  assert (reachable USE_X86_ASM Demo.default_dispatch Demo.resolved_x86) as Hr.
  { apply reachable_state_after; [apply reachable_init |].
    repeat constructor; apply Demo_pages_ok. }
  assert (0 < entrypointCount Demo.resolved_x86)%nat as Hi
    by (vm_compute; lia).
  assert (entrypoints Demo.resolved_x86 !! 0%nat =
          Some (set_assigned 1 Demo.foo_entry)) as He
    by (vm_compute; reflexivity).
  assert (assigned (set_assigned 1 Demo.foo_entry) = 1) as Ha by reflexivity.
  assert (Forall call_ok
            [CallUpdate (fun _ _ => 0x40000) 0; Demo.generate "glBaz"]) as Hoks
    by (repeat constructor; apply Demo_pages_ok).
  assert (Forall not_free
            [CallUpdate (fun _ _ => 0x40000) 0; Demo.generate "glBaz"]) as Hnfs
    by repeat constructor.
  split; [exact Hr |]. split; [exact Hi |]. split; [exact He |].
  split; [exact Ha |]. split; [exact Hoks |]. split; [exact Hnfs |].
  exact (X9_assigned_stub_frozen USE_X86_ASM Demo.default_dispatch
           Demo.resolved_x86 0%nat (set_assigned 1 Demo.foo_entry)
           [CallUpdate (fun _ _ => 0x40000) 0; Demo.generate "glBaz"]
           Hr Hi He Ha Hoks Hnfs).
Defined.

(** ** No fault *)







